(** * custom_dict: a shallow embedding of [Dictionary] (src/custom_dict.py)

    The Python class keeps a list of buckets (each a list of
    [(key, value, hash)] triples), an integer [size] counter, an integer
    [capacity] and a floating-point [load_factor].  Every method is embedded
    as a function on an explicit table record; exceptions are values of
    [result]; Python floats are IEEE 754 binary64 numbers ([spec_float] with
    53 bits of precision), so that the capacity searches round exactly as
    the interpreter does. *)

From Stdlib Require Import ZArith Lia Bool List Permutation SpecFloat DecimalString.
From stdpp Require Import base list strings.

Open Scope Z_scope.

(** ** Exceptions and results *)

Inductive exn : Set :=
  | KeyError
  | ZeroDivisionError
  | IndexError
  | OverflowError
  | ValueError.

(** [OutOfFuel] is not a Python outcome: it marks a loop of the model that
    was cut off before the Python loop would have stopped. *)
Inductive result (A : Type) : Type :=
  | Ok (a : A)
  | Raise (e : exn)
  | OutOfFuel.

Arguments Ok {A} a.
Arguments Raise {A} e.
Arguments OutOfFuel {A}.

Definition bind {A B : Type} (r : result A) (k : A -> result B) : result B :=
  match r with
  | Ok a => k a
  | Raise e => Raise e
  | OutOfFuel => OutOfFuel
  end.

Notation "'let+' x ':=' r 'in' k" := (bind r (fun x => k))
  (at level 10, x name, r at level 200, k at level 200).

(** ** Python integers, lists and floats *)

Module Py.

(** [a % b] on integers: the sign of the result follows the divisor, as
    [Z.modulo] does. *)
Definition mod_ (a b : Z) : result Z :=
  if b =? 0 then Raise ZeroDivisionError else Ok (a mod b).

(** [l[i]]: a negative index counts from the end. *)
Definition getitem {A : Type} (l : list A) (i : Z) : result A :=
  let n := Z.of_nat (length l) in
  let j := if i <? 0 then i + n else i in
  if (0 <=? j) && (j <? n) then
    match l !! Z.to_nat j with
    | Some x => Ok x
    | None => Raise IndexError
    end
  else Raise IndexError.

(** [l[i] = x]. *)
Definition setitem {A : Type} (l : list A) (i : Z) (x : A) : result (list A) :=
  let n := Z.of_nat (length l) in
  let j := if i <? 0 then i + n else i in
  if (0 <=? j) && (j <? n) then Ok (<[Z.to_nat j := x]> l) else Raise IndexError.

(** [[x for _ in range(n)]]. *)
Definition fresh {A : Type} (x : A) (n : Z) : list A := replicate (Z.to_nat n) x.

(** *** binary64 *)

Definition prec : Z := 53.
Definition emax : Z := 1024.

Abbreviation float := spec_float.

(** An integer as an exact (not yet rounded) binary number. *)
Definition exact (z : Z) : float :=
  match z with
  | Z0 => S754_zero false
  | Zpos p => S754_finite false p 0
  | Zneg p => S754_finite true p 0
  end.

Definition overflow_check (f : float) : result float :=
  match f with
  | S754_infinity _ => Raise OverflowError
  | _ => Ok f
  end.

(** [float(z)]: round to nearest, ties to even. *)
Definition float_of_int (z : Z) : result float :=
  overflow_check (binary_normalize prec emax z 0 false).

(** [a / b] on two integers: the correctly rounded quotient. *)
Definition int_truediv (a b : Z) : result float :=
  if b =? 0 then Raise ZeroDivisionError
  else overflow_check (SFdiv prec emax (exact a) (exact b)).

(** [x / y] on two floats. *)
Definition float_truediv (x y : float) : result float :=
  match y with
  | S754_zero _ => Raise ZeroDivisionError
  | _ => Ok (SFdiv prec emax x y)
  end.

Definition float_mul (x y : float) : float := SFmul prec emax x y.

(** Comparison of a float with an integer is exact in Python: the integer
    is not rounded first.  [None] is the unordered case (NaN). *)
Definition float_cmp_int (f : float) (z : Z) : option comparison :=
  match f with
  | S754_nan => None
  | S754_infinity s => Some (if s then Lt else Gt)
  | S754_zero _ => Some (0 ?= z)
  | S754_finite s m e =>
      let v := if s then Zneg m else Zpos m in
      Some (if 0 <=? e then (v * 2 ^ e ?= z) else (v ?= z * 2 ^ (- e)))
  end.

Definition float_lt_int (f : float) (z : Z) : bool :=
  match float_cmp_int f z with Some Lt => true | _ => false end.

Definition float_gt_int (f : float) (z : Z) : bool :=
  match float_cmp_int f z with Some Gt => true | _ => false end.

Definition float_le_int (f : float) (z : Z) : bool :=
  match float_cmp_int f z with Some (Lt | Eq) => true | _ => false end.

(** [x >= y] on two floats. *)
Definition float_ge (x y : float) : bool := SFleb y x.

(** [int(f)]: truncation toward zero. *)
Definition int_of_float (f : float) : result Z :=
  match f with
  | S754_nan => Raise ValueError
  | S754_infinity _ => Raise OverflowError
  | S754_zero _ => Ok 0
  | S754_finite s m e =>
      let v := if 0 <=? e then Zpos m * 2 ^ e else Zpos m / 2 ^ (- e) in
      Ok (if s then - v else v)
  end.

(** A number that is an [int] or a [float] at run time, as
    [previous_capacity] is in the shrinking search. *)
Inductive num : Type :=
  | Int (z : Z)
  | Float (f : float).

(** [2.0]. *)
Definition two : float := S754_finite false 4503599627370496 (-51).

(** [n / 2]. *)
Definition num_half (n : num) : result float :=
  match n with
  | Int z => int_truediv z 2
  | Float f => float_truediv f two
  end.

(** [int(n)]. *)
Definition int_of_num (n : num) : result Z :=
  match n with
  | Int z => Ok z
  | Float f => int_of_float f
  end.

End Py.


(** ** Keys

    A key is any Python object with [__hash__] and [__eq__]; the table also
    looks at its exact run-time type. *)

Class PyKey (K : Type) : Type := {
  py_hash : K -> Z;            (* hash(k) *)
  py_eq : K -> K -> bool;      (* a == b *)
  py_same_type : K -> K -> bool (* type(a) is type(b) *)
}.

(** ** The table *)

(** A stored triple [(key, value, hash(key))], and a bucket of them. *)
Abbreviation entry K V := (K * V * Z)%type (only parsing).
Abbreviation bucket K V := (list (K * V * Z)) (only parsing).

Section Dictionary.

Context {K V : Type} `{PyKey K}.

Record Dictionary : Type := mkDictionary {
  load_factor : Py.float;
  size : Z;
  capacity : Z;
  buckets : list (bucket K V)
}.

Definition entry_key (e : entry K V) : K := fst (fst e).
Definition entry_value (e : entry K V) : V := snd (fst e).

(** *** Methods as state transformers

    A method runs on the object and leaves it in some state whether it
    returns or raises: [self.size += 1] is not undone by an exception. *)

Definition M (A : Type) : Type := Dictionary -> result A * Dictionary.

Definition ret {A : Type} (a : A) : M A := fun d => (Ok a, d).
Definition raise {A : Type} (e : exn) : M A := fun d => (Raise e, d).
Definition read {A : Type} (f : Dictionary -> result A) : M A := fun d => (f d, d).

Definition bindM {A B : Type} (m : M A) (k : A -> M B) : M B :=
  fun d =>
    match m d with
    | (Ok a, d') => k a d'
    | (Raise e, d') => (Raise e, d')
    | (OutOfFuel, d') => (OutOfFuel, d')
    end.

Definition set_size (n : Z) : M unit :=
  fun d => (Ok tt, {| load_factor := load_factor d; size := n;
                      capacity := capacity d; buckets := buckets d |}).

Definition set_capacity (c : Z) : M unit :=
  fun d => (Ok tt, {| load_factor := load_factor d; size := size d;
                      capacity := c; buckets := buckets d |}).

Definition set_buckets (bs : list (bucket K V)) : M unit :=
  fun d => (Ok tt, {| load_factor := load_factor d; size := size d;
                      capacity := capacity d; buckets := bs |}).

Notation "'let*' x ':=' m 'in' k" := (bindM m (fun x => k))
  (at level 10, x name, m at level 200, k at level 200).
Notation "m ;; k" := (bindM m (fun _ => k))
  (at level 100, k at level 200, right associativity).

(** [__define_potential_capacity_increase]:
    [while previous_capacity * self.load_factor < self.size:
       previous_capacity *= 2], then [int(previous_capacity)]. *)
Fixpoint define_potential_capacity_increase
    (fuel : nat) (lf : Py.float) (sz : Z) (previous_capacity : Z) : result Z :=
  match fuel with
  | O => OutOfFuel
  | S fuel' =>
      let+ c := Py.float_of_int previous_capacity in
      if Py.float_lt_int (Py.float_mul c lf) sz
      then define_potential_capacity_increase fuel' lf sz (previous_capacity * 2)
      else Ok previous_capacity
  end.

(** [__define_potential_capacity_decrease]:
    [while previous_capacity / 2 * self.load_factor > self.size:
       previous_capacity /= 2], then [int(previous_capacity)]. *)
Fixpoint define_potential_capacity_decrease
    (fuel : nat) (lf : Py.float) (sz : Z) (previous_capacity : Py.num) : result Z :=
  match fuel with
  | O => OutOfFuel
  | S fuel' =>
      let+ half := Py.num_half previous_capacity in
      if Py.float_gt_int (Py.float_mul half lf) sz
      then define_potential_capacity_decrease fuel' lf sz (Py.Float half)
      else Py.int_of_num previous_capacity
  end.

(** The rehash loop of [_resize]: every entry of every old bucket, in
    order, is appended to bucket [hash(key) % new_capacity] with a
    recomputed hash. *)
Definition rehash_entry (new_capacity : Z) (acc : result (list (bucket K V))) (e : entry K V)
    : result (list (bucket K V)) :=
  let+ new_buckets := acc in
  let key := entry_key e in
  let+ bucket_index := Py.mod_ (py_hash key) new_capacity in
  let+ b := Py.getitem new_buckets bucket_index in
  Py.setitem new_buckets bucket_index (b ++ [(key, entry_value e, py_hash key)]).

Definition rehash (old : list (bucket K V)) (new_capacity : Z) : result (list (bucket K V)) :=
  fold_left (rehash_entry new_capacity) (concat old) (Ok (Py.fresh [] new_capacity)).

(** [_resize]: the new bucket list and capacity are assigned only after
    the whole rehash. *)
Definition _resize (fuel : nat) (smaller : bool) : M unit :=
  let* new_capacity :=
    read (fun d =>
      if smaller
      then define_potential_capacity_decrease fuel (load_factor d) (size d)
             (Py.Int (capacity d))
      else define_potential_capacity_increase fuel (load_factor d) (size d)
             (capacity d)) in
  let* new_buckets := read (fun d => rehash (buckets d) new_capacity) in
  set_buckets new_buckets ;;
  set_capacity new_capacity.

(** [if self.size / self.capacity >= self.load_factor:
       self._resize(smaller=increased)]. *)
Definition _capacity_recalculation (fuel : nat) (increased : bool) : M unit :=
  let* ratio := read (fun d => Py.int_truediv (size d) (capacity d)) in
  let* lf := read (fun d => Ok (load_factor d)) in
  if Py.float_ge ratio lf then _resize fuel increased else ret tt.

(** [stored_key == key and type(stored_key) is type(key)]. *)
Definition key_matches (key : K) (e : entry K V) : bool :=
  py_eq (entry_key e) key && py_same_type (entry_key e) key.

(** The [while bucket:] loop of [_get_bucket_index]; one unit of fuel per
    test of the loop condition. *)
Fixpoint probe (fuel : nat) (d : Dictionary) (key : K)
    (initial_index bucket_index : Z) (b : bucket K V) : result Z :=
  match fuel with
  | O => OutOfFuel
  | S fuel' =>
      match b with
      | [] => Ok bucket_index
      | _ :: _ =>
          if existsb (key_matches key) b then Ok bucket_index
          else
            let+ next := Py.mod_ (bucket_index + 1) (capacity d) in
            let+ b' := Py.getitem (buckets d) next in
            if next =? initial_index then Raise KeyError
            else probe fuel' d key initial_index next b'
      end
  end.

(** [_get_bucket_index]: the loop gets as many units of fuel as there
    are residues modulo [capacity]; it never needs more
    (get_bucket_index_terminates). *)
Definition _get_bucket_index (d : Dictionary) (key : K) : result Z :=
  let hash_value := py_hash key in
  let+ initial_index := Py.mod_ hash_value (capacity d) in
  let+ b := Py.getitem (buckets d) initial_index in
  probe (Z.abs_nat (capacity d)) d key initial_index initial_index b.

(** Position of the first entry with [stored_key == key]
    ([for i, (stored_key, _, _) in enumerate(bucket)]). *)
Fixpoint find_key (key : K) (b : bucket K V) : option nat :=
  match b with
  | [] => None
  | e :: b' =>
      if py_eq (entry_key e) key then Some O
      else option_map S (find_key key b')
  end.

(** Lines 75-83 and 96-104: locate the bucket, overwrite the first
    [==]-equal entry in place or append.  Returns [true] when an entry
    was overwritten (the branch that ends in [return]). *)
Definition store (key : K) (value : V) : M bool :=
  let* bucket_index := read (fun d => _get_bucket_index d key) in
  let* b := read (fun d => Py.getitem (buckets d) bucket_index) in
  match find_key key b with
  | Some i =>
      let* bs := read (fun d =>
        Py.setitem (buckets d) bucket_index (<[i := (key, value, py_hash key)]> b)) in
      set_buckets bs ;; ret true
  | None =>
      let* bs := read (fun d =>
        Py.setitem (buckets d) bucket_index (b ++ [(key, value, py_hash key)])) in
      set_buckets bs ;; ret false
  end.

(** [self.size += 1; self._capacity_recalculation()], then the
    statements of [store]. *)
Definition __setitem__ (fuel : nat) (key : K) (value : V) : M unit :=
  let* n := read (fun d => Ok (size d)) in
  set_size (n + 1) ;;
  _capacity_recalculation fuel false ;;
  store key value ;;
  ret tt.

(** The value of the first entry of the bucket with [stored_key == key]
    (no look at the type here), or [KeyError]. *)
Definition __getitem__ (d : Dictionary) (key : K) : result V :=
  let+ bucket_index := _get_bucket_index d key in
  let+ b := Py.getitem (buckets d) bucket_index in
  match find (fun e => py_eq (entry_key e) key) b with
  | Some e => Ok (entry_value e)
  | None => Raise KeyError
  end.

(** [del bucket[i]] for the first entry with [stored_key == key], then
    [self.size -= 1] and, if [self.size < self.capacity // 4] (a floor
    division by 4, which cannot raise), [self._resize(smaller=True)]. *)
Definition __delitem__ (fuel : nat) (key : K) : M unit :=
  let* bucket_index := read (fun d => _get_bucket_index d key) in
  let* b := read (fun d => Py.getitem (buckets d) bucket_index) in
  match find_key key b with
  | Some i =>
      let* bs := read (fun d => Py.setitem (buckets d) bucket_index (delete i b)) in
      set_buckets bs ;;
      let* n := read (fun d => Ok (size d)) in
      set_size (n - 1) ;;
      let* small := read (fun d => Ok (size d <? capacity d / 4)) in
      if small then _resize fuel true else ret tt
  | None => raise KeyError
  end.

(** [try: _ = self[key]; return True / except KeyError: return False]. *)
Definition __contains__ (key : K) : M bool :=
  fun d =>
    match __getitem__ d key with
    | Ok _ => (Ok true, d)
    | Raise KeyError => (Ok false, d)
    | Raise e => (Raise e, d)
    | OutOfFuel => (OutOfFuel, d)
    end.

(** The pairs [__iter__] yields, in order. *)
Definition __iter__ (d : Dictionary) : list (K * V) :=
  map (fun e => (entry_key e, entry_value e)) (concat (buckets d)).

Definition __len__ (d : Dictionary) : Z := size d.

(** [all(hasattr(key, "__hash__") for key in keys)]: every object has
    the attribute. *)
Definition validate_keys (keys : list K) : bool := forallb (fun _ => true) keys.

(** The [for key, value in kwargs.items()] loop of [__init__], which a
    [return] in its body ends early. *)
Fixpoint init_loop (kwargs : list (K * V)) : M unit :=
  match kwargs with
  | [] => ret tt
  | (key, value) :: rest =>
      let* returned := store key value in
      if returned then ret tt else init_loop rest
  end.

(** [__init__]: [kwargs] lists the items of the keyword dictionary in
    order; [self.size = len(kwargs)], the capacity is searched once, the
    buckets are allocated and the loop stores the pairs. *)
Definition __init__ (fuel : nat) (initial_capacity : Z) (lf : Py.float)
    (kwargs : list (K * V)) : result Dictionary :=
  if validate_keys (map fst kwargs) then
    let sz := Z.of_nat (length kwargs) in
    let+ cap := define_potential_capacity_increase fuel lf sz initial_capacity in
    let d := {| load_factor := lf; size := sz; capacity := cap;
                buckets := Py.fresh [] cap |} in
    match init_loop kwargs d with
    | (Ok _, d') => Ok d'
    | (Raise e, _) => Raise e
    | (OutOfFuel, _) => OutOfFuel
    end
  else Raise ValueError.

End Dictionary.

Arguments Dictionary : clear implicits.
Arguments M : clear implicits.

(** ** Running a program against the table *)

Section Programs.

Context {K V : Type} `{PyKey K}.

Inductive op : Type :=
  | SetItem (key : K) (value : V)   (* d[key] = value *)
  | GetItem (key : K)               (* d[key] *)
  | DelItem (key : K)               (* del d[key] *)
  | Contains (key : K)              (* key in d *)
  | Len                             (* len(d) *)
  | Iter.                           (* list(d) *)

Definition forget {A : Type} (r : result A) : result unit :=
  match r with
  | Ok _ => Ok tt
  | Raise e => Raise e
  | OutOfFuel => OutOfFuel
  end.

(** One statement: how it ended and the state it left. *)
Definition step (fuel : nat) (o : op) (d : Dictionary K V) : result unit * Dictionary K V :=
  match o with
  | SetItem key value => __setitem__ fuel key value d
  | DelItem key => __delitem__ fuel key d
  | GetItem key => (forget (__getitem__ d key), d)
  | Contains key => let '(r, d') := __contains__ key d in (forget r, d')
  | Len | Iter => (Ok tt, d)
  end.

(** A script whose exceptions nobody catches: it stops at the first
    statement that raises. *)
Fixpoint script (fuel : nat) (ops : list op) (d : Dictionary K V)
    : result (Dictionary K V) :=
  match ops with
  | [] => Ok d
  | o :: rest =>
      match step fuel o d with
      | (Ok _, d') => script fuel rest d'
      | (Raise e, _) => Raise e
      | (OutOfFuel, _) => OutOfFuel
      end
  end.

(** Number of entries actually stored. *)
Definition entry_count (d : Dictionary K V) : Z :=
  Z.of_nat (length (concat (buckets d))).

End Programs.

Arguments op : clear implicits.

(** ** Vocabulary of the statements *)

Section Specification.

Context {K V : Type} `{PyKey K}.

Implicit Types (d : Dictionary K V) (b : bucket K V) (bs : list (bucket K V)).
Implicit Types (key : K) (e : entry K V).

Definition wf d : Prop :=
  0 < capacity d /\ Z.of_nat (length (buckets d)) = capacity d.

Definition bucket_at bs (i : Z) : bucket K V := default [] (bs !! Z.to_nat i).

(** What [_resize] stores for an old entry: the hash is recomputed. *)
Definition refresh e : entry K V :=
  (entry_key e, entry_value e, py_hash (entry_key e)).

Definition home (c : Z) key : Z := py_hash key mod c.

(** The entries of [es] that belong in bucket [i] of a table of capacity
    [c], in the order of [es]. *)
Definition rehomed (c : Z) (es : list (entry K V)) (i : Z) : bucket K V :=
  refresh <$> filter (fun e => home c (entry_key e) = i) es.

(** The loop of [_get_bucket_index] leaves a bucket that is empty or
    holds an equal key of the same type. *)
Definition stopb key b : bool :=
  match b with [] => true | _ :: _ => existsb (key_matches key) b end.

Definition bucket_stops key b : Prop :=
  b = [] \/ exists e, e ∈ b /\ py_eq (entry_key e) key = true /\
                       py_same_type (entry_key e) key = true.

(** The bucket index at distance [o] from the initial one. *)
Definition at_offset d (init o : Z) : Z := (init + o) mod capacity d.

Definition stops_at d key (init o : Z) : bool :=
  stopb key (bucket_at (buckets d) (at_offset d init o)).

(** The capacity search [_resize] starts with. *)
Definition searched_capacity (fuel : nat) (smaller : bool) d : result Z :=
  if smaller
  then define_potential_capacity_decrease fuel (load_factor d) (size d) (Py.Int (capacity d))
  else define_potential_capacity_increase fuel (load_factor d) (size d) (capacity d).

(** The keys stored in the table, bucket by bucket. *)
Definition keys_of d : list K := entry_key <$> concat (buckets d).

(** No stored key is [==] to [key]. *)
Definition absent key d : Prop :=
  forall k, k ∈ keys_of d -> py_eq k key = false.

(** [key] sits in the bucket its hash names. *)
Definition at_home d key : Prop :=
  exists e, e ∈ bucket_at (buckets d) (home (capacity d) key) /\ entry_key e = key.

(** What [store] makes of the bucket it was led to. *)
Definition place key (value : V) b : bucket K V :=
  match find_key key b with
  | Some i => <[i := (key, value, py_hash key)]> b
  | None => b ++ [(key, value, py_hash key)]
  end.

Definition with_buckets d bs : Dictionary K V :=
  {| load_factor := load_factor d; size := size d;
     capacity := capacity d; buckets := bs |}.

Definition with_size d (n : Z) : Dictionary K V :=
  {| load_factor := load_factor d; size := n;
     capacity := capacity d; buckets := buckets d |}.

(** The numbers [_capacity_recalculation] works with: [None] when the
    load is below the load factor, else the capacity the growing search
    returns. *)
Definition grow_check (fuel : nat) (lf : Py.float) (sz cap : Z) : result (option Z) :=
  let+ ratio := Py.int_truediv sz cap in
  if Py.float_ge ratio lf
  then let+ c := define_potential_capacity_increase fuel lf sz cap in Ok (Some c)
  else Ok None.

(** Size and capacity after [__setitem__] of a key that is not stored,
    and whether the table was rehashed; [None] unless the capacity stays
    positive and above the number of entries. *)
Definition shape_set (fuel : nat) (lf : Py.float) (sz cap : Z) : option (Z * Z * bool) :=
  match grow_check fuel lf (sz + 1) cap with
  | Ok None => if (0 <? cap) && (sz <? cap) then Some (sz + 1, cap, false) else None
  | Ok (Some c) => if (0 <? c) && (sz <? c) then Some (sz + 1, c, true) else None
  | _ => None
  end.

Fixpoint shape_sets (fuel : nat) (lf : Py.float) (sz cap : Z) (n : nat)
    : option (Z * Z * bool) :=
  match n with
  | O => Some (sz, cap, false)
  | S n' =>
      match shape_set fuel lf sz cap with
      | Some (sz', cap', r) =>
          match shape_sets fuel lf sz' cap' n' with
          | Some (sz'', cap'', r') => Some (sz'', cap'', r || r')
          | None => None
          end
      | None => None
      end
  end.

(** Size and capacity after [__delitem__] of a stored key. *)
Definition shape_del (fuel : nat) (lf : Py.float) (sz cap : Z) : option (Z * Z) :=
  if sz - 1 <? cap / 4 then
    match define_potential_capacity_decrease fuel lf (sz - 1) (Py.Int cap) with
    | Ok c => if 0 <? c then Some (sz - 1, c) else None
    | _ => None
    end
  else Some (sz - 1, cap).

Fixpoint shape_dels (fuel : nat) (lf : Py.float) (sz cap : Z) (n : nat) : option (Z * Z) :=
  match n with
  | O => Some (sz, cap)
  | S n' =>
      match shape_del fuel lf sz cap with
      | Some (sz', cap') => shape_dels fuel lf sz' cap' n'
      | None => None
      end
  end.

(** No two keys at different positions are [==]. *)
Definition pairwise_ne (ks : list K) : Prop :=
  forall i j ki kj, ks !! i = Some ki -> ks !! j = Some kj -> i <> j -> py_eq ki kj = false.

Fixpoint pairwise_neb (ks : list K) : bool :=
  match ks with
  | [] => true
  | k :: rest =>
      forallb (fun k' => negb (py_eq k k') && negb (py_eq k' k)) rest && pairwise_neb rest
  end.

(** Each key is [==] to itself and of its own type. *)
Definition self_equal key : Prop :=
  py_eq key key = true /\ py_same_type key key = true.

(** Every stored pair is what [d[key]] returns for its key. *)
Definition retrievable d : Prop :=
  forall e, e ∈ concat (buckets d) -> __getitem__ d (entry_key e) = Ok (entry_value e).

(** The triple stored for a pair of the initial mapping. *)
Definition entry_of (kv : K * V) : entry K V := (kv.1, kv.2, py_hash kv.1).

(** The pair [(k, v)] is in the table. *)
Definition stored d k (v : V) : Prop :=
  exists e, e ∈ concat (buckets d) /\ entry_key e = k /\ entry_value e = v.

(** The invariant of a table that has seen no deletion. *)
Definition consistent d : Prop :=
  wf d /\ retrievable d /\ NoDup (keys_of d).

(** The value of the last [d[k] = v] of a script, if any. *)
Fixpoint last_set (ops : list (op K V)) (k : K) : option V :=
  match ops with
  | [] => None
  | o :: rest =>
      match last_set rest k with
      | Some v => Some v
      | None =>
          match o with
          | SetItem k0 v0 => if py_eq k0 k then Some v0 else None
          | _ => None
          end
      end
  end.

Definition no_delete (o : op K V) : bool :=
  match o with DelItem _ => false | _ => true end.

(** The state [self.size += 1; self._capacity_recalculation()] leaves. *)
Definition recalculated (fuel : nat) d d1 : Prop :=
  d1 = with_size d (size d + 1) \/
  exists c arr,
    define_potential_capacity_increase fuel (load_factor d) (size d + 1) (capacity d) = Ok c /\
    rehash (buckets d) c = Ok arr /\
    d1 = {| load_factor := load_factor d; size := size d + 1;
            capacity := c; buckets := arr |}.

(** No bucket holds more than one entry. *)
Definition one_per_bucket d : Prop :=
  forall b, b ∈ buckets d -> (length b <= 1)%nat.

End Specification.

(** ** Bounds on rounded numbers *)

Section Bounds.

(** [m * 2^e <= c] for integers [m], [e], [c], without fractions. *)
Definition le_scaled (m e c : Z) : Prop :=
  m * 2 ^ Z.max e 0 <= c * 2 ^ Z.max (- e) 0.

(** What a rounded non-negative number may be when it is bounded by [c]. *)
Definition bounded_float (c : Z) (f : Py.float) : Prop :=
  match f with
  | S754_zero _ => True
  | S754_finite false m e => le_scaled (Zpos m) e c
  | _ => False
  end.

(** [float(c) * load_factor < size], the condition of the growing
    search. *)
Definition too_small (lf : Py.float) (sz c : Z) : result bool :=
  let+ cf := Py.float_of_int c in Ok (Py.float_lt_int (Py.float_mul cf lf) sz).

(** What is known of [previous_capacity] inside the shrinking search: it
    is the integer the search started from, or a half that passed the
    loop condition. *)
Definition passed (lf : Py.float) (sz : Z) (prev : Py.num) : Prop :=
  match prev with
  | Py.Int _ => True
  | Py.Float f => Py.float_gt_int (Py.float_mul f lf) sz = true
  end.

(** A float that is at least 1.0, read off its binary64 representation. *)
Definition at_least_one (f : Py.float) : Prop :=
  match f with
  | S754_finite false m e => -52 < e \/ (e = -52 /\ 2 ^ 52 <= Zpos m)
  | S754_infinity false => True
  | _ => False
  end.

(** An integer bound on [previous_capacity], an [int] or a [float]. *)
Definition bounded_num (B : Z) (prev : Py.num) : Prop :=
  match prev with
  | Py.Int z => 1 <= z <= B
  | Py.Float f => bounded_float B f
  end.

End Bounds.

(** ** A concrete universe of keys: [int], [float] and [str] objects *)

Inductive pykey : Type :=
  | KInt (n : Z)
  | KFloat (f : Py.float)
  | KStr (s : string).

Module Hash.

(** CPython reduces numbers modulo the Mersenne prime 2^61 - 1, keeps
    the sign, and never returns -1. *)
Definition modulus : Z := 2 ^ 61 - 1.

Definition fix_minus_one (x : Z) : Z := if x =? -1 then -2 else x.

Definition of_int (n : Z) : Z :=
  fix_minus_one (Z.sgn n * (Z.abs n mod modulus)).

(** A finite float m * 2^e hashes to m * 2^(e mod 61) reduced, since
    2^61 = 1 modulo the prime; an integral float thus hashes as the
    integer it equals.  A NaN hashes to 0, as in CPython up to 3.9; from
    3.10 on its hash comes from the identity of the object, which a key
    taken as a value does not have.  No statement below depends on the
    bucket a NaN is led to. *)
Definition of_float (f : Py.float) : Z :=
  match f with
  | S754_zero _ => 0
  | S754_infinity s => if s then -314159 else 314159
  | S754_nan => 0
  | S754_finite s m e =>
      let x := (Zpos m * 2 ^ (e mod 61)) mod modulus in
      fix_minus_one (if s then - x else x)
  end.

End Hash.

Section Concrete.

(** The hash of a string depends on a per-process random seed: it is a
    parameter. *)
Variable str_hash : string -> Z.

Definition pykey_hash (k : pykey) : Z :=
  match k with
  | KInt n => Hash.of_int n
  | KFloat f => Hash.of_float f
  | KStr s => str_hash s
  end.

Definition pykey_eq (a b : pykey) : bool :=
  match a, b with
  | KInt x, KInt y => x =? y
  | KInt x, KFloat f | KFloat f, KInt x =>
      match Py.float_cmp_int f x with Some Eq => true | _ => false end
  | KFloat f, KFloat g => SFeqb f g
  | KStr s, KStr t => String.eqb s t
  | _, _ => false
  end.

Definition pykey_same_type (a b : pykey) : bool :=
  match a, b with
  | KInt _, KInt _ | KFloat _, KFloat _ | KStr _, KStr _ => true
  | _, _ => false
  end.

#[local] Instance pykey_PyKey : PyKey pykey :=
  {| py_hash := pykey_hash; py_eq := pykey_eq; py_same_type := pykey_same_type |}.

(** [2 / 3], the default [load_factor]. *)
Definition default_load_factor : Py.float := S754_finite false 6004799503160661 (-53).

(** [Dictionary()]. *)
Definition empty_default (fuel : nat) : result (Dictionary pykey string) :=
  __init__ fuel 8 default_load_factor [].

(** [10.0]. *)
Definition ten_float : Py.float := S754_finite false 5629499534213120 (-49).

(** What [f] sees after the statements [ops] ran on [Dictionary()]. *)
Definition observe {A : Type} (fuel : nat) (ops : list (op pykey string))
    (f : Dictionary pykey string -> A) : result A :=
  let+ d0 := empty_default fuel in
  let+ d := script fuel ops d0 in
  Ok (f d).

(** [0.75], the load factor of [test_load_factor_edge_changes]. *)
Definition three_quarters : Py.float := S754_finite false 6755399441055744 (-53).

End Concrete.

(** ** The scripts of src/tests.py *)

Section TestScripts.

(** [f"key{i}"] and [f"value{i}"]. *)
Definition decimal (i : nat) : string := NilEmpty.string_of_uint (Nat.to_uint i).
Definition key_name (i : nat) : string := "key" +:+ decimal i.
Definition value_name (i : nat) : string := "value" +:+ decimal i.

(** The pairs [(f"key{i}", f"value{i}")] for [i] in [range(from, from + n)]. *)
Definition test_items (from n : nat) : list (pykey * string) :=
  (fun i => (KStr (key_name i), value_name i)) <$> seq from n.

Definition test_keys (from n : nat) : list pykey :=
  (fun i => KStr (key_name i)) <$> seq from n.

(** [for i in range(from, from + n): dictionary[f"key{i}"] = f"value{i}"]. *)
Definition insert_range (from n : nat) : list (op pykey string) :=
  (fun kv => SetItem kv.1 kv.2) <$> test_items from n.

(** [for i in range(from, from + n): del dictionary[f"key{i}"]]. *)
Definition delete_range (from n : nat) : list (op pykey string) :=
  DelItem <$> test_keys from n.

End TestScripts.

(** ** Scripts that show the defects *)

Section DefectScripts.

(** [d[10] = "value1"; d[10.0] = "value2"] and four more assignments, the
    last of which makes the table grow. *)
Definition mixed_keys_script : list (op pykey string) :=
  [ SetItem (KInt 10) "value1"; SetItem (KFloat ten_float) "value2";
    SetItem (KInt 1) "a"; SetItem (KInt 4) "b"; SetItem (KInt 5) "c";
    SetItem (KInt 6) "d" ].

(** The same, followed by [d[10.0] = "value3"]. *)
Definition overwrite_script : list (op pykey string) :=
  mixed_keys_script ++ [ SetItem (KFloat ten_float) "value3" ].

(** [d[1] = "value1"; d[1] = "new_value1"]. *)
Definition update_script : list (op pykey string) :=
  [ SetItem (KInt 1) "value1"; SetItem (KInt 1) "new_value1" ].

(** [d[1] = "value1"; del d[1]]. *)
Definition insert_delete_script : list (op pykey string) :=
  [ SetItem (KInt 1) "value1"; DelItem (KInt 1) ].

(** A table with no bucket left. *)
Definition drained : Dictionary pykey string :=
  {| load_factor := default_load_factor; size := 0; capacity := 0; buckets := [] |}.

End DefectScripts.

(** ** Closed examples *)

Section Examples.

(** A hash of strings for the examples (the real one is seeded per
    process). *)
Definition demo_hash (s : string) : Z := Z.of_nat (String.length s).

Definition demo_keys : PyKey pykey := pykey_PyKey demo_hash.

(** [Dictionary()] after [d[10] = "value1"; d[10.0] = "value2"; d[1] = "a";
    d[4] = "b"; d[5] = "c"]. *)
Definition demo_table : Dictionary pykey string :=
  {| load_factor := default_load_factor; size := 5; capacity := 8;
     buckets := [ []; [(KInt 1, "a", 1)]; [(KInt 10, "value1", 10)];
                  [(KFloat ten_float, "value2", 10)]; [(KInt 4, "b", 4)];
                  [(KInt 5, "c", 5)]; []; [] ]%string |}.

(** The same table when [d[6] = "d"] has incremented the size. *)
Definition demo_table_grown : Dictionary pykey string :=
  {| load_factor := default_load_factor; size := 6; capacity := 8;
     buckets := buckets demo_table |}.

(** [Dictionary(key1="value1", key2="value2", key3="value3")]. *)
Definition demo_kwargs : list (pykey * string) :=
  [ (KStr "key1", "value1"); (KStr "key2", "value2"); (KStr "key3", "value3") ]%string.

(** String keys alone: [==] is identity on them, whatever the hash. *)
Definition str_keys (h : string -> Z) : PyKey string :=
  {| py_hash := h; py_eq := String.eqb; py_same_type := fun _ _ => true |}.

(** [d["key1"] = "value1"; d["key2"] = "value2"; d["key1"] = "new_value1";
    d["key1"]]. *)
Definition demo_update_script : list (op string string) :=
  [ SetItem "key1" "value1"; SetItem "key2" "value2";
    SetItem "key1" "new_value1"; GetItem "key1" ]%string.

Definition demo_empty : Dictionary string string :=
  {| load_factor := default_load_factor; size := 0; capacity := 8;
     buckets := replicate 8 [] |}.

(** [d[10.0] = "value3"; del d[4]; 5 in d; d[1] = "z"] on [demo_table]. *)
Definition demo_mixed_script : list (op pykey string) :=
  [ SetItem (KFloat ten_float) "value3"; DelItem (KInt 4); Contains (KInt 5);
    SetItem (KInt 1) "z" ]%string.

(** The table that script leaves. *)
Definition demo_table_updated : Dictionary pykey string :=
  Eval vm_compute in
    match script (H := demo_keys) 64 demo_mixed_script demo_table with
    | Ok d => d
    | _ => demo_table
    end.

(** The table [demo_update_script] leaves when run on [demo_empty]. *)
Definition demo_str_updated : Dictionary string string :=
  Eval vm_compute in
    match script (H := str_keys demo_hash) 64 demo_update_script demo_empty with
    | Ok d => d
    | _ => demo_empty
    end.

(** A table with a load factor of 2.0, both of whose buckets are
    occupied. *)
Definition demo_full : Dictionary pykey string :=
  {| load_factor := Py.two; size := 2; capacity := 2;
     buckets := [ [(KInt 2, "a", 2)]; [(KInt 1, "b", 1)] ]%string |}.

End Examples.

(** * Properties *)

Section Basics.

Context {K V : Type} `{PyKey K}.

Implicit Types (d : Dictionary K V) (b : bucket K V) (bs : list (bucket K V)).
Implicit Types (key : K) (e : entry K V).

(** ** Python list accesses inside the bounds *)

Lemma getitem_in_range {A : Type} (l : list A) (i : Z) :
  0 <= i < Z.of_nat (length l) ->
  exists x, l !! Z.to_nat i = Some x /\ Py.getitem l i = Ok x.
Proof.
  intros Hi. unfold Py.getitem.
  destruct (Z.ltb_spec i 0); [lia|].
  destruct (Z.leb_spec 0 i); [|lia].
  destruct (Z.ltb_spec i (Z.of_nat (length l))); [|lia]. simpl.
  destruct (lookup_lt_is_Some_2 l (Z.to_nat i)) as [x Hx]; [lia|].
  exists x. by rewrite Hx.
Qed.

Lemma getitem_lookup {A : Type} (l : list A) (i : Z) (x : A) :
  0 <= i -> l !! Z.to_nat i = Some x -> Py.getitem l i = Ok x.
Proof.
  intros Hi Hx. pose proof (lookup_lt_Some _ _ _ Hx).
  destruct (getitem_in_range l i) as (y & Hy & ->); [lia|]. congruence.
Qed.

Lemma setitem_in_range {A : Type} (l : list A) (i : Z) (x : A) :
  0 <= i < Z.of_nat (length l) ->
  Py.setitem l i x = Ok (<[Z.to_nat i := x]> l).
Proof.
  intros Hi. unfold Py.setitem.
  destruct (Z.ltb_spec i 0); [lia|].
  destruct (Z.leb_spec 0 i); [|lia].
  by destruct (Z.ltb_spec i (Z.of_nat (length l))); [|lia].
Qed.

Lemma mod_pos (a c : Z) : 0 < c -> Py.mod_ a c = Ok (a mod c).
Proof. intros. unfold Py.mod_. by destruct (Z.eqb_spec c 0); [lia|]. Qed.

(** ** Well-formed tables *)

Lemma getitem_bucket_at bs (i : Z) :
  0 <= i < Z.of_nat (length bs) -> Py.getitem bs i = Ok (bucket_at bs i).
Proof.
  intros Hi. destruct (getitem_in_range bs i Hi) as (x & Hx & ->).
  unfold bucket_at. by rewrite Hx.
Qed.

(** ** Rehashing *)

Lemma rehomed_snoc c es e i :
  rehomed c (es ++ [e]) i =
  if decide (home c (entry_key e) = i)
  then rehomed c es i ++ [refresh e] else rehomed c es i.
Proof.
  unfold rehomed. rewrite filter_app, fmap_app.
  rewrite filter_cons, filter_nil.
  case_decide; simpl; [done|]. by rewrite app_nil_r.
Qed.

Lemma rehash_fold (c : Z) (es : list (entry K V)) :
  0 < c ->
  exists arr,
    fold_left (rehash_entry c) es (Ok (Py.fresh [] c)) = Ok arr /\
    length arr = Z.to_nat c /\
    forall i, 0 <= i < c -> arr !! Z.to_nat i = Some (rehomed c es i).
Proof.
  intros Hc. induction es as [|e es IH] using rev_ind.
  - exists (Py.fresh [] c). simpl. split; [done|]. unfold Py.fresh.
    split; [by rewrite length_replicate|].
    intros i Hi. by rewrite lookup_replicate_2 by lia.
  - destruct IH as (arr & Hfold & Hlen & Harr).
    rewrite fold_left_app, Hfold. simpl. unfold rehash_entry. simpl.
    rewrite mod_pos by done. simpl.
    pose proof (Z.mod_pos_bound (py_hash (entry_key e)) c Hc) as Hb.
    fold (home c (entry_key e)) in *.
    rewrite (getitem_lookup arr _ (rehomed c es (home c (entry_key e))));
      [|lia|apply Harr; lia].
    simpl. rewrite setitem_in_range by lia.
    eexists. split; [done|]. split; [by rewrite length_insert|].
    intros i Hi. rewrite rehomed_snoc. case_decide as Hd.
    + subst i. rewrite list_lookup_insert_eq by lia. done.
    + rewrite list_lookup_insert_ne by lia. by apply Harr.
Qed.

Lemma rehash_spec bs (c : Z) :
  0 < c ->
  exists arr,
    rehash bs c = Ok arr /\
    length arr = Z.to_nat c /\
    forall i, 0 <= i < c -> arr !! Z.to_nat i = Some (rehomed c (concat bs) i).
Proof. intros Hc. by apply rehash_fold. Qed.

(** Appending to one bucket appends to the multiset of entries. *)
Lemma concat_insert_app bs (i : nat) b e :
  bs !! i = Some b ->
  concat (<[i := b ++ [e]]> bs) ≡ₚ concat bs ++ [e].
Proof.
  intros Hb. pose proof (lookup_lt_Some _ _ _ Hb) as Hlt.
  rewrite insert_take_drop by done.
  rewrite <- (take_drop_middle bs i b Hb) at 3.
  rewrite !concat_app. simpl.
  rewrite <- !(assoc_L (++)). apply Permutation_app_head.
  apply Permutation_app_head. apply Permutation_app_comm.
Qed.

Lemma rehash_fold_perm (c : Z) (es : list (entry K V)) arr :
  fold_left (rehash_entry c) es (Ok (Py.fresh [] c)) = Ok arr ->
  concat arr ≡ₚ refresh <$> es.
Proof.
  revert arr. induction es as [|e es IH] using rev_ind; intros arr.
  - simpl. intros [= <-]. unfold Py.fresh.
    induction (Z.to_nat c); simpl; auto.
  - rewrite fold_left_app. simpl.
    destruct (fold_left (rehash_entry c) es (Ok (Py.fresh [] c))) as [arr0| |] eqn:E;
      simpl; try done.
    unfold rehash_entry. simpl.
    destruct (Py.mod_ _ _) as [j| |]; simpl; try done.
    unfold Py.getitem, Py.setitem.
    destruct (_ && _); [|done].
    destruct (arr0 !! _) as [b|] eqn:Eb; simpl; [|done].
    intros [= <-]. rewrite concat_insert_app by done.
    rewrite fmap_app. simpl. apply Permutation_app_tail. by apply IH.
Qed.

(** ** Probing *)

Lemma stopb_spec key b : stopb key b = true <-> bucket_stops key b.
Proof.
  unfold stopb, bucket_stops. destruct b as [|e0 b]; [by intuition|].
  rewrite existsb_exists. split.
  - intros (e & Hin & Hm). right. exists e. apply list_elem_of_In in Hin.
    unfold key_matches in Hm. apply andb_true_iff in Hm. tauto.
  - intros [|(e & Hin & He1 & He2)]; [done|]. exists e.
    split; [by apply list_elem_of_In|]. unfold key_matches. by rewrite He1, He2.
Qed.

Lemma probe_unfold fuel d key init idx b :
  probe (S fuel) d key init idx b =
  if stopb key b then Ok idx
  else
    let+ next := Py.mod_ (idx + 1) (capacity d) in
    let+ b' := Py.getitem (buckets d) next in
    if next =? init then Raise KeyError else probe fuel d key init next b'.
Proof.
  simpl. destruct b as [|e0 b]; [done|]. simpl.
  by destruct (key_matches key e0 || existsb (key_matches key) b).
Qed.

Lemma offset_mod (c init o : Z) :
  0 <= init < c -> 0 <= o < c ->
  (init + o) mod c = if init + o <? c then init + o else init + o - c.
Proof.
  intros Hi Ho. destruct (Z.ltb_spec (init + o) c).
  - apply Z.mod_small. lia.
  - symmetry. apply (Z.mod_unique_pos _ _ 1); lia.
Qed.

Lemma offset_mod_succ (c init o : Z) :
  0 < c -> ((init + o) mod c + 1) mod c = (init + (o + 1)) mod c.
Proof.
  intros Hc. rewrite Z.add_mod_idemp_l by lia. f_equal. lia.
Qed.

Section Probe.

Variables (d : Dictionary K V) (key : K) (init : Z).
Hypothesis Hwf : wf d.
Hypothesis Hinit : 0 <= init < capacity d.

Local Abbreviation at_offset := (at_offset d init).
Local Abbreviation stops_at := (stops_at d key init).

Lemma at_offset_range o : 0 <= at_offset o < capacity d.
Proof. apply Z.mod_pos_bound. apply Hwf. Qed.

Lemma at_offset_0 : at_offset 0 = init.
Proof. unfold at_offset. rewrite Z.add_0_r. apply Z.mod_small, Hinit. Qed.

Lemma at_offset_inj o1 o2 :
  0 <= o1 < capacity d -> 0 <= o2 < capacity d ->
  at_offset o1 = at_offset o2 -> o1 = o2.
Proof.
  unfold at_offset. intros H1 H2. rewrite !offset_mod by lia.
  destruct (Z.ltb_spec (init + o1) (capacity d)),
           (Z.ltb_spec (init + o2) (capacity d)); lia.
Qed.

Lemma probe_advance fuel o :
  0 <= o -> o + 1 < capacity d -> stops_at o = false ->
  probe (S fuel) d key init (at_offset o) (bucket_at (buckets d) (at_offset o)) =
  probe fuel d key init (at_offset (o + 1))
    (bucket_at (buckets d) (at_offset (o + 1))).
Proof.
  intros Ho Ho1 Hs. destruct Hwf as [Hc Hlen].
  rewrite probe_unfold. unfold stops_at in Hs. rewrite Hs.
  rewrite mod_pos by done. simpl.
  unfold at_offset at 1 2 3. rewrite offset_mod_succ by done.
  fold (at_offset (o + 1)).
  pose proof (at_offset_range (o + 1)).
  rewrite getitem_bucket_at by lia. simpl.
  destruct (Z.eqb_spec (at_offset (o + 1)) init) as [E|]; [|done].
  exfalso. assert (o + 1 = 0); [|lia].
apply at_offset_inj; try lia. by rewrite at_offset_0.
Qed.

Lemma probe_hit (k : nat) : forall (o : Z) (fuel : nat),
  0 <= o -> o + Z.of_nat k < capacity d -> (k < fuel)%nat ->
  (forall i, o <= i < o + Z.of_nat k -> stops_at i = false) ->
  stops_at (o + Z.of_nat k) = true ->
  probe fuel d key init (at_offset o) (bucket_at (buckets d) (at_offset o)) =
  Ok (at_offset (o + Z.of_nat k)).
Proof.
  induction k as [|k IH]; intros o fuel Ho Hk Hf Hno Hstop.
  - destruct fuel as [|fuel]; [lia|]. rewrite probe_unfold.
    rewrite Z.add_0_r in Hstop |- *. unfold stops_at in Hstop. by rewrite Hstop.
  - destruct fuel as [|fuel]; [lia|].
    rewrite probe_advance by (try apply Hno; lia).
    replace (o + Z.of_nat (S k)) with ((o + 1) + Z.of_nat k) in * by lia.
    apply IH; try lia; [|done]. intros i Hi. apply Hno. lia.
Qed.

Lemma probe_wrap (k : nat) : forall (o : Z),
  0 <= o -> o + Z.of_nat (S k) = capacity d ->
  (forall i, o <= i < capacity d -> stops_at i = false) ->
  probe (S k) d key init (at_offset o) (bucket_at (buckets d) (at_offset o)) =
  Raise KeyError.
Proof.
  induction k as [|k IH]; intros o Ho Hk Hno.
  - destruct Hwf as [Hc Hlen]. rewrite probe_unfold.
    pose proof (Hno o ltac:(lia)) as Hs. unfold stops_at in Hs. rewrite Hs.
    rewrite mod_pos by done. simpl.
    unfold at_offset. rewrite offset_mod_succ by done.
    replace (init + (o + 1)) with (init + 1 * capacity d) by lia.
    rewrite Z.mod_add by lia. rewrite (Z.mod_small init) by lia.
    rewrite getitem_bucket_at by lia. simpl. by rewrite Z.eqb_refl.
  - rewrite probe_advance by (try apply Hno; lia).
    apply IH; try lia. intros i Hi. apply Hno. lia.
Qed.

(** Either no bucket stops the loop, or there is a first one. *)
Lemma first_stop (n : nat) :
  (forall i, 0 <= i < Z.of_nat n -> stops_at i = false) \/
  (exists k : nat, (k < n)%nat /\ stops_at (Z.of_nat k) = true /\
                   forall i, 0 <= i < Z.of_nat k -> stops_at i = false).
Proof.
  induction n as [|n [IH|(k & Hk & Hs & Hno)]].
  - left. intros i Hi. lia.
  - destruct (stops_at (Z.of_nat n)) eqn:E.
    + right. exists n. split; [lia|]. split; [done|]. apply IH.
    + left. intros i Hi. destruct (decide (i = Z.of_nat n)) as [->|]; [done|].
      apply IH. lia.
  - right. exists k. split; [lia|]. done.
Qed.

End Probe.

Lemma get_bucket_index_unfold d key :
  wf d ->
  _get_bucket_index d key =
  probe (Z.to_nat (capacity d)) d key (home (capacity d) key)
    (at_offset d (home (capacity d) key) 0)
    (bucket_at (buckets d) (at_offset d (home (capacity d) key) 0)).
Proof.
  intros [Hc Hlen]. unfold _get_bucket_index.
  pose proof (Z.mod_pos_bound (py_hash key) (capacity d) Hc) as Hb.
  rewrite mod_pos by done. simpl. fold (home (capacity d) key).
  rewrite getitem_bucket_at by (unfold home; lia). simpl.
  rewrite at_offset_0 by done. by rewrite Zabs2Nat.abs_nat_nonneg by lia.
Qed.

(** The two ways [_get_bucket_index] ends on a well-formed table. *)
Lemma get_bucket_index_cases d key :
  wf d ->
  let init := home (capacity d) key in
  (_get_bucket_index d key = Raise KeyError /\
   forall i, 0 <= i < capacity d -> stops_at d key init i = false) \/
  (exists k : nat,
     Z.of_nat k < capacity d /\
     _get_bucket_index d key = Ok (at_offset d init (Z.of_nat k)) /\
     stops_at d key init (Z.of_nat k) = true /\
     forall i, 0 <= i < Z.of_nat k -> stops_at d key init i = false).
Proof.
  intros Hwf init. pose proof Hwf as [Hc Hlen].
  assert (Hinit : 0 <= init < capacity d) by (apply Z.mod_pos_bound; lia).
  rewrite get_bucket_index_unfold by done. fold init.
  destruct (first_stop d key init (Z.to_nat (capacity d))) as [Hno|(k & Hk & Hs & Hno)].
  - left. split.
    + destruct (Z.to_nat (capacity d)) as [|n] eqn:E; [lia|].
      apply probe_wrap; try done; try lia. intros i Hi. apply Hno. lia.
    + intros i Hi. apply Hno. lia.
  - right. exists k. split; [lia|]. split; [|done].
    apply (probe_hit d key init Hwf Hinit k 0); try done; try lia.
Qed.

End Basics.

Section Resize.

Context {K V : Type} `{PyKey K}.

Implicit Types (d : Dictionary K V) (key : K) (e : entry K V).

Lemma rehash_perm (bs : list (bucket K V)) (c : Z) arr :
  rehash bs c = Ok arr -> concat arr ≡ₚ refresh <$> concat bs.
Proof. apply rehash_fold_perm. Qed.

Lemma iter_refresh (es : list (entry K V)) :
  map (fun e => (entry_key e, entry_value e)) (refresh <$> es) =
  map (fun e => (entry_key e, entry_value e)) es.
Proof.
  induction es as [|e es IH]; [done|]. rewrite fmap_cons. simpl. by f_equal.
Qed.

Lemma resize_ok fuel smaller d (c : Z) :
  searched_capacity fuel smaller d = Ok c -> 0 < c ->
  exists arr,
    rehash (buckets d) c = Ok arr /\
    _resize fuel smaller d =
      (Ok tt, {| load_factor := load_factor d; size := size d;
                 capacity := c; buckets := arr |}).
Proof.
  intros Hs Hc. destruct (rehash_spec (buckets d) c Hc) as (arr & Hr & _).
  exists arr. split; [done|].
  unfold _resize, bindM, read, searched_capacity in *. rewrite Hs, Hr. done.
Qed.

(** C7. For every table and every positive new capacity, the rehash of
    [_resize] allocates that many buckets; bucket [i] of the new array holds
    exactly the old entries whose recomputed [hash(key) % new_capacity] is
    [i], in the order in which the old buckets list them and with the hash
    recomputed, not copied; the (key, value) pairs are the same multiset;
    and [_resize], whenever its search returns that capacity, installs this
    array and the capacity and leaves size and load factor untouched. *)
Theorem resize_rehashes_in_order d (new_capacity : Z) :
  0 < new_capacity ->
  exists new_buckets,
    rehash (buckets d) new_capacity = Ok new_buckets /\
    Z.of_nat (length new_buckets) = new_capacity /\
    (forall i, 0 <= i < new_capacity ->
       new_buckets !! Z.to_nat i =
       Some (map (fun e => (entry_key e, entry_value e, py_hash (entry_key e)))
               (filter (fun e => py_hash (entry_key e) mod new_capacity = i)
                  (concat (buckets d))))) /\
    map (fun e => (entry_key e, entry_value e)) (concat new_buckets) ≡ₚ __iter__ d /\
    forall fuel smaller,
      searched_capacity fuel smaller d = Ok new_capacity ->
      _resize fuel smaller d =
        (Ok tt, {| load_factor := load_factor d; size := size d;
                   capacity := new_capacity; buckets := new_buckets |}).
Proof.
  intros Hc.
  destruct (rehash_spec (buckets d) new_capacity Hc) as (arr & Hr & Hlen & Harr).
  exists arr. split; [done|]. split; [lia|]. split; [done|]. split.
  - unfold __iter__. rewrite (rehash_perm _ _ _ Hr), iter_refresh. done.
  - intros fuel smaller Hs.
    destruct (resize_ok fuel smaller d new_capacity Hs Hc) as (arr' & Hr' & ->).
    by assert (arr' = arr) as -> by congruence.
Qed.

End Resize.

Section Probing.

Context {K V : Type} `{PyKey K}.

Implicit Types (d : Dictionary K V) (key : K) (e : entry K V).

Lemma stopb_false key (b : bucket K V) : stopb key b = false <-> ~ bucket_stops key b.
Proof.
  rewrite <- stopb_spec. by destruct (stopb key b).
Qed.

(** Every bucket index is at some distance from the initial one. *)
Lemma at_offset_surj d (init i : Z) :
  0 < capacity d -> 0 <= init < capacity d -> 0 <= i < capacity d ->
  exists o, 0 <= o < capacity d /\ at_offset d init o = i.
Proof.
  intros Hc Hinit Hi. exists ((i - init) mod capacity d).
  split; [by apply Z.mod_pos_bound|]. unfold at_offset.
  rewrite Z.add_mod_idemp_r by lia.
  replace (init + (i - init)) with i by lia. apply Z.mod_small. lia.
Qed.

(** C10. On a table with at least one bucket, the loop of
    [_get_bucket_index] tests its condition at most [capacity] times and
    then ends: either it raises [KeyError], having found every bucket
    occupied without a same-type equal key, or it returns the first bucket
    on the way from [hash(key) % capacity] that is empty or holds a
    same-type equal key. *)
Theorem get_bucket_index_terminates d key :
  1 <= capacity d ->
  Z.of_nat (length (buckets d)) = capacity d ->
  let c := capacity d in
  let init := py_hash key mod c in
  exists (n : nat) (r : result Z),
    (1 <= n <= Z.to_nat c)%nat /\
    probe n d key init init (bucket_at (buckets d) init) = r /\
    _get_bucket_index d key = r /\
    ((r = Raise KeyError /\ n = Z.to_nat c /\
      forall i, 0 <= i < c -> ~ bucket_stops key (bucket_at (buckets d) i)) \/
     (exists o,
        0 <= o < c /\ Z.of_nat n = o + 1 /\
        r = Ok ((init + o) mod c) /\
        bucket_stops key (bucket_at (buckets d) ((init + o) mod c)) /\
        forall i, 0 <= i < o ->
          ~ bucket_stops key (bucket_at (buckets d) ((init + i) mod c)))).
Proof.
  intros Hc Hlen c init. subst c init.
  change (py_hash key mod capacity d) with (home (capacity d) key).
  assert (Hwf : wf d) by (split; [lia|done]).
  assert (Hinit : 0 <= home (capacity d) key < capacity d)
    by (apply Z.mod_pos_bound; lia).
  pose proof (at_offset_0 d _ Hinit) as H0.
  destruct (get_bucket_index_cases d key Hwf) as [[Hr Hno]|(k & Hk & Hr & Hs & Hno)].
  - exists (Z.to_nat (capacity d)), (Raise KeyError).
    split; [lia|]. split; [|split; [done|]].
    + rewrite <- Hr, get_bucket_index_unfold by done. by rewrite H0.
    + left. split; [done|]. split; [done|]. intros i Hi.
      destruct (at_offset_surj d _ i ltac:(lia) Hinit Hi) as (o & Ho & <-).
      apply stopb_false. apply Hno. done.
  - exists (S k), (Ok (at_offset d (home (capacity d) key) (Z.of_nat k))).
    split; [lia|]. split; [|split; [done|]].
    + rewrite <- H0 at 2 3.
      apply (probe_hit d key _ Hwf Hinit k 0); try done; lia.
    + right. exists (Z.of_nat k). split; [lia|]. split; [lia|].
      split; [done|]. split.
      * apply stopb_spec. apply Hs.
      * intros i Hi. apply stopb_false. by apply Hno.
Qed.

End Probing.

Section Store.

Context {K V : Type} `{PyKey K}.

Implicit Types (d : Dictionary K V) (b : bucket K V) (bs : list (bucket K V)).
Implicit Types (key : K) (e : entry K V).

Lemma store_spec d key (value : V) (j : Z) :
  _get_bucket_index d key = Ok j ->
  0 <= j < Z.of_nat (length (buckets d)) ->
  store key value d =
    (Ok (bool_decide (is_Some (find_key key (bucket_at (buckets d) j)))),
     with_buckets d (<[Z.to_nat j := place key value (bucket_at (buckets d) j)]> (buckets d))).
Proof.
  intros Hj Hr. unfold store, bindM, read. rewrite Hj.
  rewrite getitem_bucket_at by done. unfold place.
  destruct (find_key key (bucket_at (buckets d) j)) as [i|] eqn:E;
    rewrite setitem_in_range by done; simpl; done.
Qed.

End Store.

Section Updates.

Context {K V : Type} `{PyKey K}.

Implicit Types (d : Dictionary K V) (b : bucket K V) (bs : list (bucket K V)).
Implicit Types (key : K) (e : entry K V).

Lemma capacity_recalculation_none fuel d :
  grow_check fuel (load_factor d) (size d) (capacity d) = Ok None ->
  _capacity_recalculation fuel false d = (Ok tt, d).
Proof.
  unfold grow_check, _capacity_recalculation, bindM, read. intros Hg.
  destruct (Py.int_truediv (size d) (capacity d)) as [ratio| |]; simpl in *; try done.
  destruct (Py.float_ge ratio (load_factor d)); [|done].
  by destruct (define_potential_capacity_increase _ _ _ _).
Qed.

Lemma capacity_recalculation_some fuel d (c : Z) :
  grow_check fuel (load_factor d) (size d) (capacity d) = Ok (Some c) ->
  0 < c ->
  exists arr,
    rehash (buckets d) c = Ok arr /\
    _capacity_recalculation fuel false d =
      (Ok tt, {| load_factor := load_factor d; size := size d;
                 capacity := c; buckets := arr |}).
Proof.
  unfold grow_check, _capacity_recalculation, bindM, read. intros Hg Hc.
  destruct (Py.int_truediv (size d) (capacity d)) as [ratio| |]; simpl in *; try done.
  destruct (Py.float_ge ratio (load_factor d)); [|done].
  destruct (define_potential_capacity_increase _ _ _ _) as [c'| |] eqn:E;
    simpl in Hg; try done.
  injection Hg as ->. by apply (resize_ok fuel false d c).
Qed.

(** As many entries as buckets when no bucket is empty. *)
Lemma nonempty_buckets_length bs :
  (forall b, b ∈ bs -> b <> []) -> (length bs <= length (concat bs))%nat.
Proof.
  induction bs as [|b bs IH]; intros Hne; simpl; [lia|].
  rewrite length_app.
  assert (b <> []) by (apply Hne; left).
  assert (length bs <= length (concat bs))%nat
    by (apply IH; intros b' Hb'; apply Hne; by right).
  destruct b; [done|]. simpl. lia.
Qed.

Lemma entry_key_refresh e : entry_key (refresh e) = entry_key e.
Proof. done. Qed.

Lemma keys_rehash bs (c : Z) arr :
  rehash bs c = Ok arr ->
  entry_key <$> concat arr ≡ₚ entry_key <$> concat bs.
Proof.
  intros Hr. rewrite (rehash_perm _ _ _ Hr). rewrite <- list_fmap_compose.
  done.
Qed.

Lemma rehash_at_home bs (c : Z) arr e :
  0 < c -> rehash bs c = Ok arr -> e ∈ concat bs ->
  refresh e ∈ bucket_at arr (home c (entry_key e)).
Proof.
  intros Hc Hr He. destruct (rehash_spec bs c Hc) as (arr' & Hr' & _ & Harr).
  assert (arr' = arr) as -> by congruence.
  unfold bucket_at. rewrite Harr by (apply Z.mod_pos_bound; lia). simpl.
  unfold rehomed. apply list_elem_of_fmap_2. by apply list_elem_of_filter.
Qed.

Lemma bucket_at_lookup bs (i : Z) :
  0 <= i < Z.of_nat (length bs) -> bs !! Z.to_nat i = Some (bucket_at bs i).
Proof.
  intros Hi. unfold bucket_at.
  destruct (lookup_lt_is_Some_2 bs (Z.to_nat i)) as [b Hb]; [lia|]. by rewrite Hb.
Qed.

Lemma elem_of_bucket_at_concat bs (i : Z) e :
  e ∈ bucket_at bs i -> e ∈ concat bs.
Proof.
  unfold bucket_at. destruct (bs !! Z.to_nat i) as [b|] eqn:E; simpl.
  - intros He. apply list_elem_of_In, in_concat. exists b.
    split; apply list_elem_of_In; [|done]. by eapply list_elem_of_lookup_2.
  - intros He. by apply elem_of_nil in He.
Qed.

Lemma bucket_at_insert bs (i j : Z) b :
  0 <= i -> 0 <= j < Z.of_nat (length bs) ->
  bucket_at (<[Z.to_nat j := b]> bs) i = if decide (i = j) then b else bucket_at bs i.
Proof.
  intros Hi Hj. unfold bucket_at. case_decide as E.
  - subst. by rewrite list_lookup_insert_eq by lia.
  - by rewrite list_lookup_insert_ne by lia.
Qed.

(** A key that is not stored is led to an empty bucket as long as one is
    left. *)
Lemma store_fresh d key (value : V) :
  wf d -> absent key d -> entry_count d < capacity d ->
  exists j,
    0 <= j < capacity d /\ bucket_at (buckets d) j = [] /\
    _get_bucket_index d key = Ok j /\
    store key value d =
      (Ok false, with_buckets d (<[Z.to_nat j := [(key, value, py_hash key)]]> (buckets d))).
Proof.
  intros Hwf Habs Hroom. pose proof Hwf as [Hc Hlen].
  assert (Hinit : 0 <= home (capacity d) key < capacity d)
    by (apply Z.mod_pos_bound; lia).
  destruct (get_bucket_index_cases d key Hwf) as [[_ Hno]|(k & Hk & Hr & Hs & _)].
  - exfalso. unfold entry_count in Hroom.
    assert (length (buckets d) <= length (concat (buckets d)))%nat; [|lia].
    apply nonempty_buckets_length. intros b Hb ->.
    apply list_elem_of_lookup_1 in Hb as [i Hi].
    pose proof (lookup_lt_Some _ _ _ Hi) as Hlt.
    destruct (at_offset_surj d _ (Z.of_nat i) Hc Hinit ltac:(lia)) as (o & Ho & Hoi).
    specialize (Hno o Ho). unfold stops_at, bucket_at in Hno.
    rewrite Hoi, Nat2Z.id, Hi in Hno. done.
  - set (j := at_offset d (home (capacity d) key) (Z.of_nat k)) in *.
    assert (Hj : 0 <= j < capacity d) by (by apply at_offset_range).
    assert (Hempty : bucket_at (buckets d) j = []).
    { apply stopb_spec in Hs as [Hs|(e & He & Heq & _)]; [done|]. exfalso.
      assert (py_eq (entry_key e) key = false); [|congruence].
      apply Habs. unfold keys_of. apply list_elem_of_fmap_2.
      by eapply elem_of_bucket_at_concat. }
    exists j. split; [done|]. split; [done|]. split; [done|].
    rewrite (store_spec d key value j Hr) by lia.
    rewrite Hempty. done.
Qed.

Lemma at_home_insert_empty d key (j : Z) b :
  wf d -> 0 <= j < capacity d -> bucket_at (buckets d) j = [] ->
  at_home d key ->
  at_home (with_buckets d (<[Z.to_nat j := b]> (buckets d))) key.
Proof.
  intros [Hc Hlen] Hj Hempty (e & He & Hk). exists e. split; [|done]. simpl.
  pose proof (Z.mod_pos_bound (py_hash key) (capacity d) Hc).
  rewrite bucket_at_insert by (unfold home; lia).
  case_decide as E; [|done]. rewrite E, Hempty in He. by apply elem_of_nil in He.
Qed.

(** [d[key] = value] for a key that is not stored. *)
Lemma setitem_fresh fuel d key (value : V) (s c : Z) (r : bool) :
  wf d -> entry_count d <= size d -> absent key d ->
  shape_set fuel (load_factor d) (size d) (capacity d) = Some (s, c, r) ->
  exists d',
    __setitem__ fuel key value d = (Ok tt, d') /\
    size d' = s /\ capacity d' = c /\ load_factor d' = load_factor d /\
    wf d' /\ entry_count d' <= size d' /\
    keys_of d' ≡ₚ keys_of d ++ [key] /\
    (forall k, at_home d k \/ (r = true /\ k ∈ keys_of d) -> at_home d' k).
Proof.
  intros Hwf Hcount Habs Hshape. pose proof Hwf as [Hc Hlen].
  unfold shape_set in Hshape.
  assert (exists d1,
    _capacity_recalculation fuel false (with_size d (size d + 1)) = (Ok tt, d1) /\
    size d1 = s /\ capacity d1 = c /\ load_factor d1 = load_factor d /\
    wf d1 /\ s = size d + 1 /\ size d < c /\
    keys_of d1 ≡ₚ keys_of d /\
    (forall k, at_home d k \/ (r = true /\ k ∈ keys_of d) -> at_home d1 k))
    as (d1 & Hre & Hs1 & Hc1 & Hlf1 & Hwf1 & Hs & Hroom & Hkeys1 & Hhome1).
  { destruct (grow_check _ _ _ _) as [[c'|]| |] eqn:Hg; try done.
    - destruct (Z.ltb_spec 0 c'); [|done]. destruct (Z.ltb_spec (size d) c'); [|done].
      simpl in Hshape. injection Hshape as <- <- <-.
      destruct (capacity_recalculation_some fuel (with_size d (size d + 1)) c' Hg)
        as (arr & Hr & ->); [done|].
      simpl in Hr. destruct (rehash_spec (buckets d) c') as (arr' & Hr' & Hlen' & _); [done|].
      assert (arr' = arr) as -> by congruence.
      eexists. split; [done|]. simpl.
      split; [done|]. split; [done|]. split; [done|].
      split; [split; [done|simpl; lia]|]. split; [done|]. split; [lia|]. split.
      + unfold keys_of. simpl. by eapply keys_rehash.
      + intros k [(e & He & Hk)|[_ Hk]].
        * apply elem_of_bucket_at_concat in He.
          exists (refresh e). split; [|done]. simpl. subst k.
          by eapply rehash_at_home.
        * unfold keys_of in Hk. apply list_elem_of_fmap in Hk as (e & -> & He).
          exists (refresh e). split; [|done]. simpl. by eapply rehash_at_home.
    - destruct (Z.ltb_spec 0 (capacity d)); [|done].
      destruct (Z.ltb_spec (size d) (capacity d)); [|done].
      simpl in Hshape. injection Hshape as <- <- <-.
      rewrite (capacity_recalculation_none fuel (with_size d (size d + 1)) Hg).
      eexists. split; [done|]. simpl.
      split; [done|]. split; [done|]. split; [done|].
      split; [done|]. split; [done|]. split; [lia|]. split; [done|].
      intros k [Hk|[? _]]; done. }
  assert (Habs1 : absent key d1).
  { intros k Hk. apply Habs. by rewrite <- Hkeys1. }
  assert (Hcount1 : entry_count d1 < capacity d1).
  { unfold entry_count in *. unfold keys_of in Hkeys1.
    apply Permutation_length in Hkeys1. rewrite !length_fmap in Hkeys1. lia. }
  destruct (store_fresh d1 key value Hwf1 Habs1 Hcount1)
    as (j & Hj & Hempty & _ & Hstore).
  exists (with_buckets d1 (<[Z.to_nat j := [(key, value, py_hash key)]]> (buckets d1))).
  split.
  { unfold __setitem__, bindM, read, set_size, ret. simpl.
    change {| load_factor := load_factor d; size := size d + 1;
              capacity := capacity d; buckets := buckets d |}
      with (with_size d (size d + 1)).
    by rewrite Hre, Hstore. }
  pose proof Hwf1 as [Hc1' Hlen1].
  simpl. split; [done|]. split; [done|]. split; [done|].
  split; [split; [done|simpl; by rewrite length_insert]|].
  assert (Hperm : concat (<[Z.to_nat j := [(key, value, py_hash key)]]> (buckets d1))
                  ≡ₚ concat (buckets d1) ++ [(key, value, py_hash key)]).
  { apply (concat_insert_app (buckets d1) (Z.to_nat j) []).
    rewrite <- Hempty. apply bucket_at_lookup. lia. }
  split; [|split].
  - unfold entry_count in *. simpl. rewrite Hperm, length_app. simpl.
    unfold keys_of in Hkeys1. apply Permutation_length in Hkeys1.
    rewrite !length_fmap in Hkeys1. lia.
  - unfold keys_of in *. simpl. rewrite Hperm, fmap_app, Hkeys1. done.
  - intros k Hk. apply at_home_insert_empty; auto.
Qed.

End Updates.

Section Deleting.

Context {K V : Type} `{PyKey K}.

Implicit Types (d : Dictionary K V) (b : bucket K V) (bs : list (bucket K V)).
Implicit Types (key : K) (e : entry K V).

Lemma find_key_Some key b (i : nat) :
  find_key key b = Some i ->
  exists e, b !! i = Some e /\ py_eq (entry_key e) key = true.
Proof.
  revert i. induction b as [|e0 b IH]; intros i; simpl; [done|].
  destruct (py_eq (entry_key e0) key) eqn:E.
  - intros [= <-]. by exists e0.
  - destruct (find_key key b) as [i'|]; simpl; [|done].
    intros [= <-]. by apply IH.
Qed.

Lemma find_key_is_Some key b e :
  e ∈ b -> py_eq (entry_key e) key = true -> is_Some (find_key key b).
Proof.
  induction b as [|e0 b IH]; intros He Heq; [by apply elem_of_nil in He|]. simpl.
  destruct (py_eq (entry_key e0) key) eqn:E; [done|].
  apply elem_of_cons in He as [->|He]; [congruence|].
  destruct (IH He Heq) as [i ->]. done.
Qed.

Lemma elem_of_delete_ne {A : Type} (l : list A) (i : nat) (x y : A) :
  x ∈ l -> l !! i = Some y -> x <> y -> x ∈ delete i l.
Proof.
  intros Hx Hy Hne. apply list_elem_of_lookup_1 in Hx as [j Hj].
  destruct (decide (j < i)%nat).
  - apply (list_elem_of_lookup_2 _ j). by rewrite list_lookup_delete_lt.
  - assert (j <> i) by congruence. destruct j as [|j]; [lia|].
    apply (list_elem_of_lookup_2 _ j). by rewrite list_lookup_delete_ge by lia.
Qed.

Lemma elem_of_concat_insert bs (j : nat) b e (i : Z) :
  (j < length bs)%nat ->
  e ∈ bucket_at bs i -> (Z.to_nat i = j -> e ∈ b) ->
  e ∈ concat (<[j := b]> bs).
Proof.
  intros Hj He Hb. apply (elem_of_bucket_at_concat _ i). unfold bucket_at in *.
  destruct (decide (Z.to_nat i = j)) as [E|E].
  - rewrite E, list_lookup_insert_eq by done. simpl. auto.
  - by rewrite list_lookup_insert_ne.
Qed.

(** A key that sits in its home bucket is found there at once. *)
Lemma get_bucket_index_at_home d key :
  wf d -> at_home d key -> self_equal key ->
  _get_bucket_index d key = Ok (home (capacity d) key).
Proof.
  intros Hwf (e & He & Hk) [Heq Hty]. pose proof Hwf as [Hc Hlen].
  assert (Hinit : 0 <= home (capacity d) key < capacity d)
    by (apply Z.mod_pos_bound; lia).
  rewrite get_bucket_index_unfold by done.
  rewrite <- (at_offset_0 d _ Hinit) at 4.
  apply (probe_hit d key _ Hwf Hinit 0 0); try lia.
  unfold stops_at. simpl. rewrite at_offset_0 by done.
  apply stopb_spec. right. exists e. by rewrite Hk.
Qed.

(** [del d[key]] for a key that sits in its home bucket. *)
Lemma delitem_at_home fuel d key (s c : Z) :
  wf d -> at_home d key -> self_equal key ->
  shape_del fuel (load_factor d) (size d) (capacity d) = Some (s, c) ->
  exists d',
    __delitem__ fuel key d = (Ok tt, d') /\
    size d' = s /\ capacity d' = c /\ load_factor d' = load_factor d /\
    wf d' /\
    (forall k, at_home d k -> py_eq k key = false -> at_home d' k).
Proof.
  intros Hwf Hhome Hself Hshape. pose proof Hwf as [Hc Hlen].
  pose proof (get_bucket_index_at_home d key Hwf Hhome Hself) as Hidx.
  set (j := home (capacity d) key) in *.
  assert (Hj : 0 <= j < capacity d) by (apply Z.mod_pos_bound; lia).
  set (b := bucket_at (buckets d) j).
  destruct Hhome as (e & He & Hk). destruct Hself as [Heq Hty]. fold j b in He.
  destruct (find_key_is_Some key b e He ltac:(by rewrite Hk)) as [i Hi].
  destruct (find_key_Some key b i Hi) as (e0 & He0 & Heq0).
  set (bs' := <[Z.to_nat j := delete i b]> (buckets d)).
  (* the entries of the other keys survive *)
  assert (Hkeep : forall k e', e' ∈ bucket_at (buckets d) (home (capacity d) k) ->
            entry_key e' = k -> py_eq k key = false ->
            e' ∈ bucket_at bs' (home (capacity d) k) /\ e' ∈ concat bs').
  { intros k e' He' Hk' Hne.
    assert (Hin : Z.to_nat (home (capacity d) k) = Z.to_nat j -> e' ∈ delete i b).
    { intros E. apply (elem_of_delete_ne b i e' e0); [|done|].
      - unfold b. unfold bucket_at in *. by rewrite <- E.
      - intros ->. congruence. }
    pose proof (Z.mod_pos_bound (py_hash k) (capacity d) Hc) as Hb. fold (home (capacity d) k) in Hb.
    split.
    - unfold bs'. rewrite bucket_at_insert by lia. case_decide as E; [|done].
      apply Hin. by rewrite E.
    - apply (elem_of_concat_insert _ _ _ _ (home (capacity d) k)); [lia|done|done]. }
  unfold shape_del in Hshape.
  assert (Hrun : __delitem__ fuel key d =
    (let d2 := with_size (with_buckets d bs') (size d - 1) in
     if size d - 1 <? capacity d / 4 then _resize fuel true d2 else (Ok tt, d2))).
  { unfold __delitem__, bindM, read. rewrite Hidx.
    rewrite getitem_bucket_at by lia. fold b. rewrite Hi.
    rewrite setitem_in_range by lia. simpl.
    by destruct (size d - 1 <? capacity d / 4). }
  rewrite Hrun. simpl.
  destruct (size d - 1 <? capacity d / 4).
  - destruct (define_potential_capacity_decrease _ _ _ _) as [c'| |] eqn:Hdec; try done.
    destruct (Z.ltb_spec 0 c'); [|done]. injection Hshape as <- <-.
    destruct (resize_ok fuel true (with_size (with_buckets d bs') (size d - 1)) c')
      as (arr & Hr & ->); [done|done|].
    simpl in Hr. destruct (rehash_spec bs' c') as (arr' & Hr' & Hlen' & _); [done|].
    assert (arr' = arr) as -> by congruence.
    eexists. split; [done|]. simpl.
    split; [done|]. split; [done|]. split; [done|].
    split; [split; [done|simpl; lia]|].
    intros k (e' & He' & Hk') Hne. destruct (Hkeep k e' He' Hk' Hne) as [_ Hin].
    exists (refresh e'). split; [|done]. simpl. subst k. by eapply rehash_at_home.
  - injection Hshape as <- <-.
    eexists. split; [done|]. simpl.
    split; [done|]. split; [done|]. split; [done|].
    split; [split; [done|simpl; unfold bs'; by rewrite length_insert]|].
    intros k (e' & He' & Hk') Hne. destruct (Hkeep k e' He' Hk' Hne) as [Hin _].
    by exists e'.
Qed.

End Deleting.

Section Scripts.

Context {K V : Type} `{PyKey K}.

Implicit Types (d : Dictionary K V) (key : K) (ks : list K).

Lemma script_app fuel (ops1 ops2 : list (op K V)) d :
  script fuel (ops1 ++ ops2) d =
  let+ d' := script fuel ops1 d in script fuel ops2 d'.
Proof.
  revert d. induction ops1 as [|o ops1 IH]; intros d; simpl; [done|].
  destruct (step fuel o d) as [[[]| |] d']; simpl; auto.
Qed.

Lemma pairwise_ne_cons key ks :
  pairwise_ne (key :: ks) ->
  pairwise_ne ks /\
  forall k, k ∈ ks -> py_eq key k = false /\ py_eq k key = false.
Proof.
  intros Hp. split.
  - intros i j ki kj Hi Hj Hij. apply (Hp (S i) (S j)); auto.
  - intros k Hk. apply list_elem_of_lookup_1 in Hk as [i Hi].
    split; [apply (Hp O (S i))|apply (Hp (S i) O)]; auto.
Qed.

Lemma pairwise_neb_spec ks : pairwise_neb ks = true -> pairwise_ne ks.
Proof.
  induction ks as [|k ks IH]; simpl.
  - intros _ i j ki kj Hi. done.
  - intros [Hk Hks]%andb_true_iff. specialize (IH Hks).
    rewrite forallb_forall in Hk.
    assert (Hk' : forall k', k' ∈ ks -> py_eq k k' = false /\ py_eq k' k = false).
    { intros k' Hin. apply list_elem_of_In, Hk, andb_true_iff in Hin as [H1 H2].
      by destruct (py_eq k k'), (py_eq k' k). }
    intros [|i] [|j] ki kj Hi Hj Hij; simpl in *; try done.
    + injection Hi as <-. apply list_elem_of_lookup_2 in Hj. by apply Hk'.
    + injection Hj as <-. apply list_elem_of_lookup_2 in Hi. by apply Hk'.
    + apply (IH i j); auto.
Qed.

(** A run of assignments to keys that are new to the table. *)
Lemma sets_fresh_run fuel (kvs : list (K * V)) : forall d (s c : Z) (r : bool),
  wf d -> entry_count d <= size d ->
  (forall k k', k ∈ keys_of d -> k' ∈ kvs.*1 -> py_eq k k' = false) ->
  pairwise_ne (kvs.*1) ->
  shape_sets fuel (load_factor d) (size d) (capacity d) (length kvs) = Some (s, c, r) ->
  exists d',
    script fuel ((fun kv => SetItem kv.1 kv.2) <$> kvs) d = Ok d' /\
    size d' = s /\ capacity d' = c /\ load_factor d' = load_factor d /\
    wf d' /\ entry_count d' <= size d' /\
    keys_of d' ≡ₚ keys_of d ++ kvs.*1 /\
    (forall k, at_home d k \/ (r = true /\ k ∈ keys_of d) -> at_home d' k).
Proof.
  induction kvs as [|[k1 v1] kvs IH]; intros d s c r Hwf Hcount Hnew Hdist Hshape.
  - simpl in Hshape. injection Hshape as <- <- <-. exists d. simpl.
    rewrite app_nil_r. repeat split; try done; try apply Hwf.
    intros k [Hk|[? _]]; done.
  - simpl in Hshape.
    destruct (shape_set _ _ _ _) as [[[s1 c1] r1]|] eqn:Hs1; [|done].
    destruct (shape_sets _ _ _ _ _) as [[[s2 c2] r2]|] eqn:Hs2; [|done].
    injection Hshape as <- <- <-.
    rewrite fmap_cons in Hdist. apply pairwise_ne_cons in Hdist as [Hdist Hk1].
    destruct (setitem_fresh fuel d k1 v1 s1 c1 r1 Hwf Hcount) as
      (d1 & Hset & Hsz1 & Hc1 & Hlf1 & Hwf1 & Hcount1 & Hkeys1 & Hhome1); [|done|].
    { intros k Hk. apply Hnew; [done|]. rewrite fmap_cons. left. }
    rewrite <- Hsz1, <- Hc1, <- Hlf1 in Hs2.
    destruct (IH d1 s2 c2 r2 Hwf1 Hcount1) as
      (d' & Hrun & Hsz & Hc & Hlf & Hwf' & Hcount' & Hkeys & Hhome); [|done|done|].
    { intros k k' Hk Hk'. rewrite Hkeys1 in Hk. apply elem_of_app in Hk as [Hk|Hk].
      - apply Hnew; [done|]. rewrite fmap_cons. by right.
      - apply list_elem_of_singleton in Hk as ->. by apply Hk1. }
    exists d'. simpl. rewrite Hset.
    split; [done|]. split; [done|]. split; [done|]. split; [congruence|].
    split; [done|]. split; [done|]. split.
    + rewrite Hkeys, Hkeys1, <- app_assoc. done.
    + intros k Hk. apply Hhome.
      destruct r1; simpl in *.
      * left. apply Hhome1. destruct Hk as [Hk|[_ Hk]]; auto.
      * destruct Hk as [Hk|[-> Hk]]; [left; apply Hhome1; auto|].
        right. split; [done|]. rewrite Hkeys1. apply elem_of_app. by left.
Qed.

(** A run of deletions of keys that all sit in their home buckets. *)
Lemma dels_home_run fuel ks : forall d (s c : Z),
  wf d ->
  (forall k, k ∈ ks -> at_home d k /\ self_equal k) ->
  pairwise_ne ks ->
  shape_dels fuel (load_factor d) (size d) (capacity d) (length ks) = Some (s, c) ->
  exists d',
    script fuel (DelItem <$> ks) d = Ok d' /\
    size d' = s /\ capacity d' = c /\ load_factor d' = load_factor d /\ wf d'.
Proof.
  induction ks as [|k1 ks IH]; intros d s c Hwf Hks Hdist Hshape.
  - simpl in Hshape. injection Hshape as <- <-. by exists d.
  - simpl in Hshape.
    destruct (shape_del _ _ _ _) as [[s1 c1]|] eqn:Hs1; [|done].
    apply pairwise_ne_cons in Hdist as [Hdist Hk1].
    destruct (Hks k1 ltac:(left)) as [Hhome1 Hself1].
    destruct (delitem_at_home fuel d k1 s1 c1 Hwf Hhome1 Hself1 Hs1) as
      (d1 & Hdel & Hsz1 & Hc1 & Hlf1 & Hwf1 & Hkeep).
    rewrite <- Hsz1, <- Hc1, <- Hlf1 in Hshape.
    destruct (IH d1 s c Hwf1) as (d' & Hrun & Hsz & Hc & Hlf & Hwf'); [|done|done|].
    { intros k Hk. destruct (Hks k ltac:(by right)) as [Hh Hs]. split; [|done].
      apply Hkeep; [done|]. by apply Hk1. }
    exists d'. simpl. rewrite Hdel.
    split; [done|]. split; [done|]. split; [done|]. split; [congruence|done].
Qed.

End Scripts.

Section StringKeys.

Variable str_hash : string -> Z.

Let keys : PyKey pykey := pykey_PyKey str_hash.
#[local] Existing Instance keys.

Lemma str_self_equal (s : string) : self_equal (KStr s).
Proof. split; simpl; [apply String.eqb_refl|done]. Qed.

Lemma test_keys_self_equal (from n : nat) (k : pykey) :
  k ∈ test_keys from n -> self_equal k.
Proof.
  unfold test_keys. intros (i & -> & _)%list_elem_of_fmap. apply str_self_equal.
Qed.

Lemma test_items_keys (from n : nat) : (test_items from n).*1 = test_keys from n.
Proof. unfold test_items, test_keys. by rewrite <- list_fmap_compose. Qed.

Lemma pairwise_ne_app (l1 l2 : list pykey) (k1 k2 : pykey) :
  pairwise_ne (l1 ++ l2) -> k1 ∈ l1 -> k2 ∈ l2 -> py_eq k1 k2 = false.
Proof.
  intros Hp (i & Hi)%list_elem_of_lookup_1 (j & Hj)%list_elem_of_lookup_1.
  apply (Hp i (length l1 + j)%nat).
  - by apply lookup_app_l_Some.
  - by rewrite lookup_app_r, Nat.add_comm, Nat.add_sub by lia.
  - apply lookup_lt_Some in Hi. lia.
Qed.


End StringKeys.

Section Retrieval.

Context {K V : Type} `{PyKey K}.

Implicit Types (d : Dictionary K V) (b : bucket K V) (bs : list (bucket K V)).
Implicit Types (key : K) (e : entry K V).

Lemma get_bucket_index_range d key (j : Z) :
  wf d -> _get_bucket_index d key = Ok j -> 0 <= j < capacity d.
Proof.
  intros Hwf Hj.
  destruct (get_bucket_index_cases d key Hwf) as [[Hr _]|(k & _ & Hr & _)].
  - congruence.
  - rewrite Hr in Hj. injection Hj as <-. by apply at_offset_range.
Qed.

Lemma getitem_spec d key (j : Z) :
  wf d -> _get_bucket_index d key = Ok j ->
  __getitem__ d key =
  match find (fun e => py_eq (entry_key e) key) (bucket_at (buckets d) j) with
  | Some e => Ok (entry_value e)
  | None => Raise KeyError
  end.
Proof.
  intros Hwf Hj. pose proof (get_bucket_index_range d key j Hwf Hj).
  destruct Hwf as [Hc Hlen]. unfold __getitem__. rewrite Hj. simpl.
  by rewrite getitem_bucket_at by lia.
Qed.

Lemma getitem_inv d key (v : V) :
  wf d -> __getitem__ d key = Ok v ->
  exists j e,
    _get_bucket_index d key = Ok j /\ 0 <= j < capacity d /\
    find (fun e => py_eq (entry_key e) key) (bucket_at (buckets d) j) = Some e /\
    entry_value e = v.
Proof.
  intros Hwf Hget.
  destruct (_get_bucket_index d key) as [j| |] eqn:Hj;
    [|unfold __getitem__ in Hget; rewrite Hj in Hget; done..].
  rewrite (getitem_spec d key j Hwf Hj) in Hget.
  destruct (find _ _) as [e|] eqn:Hf; [|done].
  exists j, e. split; [done|]. split; [by eapply get_bucket_index_range|].
  split; [done|]. congruence.
Qed.

(** Filling an empty bucket does not change where a key is led, as long
    as the new content stops the probe in case it was led there. *)
Lemma get_bucket_index_fill d key (j0 j : Z) b :
  wf d -> _get_bucket_index d key = Ok j0 ->
  0 <= j < capacity d -> bucket_at (buckets d) j = [] ->
  (j = j0 -> stopb key b = true) ->
  _get_bucket_index (with_buckets d (<[Z.to_nat j := b]> (buckets d))) key = Ok j0.
Proof.
  intros Hwf Hj0 Hj Hempty Hb. pose proof Hwf as [Hc Hlen].
  set (d' := with_buckets d (<[Z.to_nat j := b]> (buckets d))).
  assert (Hwf' : wf d') by (split; [done|simpl; by rewrite length_insert]).
  assert (Hinit : 0 <= home (capacity d) key < capacity d)
    by (apply Z.mod_pos_bound; lia).
  destruct (get_bucket_index_cases d key Hwf) as [[Hr _]|(k & Hk & Hr & Hs & Hno)];
    [congruence|].
  rewrite Hr in Hj0. injection Hj0 as <-.
  assert (Hat : forall i, bucket_at (buckets d') (at_offset d' (home (capacity d) key) i) =
            if decide (at_offset d (home (capacity d) key) i = j) then b
            else bucket_at (buckets d) (at_offset d (home (capacity d) key) i)).
  { intros i. simpl.
    change (at_offset d' (home (capacity d) key) i)
      with (at_offset d (home (capacity d) key) i).
    pose proof (at_offset_range d (home (capacity d) key) Hwf i) as Hr'.
    by rewrite bucket_at_insert by lia. }
  rewrite get_bucket_index_unfold by done.
  change (capacity d') with (capacity d).
  change (at_offset d' (home (capacity d) key) 0)
    with (at_offset d (home (capacity d) key) 0).
  change (Ok (at_offset d (home (capacity d) key) (Z.of_nat k)))
    with (Ok (A:=Z) (at_offset d' (home (capacity d') key) (0 + Z.of_nat k))).
  apply (probe_hit d' key _ Hwf' Hinit k 0); try (simpl; lia).
  - intros i Hi. unfold stops_at. rewrite Hat. case_decide as E.
    + specialize (Hno i ltac:(lia)). unfold stops_at in Hno.
      by rewrite E, Hempty in Hno.
    + apply Hno. lia.
  - unfold stops_at. rewrite Hat. case_decide as E; [|done]. by apply Hb.
Qed.

Lemma find_first_self key (value : V) (h : Z) :
  py_eq key key = true ->
  find (fun e => py_eq (entry_key e) key) [(key, value, h)] = Some (key, value, h).
Proof. intros Heq. simpl. unfold entry_key. simpl. by rewrite Heq. Qed.

Lemma get_bucket_index_stops d key (j : Z) :
  wf d -> _get_bucket_index d key = Ok j ->
  stopb key (bucket_at (buckets d) j) = true.
Proof.
  intros Hwf Hj.
  destruct (get_bucket_index_cases d key Hwf) as [[Hr _]|(k & _ & Hr & Hs & _)].
  - congruence.
  - rewrite Hr in Hj. by injection Hj as <-.
Qed.

(** A key that is not stored and is led to a bucket finds it empty. *)
Lemma store_fresh_at d key (value : V) (j : Z) :
  wf d -> absent key d -> _get_bucket_index d key = Ok j ->
  0 <= j < capacity d /\ bucket_at (buckets d) j = [] /\
  store key value d =
    (Ok false, with_buckets d (<[Z.to_nat j := [(key, value, py_hash key)]]> (buckets d))).
Proof.
  intros Hwf Habs Hidx. pose proof Hwf as [Hc Hlen].
  pose proof (get_bucket_index_range d key j Hwf Hidx) as Hj.
  assert (Hempty : bucket_at (buckets d) j = []).
  { pose proof (get_bucket_index_stops d key j Hwf Hidx) as Hs.
    apply stopb_spec in Hs as [Hs|(e & He & Heq & _)]; [done|]. exfalso.
    assert (py_eq (entry_key e) key = false); [|congruence].
    apply Habs. unfold keys_of. apply list_elem_of_fmap_2.
    by eapply elem_of_bucket_at_concat. }
  split; [done|]. split; [done|].
  rewrite (store_spec d key value j Hidx) by lia. by rewrite Hempty.
Qed.

(** Storing a key that is not in the table, once a bucket is found for
    it, keeps every pair retrievable. *)
Lemma store_fresh_retrievable_at d key (value : V) (j : Z) :
  wf d -> retrievable d -> absent key d -> self_equal key ->
  _get_bucket_index d key = Ok j ->
  exists d',
    store key value d = (Ok false, d') /\
    wf d' /\ retrievable d' /\
    size d' = size d /\ capacity d' = capacity d /\ load_factor d' = load_factor d /\
    concat (buckets d') ≡ₚ concat (buckets d) ++ [(key, value, py_hash key)].
Proof.
  intros Hwf Hret Habs [Heq Hty] Hidx. pose proof Hwf as [Hc Hlen].
  destruct (store_fresh_at d key value j Hwf Habs Hidx) as (Hj & Hempty & Hstore).
  set (new := (key, value, py_hash key)) in *.
  set (d' := with_buckets d (<[Z.to_nat j := [new]]> (buckets d))) in *.
  assert (Hwf' : wf d') by (split; [done|simpl; by rewrite length_insert]).
  assert (Hperm : concat (buckets d') ≡ₚ concat (buckets d) ++ [new]).
  { apply (concat_insert_app (buckets d) (Z.to_nat j) []).
    rewrite <- Hempty. apply bucket_at_lookup. lia. }
  exists d'. split; [done|]. split; [done|]. split; [|done].
  intros e He. rewrite Hperm in He. apply elem_of_app in He as [He|He].
  - destruct (getitem_inv d (entry_key e) (entry_value e) Hwf (Hret e He))
      as (j0 & e1 & Hj0 & Hr0 & Hfind & Hval).
    assert (Hne : j <> j0) by (intros ->; by rewrite Hempty in Hfind).
    rewrite (getitem_spec d' (entry_key e) j0 Hwf').
    + simpl. rewrite bucket_at_insert by lia.
      case_decide; [congruence|]. rewrite Hfind. by rewrite Hval.
    + by apply get_bucket_index_fill.
  - apply list_elem_of_singleton in He as ->.
    change (__getitem__ d' key = Ok value).
    rewrite (getitem_spec d' key j Hwf').
    + simpl. rewrite bucket_at_insert by lia. case_decide; [|done].
      unfold new. by rewrite find_first_self.
    + apply get_bucket_index_fill; try done. intros _. simpl.
      unfold key_matches, new, entry_key. simpl. by rewrite Heq, Hty.
Qed.

(** The same when the table has an empty bucket left. *)
Lemma store_fresh_retrievable d key (value : V) :
  wf d -> retrievable d -> absent key d -> self_equal key ->
  entry_count d < capacity d ->
  exists d',
    store key value d = (Ok false, d') /\
    wf d' /\ retrievable d' /\
    size d' = size d /\ capacity d' = capacity d /\ load_factor d' = load_factor d /\
    concat (buckets d') ≡ₚ concat (buckets d) ++ [(key, value, py_hash key)].
Proof.
  intros Hwf Hret Habs Hself Hroom.
  destruct (store_fresh d key value Hwf Habs Hroom) as (j & _ & _ & Hidx & _).
  by apply (store_fresh_retrievable_at d key value j).
Qed.

End Retrieval.

Section Rounding.

Lemma le_scaled_shift (m e c S : Z) :
  0 <= S -> 0 <= S + e ->
  le_scaled m e c <-> m * 2 ^ (S + e) <= c * 2 ^ S.
Proof.
  intros HS HSe. unfold le_scaled.
  assert (exists t, 0 <= t /\ S + e = t + Z.max e 0 /\ S = t + Z.max (- e) 0)
    as (t & Ht & -> & HS').
  { exists (S - Z.max (- e) 0). lia. }
  rewrite HS'. rewrite !Z.pow_add_r by lia.
  assert (0 < 2 ^ t) by (apply Z.pow_pos_nonneg; lia).
  assert (0 <= 2 ^ Z.max e 0) by (apply Z.pow_nonneg; lia).
  assert (0 <= 2 ^ Z.max (- e) 0) by (apply Z.pow_nonneg; lia).
  split; intros Hle; nia.
Qed.

Lemma le_scaled_div (m e c k : Z) :
  0 <= m -> 0 <= k -> le_scaled m e c -> le_scaled (m / 2 ^ k) (e + k) c.
Proof.
  intros Hm Hk Hle.
  set (S := Z.max (- e) 0).
  apply (le_scaled_shift _ _ _ S) in Hle; [|unfold S; lia..].
  apply (le_scaled_shift _ _ _ S); [unfold S; lia..|].
  replace (S + (e + k)) with (k + (S + e)) by lia.
  rewrite Z.pow_add_r by (unfold S; lia).
  assert (0 < 2 ^ k) by (apply Z.pow_pos_nonneg; lia).
  assert (0 <= 2 ^ (S + e)) by (apply Z.pow_nonneg; lia).
  pose proof (Z.mul_div_le m (2 ^ k) ltac:(lia)).
  assert (0 <= m / 2 ^ k) by (apply Z.div_pos; lia).
  nia.
Qed.

(** Rounding up a quotient that is not exact stays below an integer
    bound, when the result has no positive exponent. *)
Lemma le_scaled_div_up (m e c k : Z) :
  0 <= m -> 0 <= k -> e + k <= 0 -> m mod 2 ^ k <> 0 ->
  le_scaled m e c -> le_scaled (m / 2 ^ k + 1) (e + k) c.
Proof.
  intros Hm Hk Hek Hmod Hle. unfold le_scaled in *.
  replace (Z.max e 0) with 0 in Hle by lia.
  replace (Z.max (- e) 0) with (- (e + k) + k) in Hle by lia.
  replace (Z.max (e + k) 0) with 0 by lia.
  replace (Z.max (- (e + k)) 0) with (- (e + k)) by lia.
  rewrite Z.pow_add_r in Hle by lia. rewrite Z.pow_0_r in *.
  assert (0 < 2 ^ k) by (apply Z.pow_pos_nonneg; lia).
  pose proof (Z.div_mod m (2 ^ k) ltac:(lia)).
  pose proof (Z.mod_pos_bound m (2 ^ k) ltac:(lia)).
  assert (0 <= 2 ^ (- (e + k))) by (apply Z.pow_nonneg; lia).
  nia.
Qed.

Lemma le_scaled_mul (m1 e1 m2 e2 c : Z) :
  0 <= m1 -> 0 <= m2 -> 0 <= c ->
  le_scaled m1 e1 c -> le_scaled m2 e2 1 -> le_scaled (m1 * m2) (e1 + e2) c.
Proof.
  intros Hm1 Hm2 Hc H1 H2.
  set (S1 := Z.max (- e1) 0). set (S2 := Z.max (- e2) 0).
  apply (le_scaled_shift _ _ _ S1) in H1; [|unfold S1; lia..].
  apply (le_scaled_shift _ _ _ S2) in H2; [|unfold S2; lia..].
  apply (le_scaled_shift _ _ _ (S1 + S2)); [unfold S1, S2; lia..|].
  replace (S1 + S2 + (e1 + e2)) with ((S1 + e1) + (S2 + e2)) by lia.
  rewrite (Z.pow_add_r 2 (S1 + e1) (S2 + e2)) by (unfold S1, S2; lia).
  rewrite (Z.pow_add_r 2 S1 S2) by (unfold S1, S2; lia).
  assert (0 <= 2 ^ (S1 + e1)) by (apply Z.pow_nonneg; lia).
  assert (0 <= 2 ^ (S2 + e2)) by (apply Z.pow_nonneg; lia).
  set (A1 := 2 ^ (S1 + e1)) in *. set (A2 := 2 ^ (S2 + e2)) in *.
  set (B1 := 2 ^ S1) in *. set (B2 := 2 ^ S2) in *.
  assert (Hprod : m1 * A1 * (m2 * A2) <= c * B1 * (1 * B2))
    by (apply Z.mul_le_mono_nonneg; lia).
  replace (m1 * m2 * (A1 * A2)) with (m1 * A1 * (m2 * A2)) by ring.
  replace (c * (B1 * B2)) with (c * B1 * (1 * B2)) by ring.
  exact Hprod.
Qed.

(** A positive mantissa below an integer under 2^53: few digits, small
    exponent. *)
Lemma le_scaled_digits (m : positive) (e c : Z) :
  c < 2 ^ 53 -> le_scaled (Zpos m) e c ->
  Zpos (digits2_pos m) + e <= 53.
Proof.
  intros Hc Hle.
  assert (Hsize : digits2_pos m = Pos.size m).
  { clear. induction m; simpl; congruence. }
  rewrite Hsize. pose proof (Pos.size_le m) as Hs.
  apply Pos2Z.pos_le_pos in Hs. rewrite Pos2Z.inj_pow in Hs.
  set (d := Zpos (Pos.size m)) in *. assert (0 < d) by (unfold d; lia).
  set (S := Z.max (- e) 0).
  apply (le_scaled_shift _ _ _ S) in Hle; [|unfold S; lia..].
  destruct (Z.le_gt_cases (d + e) 53) as [|Hgt]; [done|exfalso].
  (* 2^(d-1) <= m and c < 2^53 give 2^(d-1+S+e) < 2^(53+S) *)
  assert (Hd : 2 ^ d = 2 * 2 ^ (d - 1)).
  { replace d with (1 + (d - 1)) at 1 by lia. rewrite Z.pow_add_r by lia. done. }
  assert (Hlow : 2 ^ (d - 1) <= Zpos m) by lia.
  assert (Hp1 : 0 < 2 ^ (S + e)) by (apply Z.pow_pos_nonneg; unfold S; lia).
  assert (Hp2 : 0 < 2 ^ S) by (apply Z.pow_pos_nonneg; unfold S; lia).
  assert (Habs : 2 ^ (d - 1) * 2 ^ (S + e) < 2 ^ 53 * 2 ^ S) by nia.
  rewrite <- !Z.pow_add_r in Habs by (unfold S; lia).
  apply Z.pow_lt_mono_r_iff in Habs; unfold S in *; lia.
Qed.

End Rounding.

Section Shifting.

Lemma iter_pos_iter {A : Type} (f : A -> A) (n : positive) (x : A) :
  SpecFloat.iter_pos f n x = Pos.iter f x n.
Proof.
  revert x. induction n as [n IH|n IH|]; intros x; simpl.
  - rewrite !IH. by rewrite !Pos.iter_swap.
  - by rewrite !IH.
  - done.
Qed.

Lemma shr_1_spec (mrs : shr_record) :
  0 <= shr_m mrs ->
  shr_1 mrs =
  {| shr_m := shr_m mrs / 2; shr_r := Z.odd (shr_m mrs);
     shr_s := shr_r mrs || shr_s mrs |}.
Proof.
  destruct mrs as [m r s]. simpl. intros Hm.
  destruct m as [|[p|p|]|p]; try lia; try done.
  - rewrite Pos2Z.inj_xI. f_equal.
    apply (Z.div_unique _ _ _ 1); lia.
  - rewrite Pos2Z.inj_xO. f_equal.
    apply (Z.div_unique _ _ _ 0); lia.
Qed.

(** [n] right shifts keep the quotient by [2^n]; the round or sticky bit
    is set only if something was shifted out. *)
Lemma shr_iter (m : Z) (n : positive) :
  0 <= m ->
  let mrs := SpecFloat.iter_pos shr_1 n {| shr_m := m; shr_r := false; shr_s := false |} in
  shr_m mrs = m / 2 ^ Zpos n /\
  (shr_r mrs || shr_s mrs = true -> m mod 2 ^ Zpos n <> 0).
Proof.
  intros Hm. simpl. rewrite iter_pos_iter.
  induction n as [|n IH] using Pos.peano_ind.
  - cbn [Pos.iter]. rewrite shr_1_spec by done. cbn [shr_m shr_r shr_s].
    rewrite Z.pow_1_r. split; [done|].
    rewrite orb_false_r. intros Hodd. rewrite Zmod_odd, Hodd. done.
  - rewrite Pos.iter_succ. destruct IH as [IHm IHf].
    set (mrs := Pos.iter shr_1 _ n) in *.
    assert (Hpos : 0 < 2 ^ Zpos n) by (apply Z.pow_pos_nonneg; lia).
    assert (0 <= shr_m mrs) by (rewrite IHm; apply Z.div_pos; lia).
    rewrite shr_1_spec by done. cbn [shr_m shr_r shr_s].
    rewrite Pos2Z.inj_succ, Z.pow_succ_r by lia.
    split.
    + rewrite IHm, Z.div_div by lia. f_equal. lia.
    + intros Hflag Hmod.
      apply Z.mod_divide in Hmod; [|lia]. destruct Hmod as [k Hk].
      apply orb_true_iff in Hflag as [Hodd|Hflag].
      * rewrite IHm in Hodd.
        replace m with (2 * k * 2 ^ Zpos n) in Hodd by lia.
        rewrite Z.div_mul in Hodd by lia.
        rewrite Z.odd_mul in Hodd. done.
      * apply IHf; [done|]. replace m with (2 * k * 2 ^ Zpos n) by lia.
        apply Z.mod_mul. lia.
Qed.

(** The first step of rounding: [k] bits are shifted out. *)
Lemma shr_fexp_exact (m e : Z) :
  0 <= m ->
  exists (k : Z) (mrs : shr_record),
    0 <= k /\
    shr_fexp Py.prec Py.emax m e loc_Exact = (mrs, e + k) /\
    shr_m mrs = m / 2 ^ k /\
    (shr_r mrs || shr_s mrs = true -> m mod 2 ^ k <> 0) /\
    k = Z.max 0 (fexp Py.prec Py.emax (Zdigits2 m + e) - e).
Proof.
  intros Hm. unfold shr_fexp, shr. simpl shr_record_of_loc.
  destruct (fexp Py.prec Py.emax (Zdigits2 m + e) - e) as [|n|n] eqn:En.
  - exists 0, {| shr_m := m; shr_r := false; shr_s := false |}.
    rewrite Z.add_0_r, Z.pow_0_r, Z.div_1_r. simpl. repeat split; try done; lia.
  - destruct (shr_iter m n Hm) as [H1 H2].
    eexists (Zpos n), _. split; [lia|]. split; [done|]. split; [done|].
    split; [done|]. lia.
  - exists 0, {| shr_m := m; shr_r := false; shr_s := false |}.
    rewrite Z.add_0_r, Z.pow_0_r, Z.div_1_r. simpl. repeat split; try done; lia.
Qed.

End Shifting.

Section RoundingDown.

Lemma round_finish (m e c : Z) :
  0 <= m -> c < 2 ^ 53 -> le_scaled m e c ->
  bounded_float c
    (let '(mrs, e') := shr_fexp Py.prec Py.emax m e loc_Exact in
     match shr_m mrs with
     | Z0 => S754_zero false
     | Zpos m' =>
         if e' <=? Py.emax - Py.prec then S754_finite false m' e'
         else S754_infinity false
     | Zneg _ => S754_nan
     end).
Proof.
  intros Hm Hc Hle.
  destruct (shr_fexp_exact m e Hm) as (k & mrs & Hk & -> & Hq & _ & _).
  pose proof (le_scaled_div m e c k Hm Hk Hle) as Hle'. rewrite <- Hq in Hle'.
  assert (0 <= shr_m mrs).
  { rewrite Hq. apply Z.div_pos; [done|]. apply Z.pow_pos_nonneg; lia. }
  destruct (shr_m mrs) as [|m'|m']; [done| |lia].
  pose proof (le_scaled_digits m' (e + k) c Hc Hle').
  destruct (Z.leb_spec (e + k) (Py.emax - Py.prec)) as [|Hbig]; [done|].
  unfold Py.emax, Py.prec in Hbig. lia.
Qed.

(** Rounding to nearest never takes a positive number above an integer
    below 2^53 that bounds it. *)
Lemma round_le (m : positive) (e c : Z) :
  c < 2 ^ 53 -> le_scaled (Zpos m) e c ->
  bounded_float c (binary_round_aux Py.prec Py.emax false (Zpos m) e loc_Exact).
Proof.
  intros Hc Hle. unfold binary_round_aux.
  destruct (shr_fexp_exact (Zpos m) e ltac:(lia)) as (k & mrs & Hk & -> & Hq & Hflag & Hexp).
  assert (Hpow : 0 < 2 ^ k) by (apply Z.pow_pos_nonneg; lia).
  assert (Hm1 : 0 <= shr_m mrs) by (rewrite Hq; apply Z.div_pos; lia).
  pose proof (le_scaled_div (Zpos m) e c k ltac:(lia) Hk Hle) as Hdown.
  rewrite <- Hq in Hdown.
  assert (Hup : shr_r mrs = true -> le_scaled (shr_m mrs + 1) (e + k) c).
  { intros Hr. rewrite Hq. assert (Hmod : Zpos m mod 2 ^ k <> 0).
    { apply Hflag. by rewrite Hr. }
    apply le_scaled_div_up; try done; try lia.
    destruct (decide (k = 0)) as [->|]; [by rewrite Z.pow_0_r, Z.mod_1_r in Hmod|].
    pose proof (le_scaled_digits m e c Hc Hle).
    unfold fexp, emin, Py.prec, Py.emax in Hexp. simpl Zdigits2 in Hexp. lia. }
  apply round_finish; [|done|].
  - destruct mrs as [m1 [|] [|]]; simpl in *; try done; try lia.
    destruct (Z.even m1); lia.
  - destruct mrs as [m1 [|] [|]]; simpl in *; try done; auto.
    destruct (Z.even m1); auto.
Qed.

End RoundingDown.

Section GrowthRoom.

Lemma pos_iter_xO (p d : positive) : Zpos (Pos.iter xO p d) = Zpos p * 2 ^ Zpos d.
Proof.
  induction d as [|d IH] using Pos.peano_ind.
  - cbn [Pos.iter]. rewrite Z.pow_1_r. lia.
  - rewrite Pos.iter_succ, Pos2Z.inj_xO, IH, Pos2Z.inj_succ, Z.pow_succ_r by lia. lia.
Qed.

Lemma shl_align_scaled (p : positive) (ex' : Z) :
  le_scaled (Zpos (shl_align p 0 ex').1) (shl_align p 0 ex').2 (Zpos p).
Proof.
  unfold shl_align, le_scaled. destruct (ex' - 0) as [|d|d] eqn:E; simpl fst; simpl snd.
  - apply Z.le_refl.
  - apply Z.le_refl.
  - replace ex' with (Zneg d) by lia. rewrite pos_iter_xO.
    replace (Z.max (Zneg d) 0) with 0 by lia.
    replace (Z.max (- Zneg d) 0) with (Zpos d) by lia. lia.
Qed.

(** [float(c)] is at most [c] for a positive [c] below 2^53. *)
Lemma float_of_int_bounded (c : Z) :
  0 < c < 2 ^ 53 ->
  exists cf, Py.float_of_int c = Ok cf /\ bounded_float c cf.
Proof.
  intros Hc. destruct c as [|p|p]; try lia.
  unfold Py.float_of_int, binary_normalize, binary_round.
  pose proof (shl_align_scaled p (fexp Py.prec Py.emax (Zpos (digits2_pos p) + 0))) as Hle.
  destruct (shl_align p 0 _) as [mz ez]. simpl in Hle.
  pose proof (round_le mz ez (Zpos p) ltac:(lia) Hle) as Hb.
  destruct (binary_round_aux _ _ _ _ _ _) as [s|s| |[|] m e]; try done; eauto.
Qed.

Lemma not_lt_bounded (c N : Z) (f : Py.float) :
  0 <= c -> bounded_float c f -> Py.float_lt_int f N = false -> N <= c.
Proof.
  intros Hc Hb Hlt. unfold Py.float_lt_int, Py.float_cmp_int in Hlt.
  destruct f as [s|s| |[|] m e]; try done.
  - destruct (Z.compare_spec 0 N); try done; lia.
  - simpl in Hb. unfold le_scaled in Hb.
    destruct (Z.leb_spec 0 e) as [He|He].
    + replace (Z.max e 0) with e in Hb by lia.
      replace (Z.max (- e) 0) with 0 in Hb by lia.
      destruct (Z.compare_spec (Zpos m * 2 ^ e) N); try done; lia.
    + replace (Z.max e 0) with 0 in Hb by lia.
      replace (Z.max (- e) 0) with (- e) in Hb by lia.
      assert (0 < 2 ^ (- e)) by (apply Z.pow_pos_nonneg; lia).
      destruct (Z.compare_spec (Zpos m) (N * 2 ^ (- e))); try done; nia.
Qed.

(** A load factor in (0, 1]. *)
Lemma load_factor_scaled (lf : Py.float) :
  Py.float_gt_int lf 0 = true -> Py.float_le_int lf 1 = true ->
  exists m e, lf = S754_finite false m e /\ le_scaled (Zpos m) e 1.
Proof.
  unfold Py.float_gt_int, Py.float_le_int, Py.float_cmp_int.
  destruct lf as [s|[|]| |[|] m e]; try done.
  - intros H _. exfalso. assert (0 < 2 ^ e \/ e < 0) as [Hp|He].
    { destruct (Z.le_gt_cases 0 e); [left; apply Z.pow_pos_nonneg; lia|by right]. }
    + destruct (0 <=? e); [destruct (Z.compare_spec (Zneg m * 2 ^ e) 0)|
                           destruct (Z.compare_spec (Zneg m) (0 * 2 ^ (- e)))];
        try done; nia.
    + destruct (Z.leb_spec 0 e); [lia|].
      destruct (Z.compare_spec (Zneg m) (0 * 2 ^ (- e))); try done; lia.
  - intros _ H. exists m, e. split; [done|]. unfold le_scaled.
    destruct (Z.leb_spec 0 e) as [He|He].
    + replace (Z.max e 0) with e by lia. replace (Z.max (- e) 0) with 0 by lia.
      destruct (Z.compare_spec (Zpos m * 2 ^ e) 1); try done; lia.
    + replace (Z.max e 0) with 0 by lia. replace (Z.max (- e) 0) with (- e) by lia.
      destruct (Z.compare_spec (Zpos m) (1 * 2 ^ (- e))); try done; lia.
Qed.

(** The growing search stops at a capacity that holds [sz] entries. *)
Lemma growth_room (c sz : Z) (lf cf : Py.float) :
  0 < c < 2 ^ 53 ->
  Py.float_gt_int lf 0 = true -> Py.float_le_int lf 1 = true ->
  Py.float_of_int c = Ok cf ->
  Py.float_lt_int (Py.float_mul cf lf) sz = false ->
  sz <= c.
Proof.
  intros Hc Hpos Hle Hcf Hexit.
  destruct (float_of_int_bounded c Hc) as (cf' & Hcf' & Hb).
  assert (cf' = cf) as -> by congruence.
  destruct (load_factor_scaled lf Hpos Hle) as (ml & el & -> & Hlf).
  apply (not_lt_bounded c sz (Py.float_mul cf (S754_finite false ml el)));
    [lia| |done].
  destruct cf as [s|s| |[|] mz ez]; try done.
  simpl in Hb. unfold Py.float_mul, SFmul. simpl xorb.
  apply round_le; [lia|]. rewrite Pos2Z.inj_mul.
  apply le_scaled_mul; try done; lia.
Qed.

End GrowthRoom.

Section GrowingSearch.

Lemma increase_exit (fuel : nat) (lf : Py.float) (sz : Z) : forall prev c : Z,
  0 < prev ->
  define_potential_capacity_increase fuel lf sz prev = Ok c ->
  prev <= c /\
  exists cf, Py.float_of_int c = Ok cf /\
             Py.float_lt_int (Py.float_mul cf lf) sz = false.
Proof.
  induction fuel as [|fuel IH]; intros prev c Hprev; simpl; [done|].
  destruct (Py.float_of_int prev) as [cf| |] eqn:Hcf; simpl; try done.
  destruct (Py.float_lt_int (Py.float_mul cf lf) sz) eqn:Hlt.
  - intros Hrec. destruct (IH (prev * 2) c ltac:(lia) Hrec) as [Hle Hex].
    split; [lia|done].
  - intros [= <-]. split; [lia|]. by exists cf.
Qed.

(** With a load factor in (0, 1] the capacity the growing search returns,
    if below 2^53, is at least the size it was computed for. *)
Lemma searched_capacity_room (fuel : nat) (lf : Py.float) (sz prev c : Z) :
  0 < prev ->
  Py.float_gt_int lf 0 = true -> Py.float_le_int lf 1 = true ->
  define_potential_capacity_increase fuel lf sz prev = Ok c ->
  c < 2 ^ 53 ->
  0 < c /\ sz <= c.
Proof.
  intros Hprev Hpos Hle Hsearch Hc.
  destruct (increase_exit fuel lf sz prev c Hprev Hsearch) as (Hge & cf & Hcf & Hexit).
  split; [lia|]. apply (growth_room c sz lf cf); try done. lia.
Qed.

End GrowingSearch.

Section SearchTermination.

Lemma digits_lower (m : positive) : 2 ^ (Zpos (digits2_pos m) - 1) <= Zpos m.
Proof.
  assert (Hsize : digits2_pos m = Pos.size m).
  { clear. induction m; simpl; congruence. }
  rewrite Hsize. pose proof (Pos.size_le m) as Hs.
  apply Pos2Z.pos_le_pos in Hs. rewrite Pos2Z.inj_pow in Hs.
  set (d := Zpos (Pos.size m)) in *. assert (0 < d) by (unfold d; lia).
  assert (Hd : 2 ^ d = 2 * 2 ^ (d - 1)).
  { replace d with (1 + (d - 1)) at 1 by lia. rewrite Z.pow_add_r by lia. done. }
  lia.
Qed.

Lemma digits_ge (m : positive) (n : Z) :
  0 <= n -> 2 ^ n <= Zpos m -> n < Zpos (digits2_pos m).
Proof.
  intros Hn Hle.
  assert (Hsize : digits2_pos m = Pos.size m).
  { clear. induction m; simpl; congruence. }
  rewrite Hsize. pose proof (Pos.size_gt m) as Hs.
  apply Pos2Z.pos_lt_pos in Hs. rewrite Pos2Z.inj_pow in Hs.
  apply (Z.pow_lt_mono_r_iff 2); lia.
Qed.

(** Shifting out all but 53 digits leaves a positive mantissa. *)
Lemma shifted_mantissa_pos (m : positive) (k : Z) :
  0 <= k -> k <= Zpos (digits2_pos m) - 53 -> 0 < Zpos m / 2 ^ k.
Proof.
  intros Hk Hd. pose proof (digits_lower m) as Hlow.
  assert (0 < 2 ^ k) by (apply Z.pow_pos_nonneg; lia).
  apply Z.div_str_pos. split; [done|].
  apply Z.le_trans with (2 ^ (Zpos (digits2_pos m) - 1)); [|done].
  apply Z.pow_le_mono_r; lia.
Qed.

(** [float(z)] raises [OverflowError] from 2^1024 on. *)
Lemma float_of_int_overflow (z : Z) :
  2 ^ 1024 <= z -> Py.float_of_int z = Raise OverflowError.
Proof.
  intros Hz. destruct z as [|p|p]; try lia.
  pose proof (digits_ge p 1024 ltac:(lia) Hz) as Hd.
  unfold Py.float_of_int, binary_normalize, binary_round.
  assert (shl_align p 0 (fexp Py.prec Py.emax (Zpos (digits2_pos p) + 0)) = (p, 0)) as ->.
  { unfold shl_align, fexp, emin, Py.prec, Py.emax.
    destruct (Z.max (Zpos (digits2_pos p) + 0 - 53) (3 - 1024 - 53) - 0) eqn:E;
      try done; lia. }
  unfold binary_round_aux.
  destruct (shr_fexp_exact (Zpos p) 0 ltac:(lia)) as (k & mrs & Hk & -> & Hq & _ & Hkv).
  unfold fexp, emin, Py.prec, Py.emax in Hkv. simpl Zdigits2 in Hkv.
  assert (Hm1 : 0 < shr_m mrs).
  { rewrite Hq. apply shifted_mantissa_pos; lia. }
  set (m2 := round_nearest_even (shr_m mrs) (loc_of_shr_record mrs)).
  assert (Hm2 : 0 < m2).
  { unfold m2. destruct mrs as [m1 [|] [|]]; simpl in *; try lia.
    destruct (Z.even m1); lia. }
  destruct m2 as [|p2|p2] eqn:Em2; try lia.
  destruct (shr_fexp_exact (Zpos p2) (0 + k) ltac:(lia))
    as (k2 & mrs2 & Hk2 & -> & Hq2 & _ & Hkv2).
  unfold fexp, emin, Py.prec, Py.emax in Hkv2. simpl Zdigits2 in Hkv2.
  assert (Hm3 : 0 < shr_m mrs2).
  { rewrite Hq2. destruct (decide (k2 = 0)) as [->|].
    - rewrite Z.pow_0_r, Z.div_1_r. lia.
    - apply shifted_mantissa_pos; lia. }
  destruct (shr_m mrs2) as [|p3|p3]; try lia.
  destruct (Z.leb_spec (0 + k + k2) (Py.emax - Py.prec)) as [Hsmall|]; [|done].
  unfold Py.emax, Py.prec in Hsmall. lia.
Qed.

(** The growing search from a positive capacity ends within 1025 tests of
    its condition: it returns or raises [OverflowError]. *)
Lemma increase_terminates (fuel : nat) (lf : Py.float) (sz : Z) : forall prev : Z,
  0 < prev -> 2 ^ 1024 <= prev * 2 ^ Z.of_nat fuel ->
  define_potential_capacity_increase (S fuel) lf sz prev <> OutOfFuel.
Proof.
  induction fuel as [|fuel IH]; intros prev Hprev Hbig.
  - simpl. rewrite float_of_int_overflow by (simpl in Hbig; lia). done.
  - change (define_potential_capacity_increase (S (S fuel)) lf sz prev)
      with (let+ c := Py.float_of_int prev in
            if Py.float_lt_int (Py.float_mul c lf) sz
            then define_potential_capacity_increase (S fuel) lf sz (prev * 2)
            else Ok prev).
    destruct (Py.float_of_int prev) as [cf| |] eqn:Hcf; simpl; try done.
    + destruct (Py.float_lt_int _ _); [|done].
      apply IH; [lia|]. rewrite Nat2Z.inj_succ, Z.pow_succ_r in Hbig by lia. lia.
    + unfold Py.float_of_int, Py.overflow_check in Hcf.
      by destruct (binary_normalize _ _ _ _ _).
Qed.

(** More fuel does not change what the growing search returns. *)
Lemma increase_fuel_mono (fuel fuel' : nat) (lf : Py.float) (sz : Z) :
  forall (prev : Z) (r : result Z),
  (fuel <= fuel')%nat -> r <> OutOfFuel ->
  define_potential_capacity_increase fuel lf sz prev = r ->
  define_potential_capacity_increase fuel' lf sz prev = r.
Proof.
  revert fuel'. induction fuel as [|fuel IH]; intros fuel' prev r Hle Hr; simpl.
  - by intros <-.
  - destruct fuel' as [|fuel']; [lia|]. simpl.
    destruct (Py.float_of_int prev) as [cf| |]; simpl; try done.
    destruct (Py.float_lt_int _ _); [|done]. apply IH; [lia|done].
Qed.

End SearchTermination.

Section Construction.

Context {K V : Type} `{PyKey K}.

Implicit Types (d : Dictionary K V) (key : K) (e : entry K V).

Lemma keys_of_perm d d' (es : list (entry K V)) :
  concat (buckets d') ≡ₚ concat (buckets d) ++ es ->
  keys_of d' ≡ₚ keys_of d ++ (entry_key <$> es).
Proof. intros Hp. unfold keys_of. by rewrite Hp, fmap_app. Qed.

Lemma init_loop_fresh (kvs : list (K * V)) : forall d,
  wf d -> retrievable d ->
  (forall k k', k ∈ keys_of d -> k' ∈ kvs.*1 -> py_eq k k' = false) ->
  pairwise_ne (kvs.*1) ->
  (forall k, k ∈ kvs.*1 -> self_equal k) ->
  entry_count d + Z.of_nat (length kvs) <= capacity d ->
  exists d',
    init_loop kvs d = (Ok tt, d') /\
    wf d' /\ retrievable d' /\
    size d' = size d /\ capacity d' = capacity d /\ load_factor d' = load_factor d /\
    concat (buckets d') ≡ₚ concat (buckets d) ++ (entry_of <$> kvs).
Proof.
  induction kvs as [|[k1 v1] kvs IH]; intros d Hwf Hret Hnew Hdist Hself Hroom.
  - exists d. simpl. by rewrite app_nil_r.
  - rewrite fmap_cons in Hdist, Hself, Hnew.
    apply pairwise_ne_cons in Hdist as [Hdist Hk1]. simpl in Hroom.
    destruct (store_fresh_retrievable d k1 v1 Hwf Hret) as
      (d1 & Hstore & Hwf1 & Hret1 & Hs1 & Hc1 & Hlf1 & Hperm1).
    { intros k Hk. apply Hnew; [done|left]. }
    { apply Hself. left. }
    { lia. }
    pose proof (keys_of_perm _ _ _ Hperm1) as Hkeys1. simpl in Hkeys1.
    destruct (IH d1 Hwf1 Hret1) as (d' & Hloop & Hwf' & Hret' & Hs & Hc & Hlf & Hperm);
      [|done| | |].
    { intros k k' Hk Hk'. rewrite Hkeys1 in Hk. apply elem_of_app in Hk as [Hk|Hk].
      - apply Hnew; [done|by right].
      - apply list_elem_of_singleton in Hk as ->. by apply Hk1. }
    { intros k Hk. apply Hself. by right. }
    { unfold entry_count in *. rewrite Hperm1, length_app, Hc1. simpl. lia. }
    exists d'. split.
    { simpl. unfold bindM. by rewrite Hstore. }
    split; [done|]. split; [done|]. split; [congruence|]. split; [congruence|].
    split; [congruence|].
    rewrite Hperm, Hperm1, fmap_cons, <- app_assoc. done.
Qed.


End Construction.

Section Membership.

Context {K V : Type} `{PyKey K}.

Implicit Types (d : Dictionary K V) (key : K).

(** On a well-formed table a lookup returns a value or raises [KeyError]. *)
Lemma getitem_outcomes d key :
  wf d -> (exists v, __getitem__ d key = Ok v) \/ __getitem__ d key = Raise KeyError.
Proof.
  intros Hwf.
  destruct (get_bucket_index_cases d key Hwf) as [[Hr _]|(k & _ & Hr & _)].
  - right. unfold __getitem__. by rewrite Hr.
  - rewrite (getitem_spec d key _ Hwf Hr). destruct (find _ _); eauto.
Qed.

(** What holds of [key in d] on every table: the state is untouched and
    [KeyError] never escapes; on a well-formed table it returns a boolean
    that tells whether [d[key]] returns. *)
Lemma contains_spec d key :
  snd (__contains__ key d) = d /\
  fst (__contains__ key d) <> Raise KeyError /\
  (wf d ->
   exists b, fst (__contains__ key d) = Ok b /\
             (b = true <-> exists v, __getitem__ d key = Ok v)).
Proof.
  unfold __contains__. split; [|split].
  - by destruct (__getitem__ d key) as [v|[]|].
  - by destruct (__getitem__ d key) as [v|[]|].
  - intros Hwf. destruct (getitem_outcomes d key Hwf) as [[v Hv]|Hr]; rewrite ?Hv, ?Hr.
    + exists true. split; [done|]. split; eauto.
    + exists false. split; [done|]. split; [done|]. by intros [v Hv].
Qed.

End Membership.

Section Faithful.

Context {K V : Type} `{PyKey K}.

Implicit Types (d : Dictionary K V) (b : bucket K V) (bs : list (bucket K V)).
Implicit Types (key k : K) (e : entry K V).

(** Keys for which [==] is identity: no two different objects are equal,
    as among strings, or among integers. *)
Hypothesis eq_faithful : forall a b : K, py_eq a b = true <-> a = b.
Hypothesis type_refl : forall a : K, py_same_type a a = true.

Lemma faithful_self_equal k : self_equal k.
Proof. split; [by apply eq_faithful|apply type_refl]. Qed.

Lemma py_eq_false (a b : K) : a <> b -> py_eq a b = false.
Proof.
  intros Hne. destruct (py_eq a b) eqn:E; [|done]. by apply eq_faithful in E.
Qed.

Lemma NoDup_keys_entry (es : list (entry K V)) e1 e2 :
  NoDup (entry_key <$> es) -> e1 ∈ es -> e2 ∈ es ->
  entry_key e1 = entry_key e2 -> e1 = e2.
Proof.
  intros Hnd (i & Hi)%list_elem_of_lookup_1 (j & Hj)%list_elem_of_lookup_1 Hk.
  assert (i = j).
  { apply (NoDup_lookup _ i j (entry_key e1) Hnd).
    - by rewrite list_lookup_fmap, Hi.
    - by rewrite list_lookup_fmap, Hj, Hk. }
  congruence.
Qed.

Lemma find_key_elem key b e :
  find (fun e => py_eq (entry_key e) key) b = Some e ->
  e ∈ b /\ entry_key e = key.
Proof.
  intros [Hin Heq]%find_some. split; [by apply list_elem_of_In|].
  by apply eq_faithful.
Qed.

Lemma getitem_stored_1 d k (v : V) :
  wf d -> __getitem__ d k = Ok v -> stored d k v.
Proof.
  intros Hwf Hget.
  destruct (getitem_inv d k v Hwf Hget) as (j & e & _ & _ & Hfind & Hv).
  apply find_key_elem in Hfind as [Hin Hk].
  exists e. split; [by eapply elem_of_bucket_at_concat|done].
Qed.

Lemma getitem_stored d k (v : V) :
  consistent d -> __getitem__ d k = Ok v <-> stored d k v.
Proof.
  intros (Hwf & Hret & _). split; [by apply getitem_stored_1|].
  intros (e & He & <- & <-). by apply Hret.
Qed.

Lemma getitem_absent d k :
  wf d -> (forall v, ~ stored d k v) -> __getitem__ d k = Raise KeyError.
Proof.
  intros Hwf Habs. destruct (getitem_outcomes d k Hwf) as [[v Hv]|]; [|done].
  by apply getitem_stored_1, Habs in Hv.
Qed.

Lemma absent_not_stored d k :
  (forall v, ~ stored d k v) -> absent k d.
Proof.
  intros Habs k' Hk'. apply py_eq_false. intros ->.
  unfold keys_of in Hk'. apply list_elem_of_fmap in Hk' as (e & -> & He).
  apply (Habs (entry_value e)). by exists e.
Qed.

(** Rehashing a table without duplicate keys gives a consistent table with
    the same pairs. *)
Lemma rehash_consistent bs (c : Z) arr (lf : Py.float) (sz : Z) :
  0 < c -> NoDup (entry_key <$> concat bs) -> rehash bs c = Ok arr ->
  let d' := {| load_factor := lf; size := sz; capacity := c; buckets := arr |} in
  consistent d' /\
  (forall k (v : V), stored d' k v <->
     exists e, e ∈ concat bs /\ entry_key e = k /\ entry_value e = v).
Proof.
  intros Hc Hnd Hr d'.
  destruct (rehash_spec bs c Hc) as (arr' & Hr' & Hlen & _).
  assert (arr' = arr) as -> by congruence.
  pose proof (rehash_perm _ _ _ Hr) as Hperm.
  pose proof (keys_rehash _ _ _ Hr) as Hkeys.
  assert (Hwf : wf d') by (split; simpl; lia).
  assert (Hnd' : NoDup (keys_of d')) by (unfold keys_of; simpl; by rewrite Hkeys).
  split; [split; [done|split; [|done]]|].
  - intros e' He'. simpl in He'. pose proof He' as He''.
    rewrite Hperm in He''. apply list_elem_of_fmap in He'' as (e & -> & He).
    pose proof (rehash_at_home bs c arr e Hc Hr He) as Hhome.
    rewrite entry_key_refresh.
    assert (Hidx : _get_bucket_index d' (entry_key e) = Ok (home c (entry_key e))).
    { apply (get_bucket_index_at_home d'); [done| |apply faithful_self_equal].
      by exists (refresh e). }
    rewrite (getitem_spec d' _ _ Hwf Hidx). simpl.
    destruct (find _ _) as [e1|] eqn:Hfind.
    + apply find_key_elem in Hfind as [Hin Hk].
      apply elem_of_bucket_at_concat in Hin.
      assert (e1 = refresh e) as ->; [|done].
      by apply (NoDup_keys_entry (concat arr)).
    + apply list_elem_of_In in Hhome. apply (find_none _ _ Hfind) in Hhome.
      rewrite entry_key_refresh in Hhome.
      by rewrite (proj2 (eq_faithful _ _) eq_refl) in Hhome.
  - intros k v. unfold stored. simpl. split.
    + intros (e' & He' & Hk & Hv). rewrite Hperm in He'.
      apply list_elem_of_fmap in He' as (e & -> & He). by exists e.
    + intros (e & He & Hk & Hv). exists (refresh e). split; [|done].
      rewrite Hperm. by apply list_elem_of_fmap_2.
Qed.

(** Overwriting one entry of one bucket overwrites one entry of the
    table. *)
Lemma concat_insert_insert bs (j i : nat) b e0 new :
  bs !! j = Some b -> b !! i = Some e0 ->
  exists pos,
    concat bs !! pos = Some e0 /\
    concat (<[j := <[i := new]> b]> bs) = <[pos := new]> (concat bs).
Proof.
  revert j. induction bs as [|b0 bs IH]; intros j Hj Hi; [done|].
  destruct j as [|j]; simpl in *.
  - injection Hj as ->. exists i. pose proof (lookup_lt_Some _ _ _ Hi).
    split; [by apply lookup_app_l_Some|]. by rewrite insert_app_l.
  - destruct (IH j Hj Hi) as (pos & Hpos & Heq).
    exists (length b0 + pos)%nat. split.
    + by rewrite lookup_app_r, Nat.add_comm, Nat.add_sub by lia.
    + by rewrite Heq, insert_app_r.
Qed.

Lemma stopb_keys key b b' :
  entry_key <$> b = entry_key <$> b' -> stopb key b = stopb key b'.
Proof.
  revert b'. induction b as [|e b IH]; intros [|e' b'] Hk; try done.
  rewrite !fmap_cons in Hk. injection Hk as Hk1 Hk2.
  specialize (IH b' Hk2). unfold stopb in *. simpl.
  unfold key_matches at 1 3. rewrite Hk1. f_equal.
  destruct b, b'; try done.
Qed.

(** Two tables whose buckets stop the probe for [key] at the same places
    lead [key] to the same bucket. *)
Lemma get_bucket_index_ext d d' key :
  wf d -> wf d' -> capacity d' = capacity d ->
  (forall i, 0 <= i < capacity d ->
     stopb key (bucket_at (buckets d') i) = stopb key (bucket_at (buckets d) i)) ->
  _get_bucket_index d' key = _get_bucket_index d key.
Proof.
  intros Hwf Hwf' Hc Hsame.
  assert (Hinit : 0 <= home (capacity d) key < capacity d)
    by (apply Z.mod_pos_bound; apply Hwf).
  assert (Hst : forall o, stops_at d' key (home (capacity d) key) o =
                          stops_at d key (home (capacity d) key) o).
  { intros o. unfold stops_at, at_offset. rewrite Hc.
    apply Hsame. apply Z.mod_pos_bound, Hwf. }
  destruct (get_bucket_index_cases d key Hwf) as [[Hr Hno]|(k & Hk & Hr & Hs & Hno)];
    rewrite Hr.
  - destruct (get_bucket_index_cases d' key Hwf') as [[Hr' _]|(k' & Hk' & _ & Hs' & _)];
      [done|].
    rewrite Hc, Hst, Hno in Hs' by lia. done.
  - rewrite get_bucket_index_unfold by done. rewrite Hc.
    replace (at_offset d (home (capacity d) key) (Z.of_nat k))
      with (at_offset d' (home (capacity d) key) (0 + Z.of_nat k))
      by (unfold at_offset; by rewrite Hc).
    apply (probe_hit d' key (home (capacity d) key) Hwf' ltac:(by rewrite Hc) k 0);
      try lia.
    + intros i Hi. rewrite Hst. apply Hno. lia.
    + rewrite Hst. done.
Qed.

Lemma find_insert_first key b (i : nat) new :
  find_key key b = Some i -> py_eq (entry_key new) key = true ->
  find (fun e => py_eq (entry_key e) key) (<[i := new]> b) = Some new.
Proof.
  revert i. induction b as [|e b IH]; intros i; simpl; [done|].
  destruct (py_eq (entry_key e) key) eqn:E.
  - intros [= <-] Hnew. simpl. by rewrite Hnew.
  - destruct (find_key key b) as [i'|]; simpl; [|done].
    intros [= <-] Hnew. simpl. rewrite E. by apply IH.
Qed.

Lemma find_insert_other (P : entry K V -> bool) b (i : nat) e0 new :
  b !! i = Some e0 -> P e0 = false -> P new = false ->
  find P (<[i := new]> b) = find P b.
Proof.
  revert i. induction b as [|e b IH]; intros i; [done|].
  destruct i as [|i]; simpl.
  - intros [= ->] -> ->. done.
  - intros Hi H0 Hn. destruct (P e); [done|]. by apply IH.
Qed.

(** [store] of a key that is in the table overwrites its pair. *)
Lemma store_existing d k (v v_old : V) :
  consistent d -> stored d k v_old ->
  exists d',
    store k v d = (Ok true, d') /\
    consistent d' /\
    size d' = size d /\ capacity d' = capacity d /\ load_factor d' = load_factor d /\
    (forall k' v', stored d' k' v' <-> (k' = k /\ v' = v) \/ (k' <> k /\ stored d k' v')).
Proof.
  intros (Hwf & Hret & Hnd) Hst. pose proof Hwf as [Hc Hlen].
  pose proof (proj2 (getitem_stored d k v_old (conj Hwf (conj Hret Hnd))) Hst) as Hget.
  destruct (getitem_inv d k v_old Hwf Hget) as (j & e1 & Hidx & Hj & Hfind & _).
  set (b := bucket_at (buckets d) j) in *.
  apply find_key_elem in Hfind as [Hin1 Hk1].
  destruct (find_key_is_Some k b e1 Hin1) as [i Hi]; [by apply eq_faithful|].
  destruct (find_key_Some k b i Hi) as (e0 & Hi0 & Heq0).
  apply eq_faithful in Heq0.
  set (new := (k, v, py_hash k) : entry K V).
  set (bs' := <[Z.to_nat j := <[i := new]> b]> (buckets d)).
  assert (Hbj : buckets d !! Z.to_nat j = Some b) by (apply bucket_at_lookup; lia).
  destruct (concat_insert_insert (buckets d) (Z.to_nat j) i b e0 new Hbj Hi0)
    as (pos & Hpos & Hconcat). fold bs' in Hconcat.
  set (d' := with_buckets d bs').
  assert (Hwf' : wf d') by (split; [done|simpl; unfold bs'; by rewrite length_insert]).
  assert (Hkeys : keys_of d' = keys_of d).
  { unfold keys_of. simpl. rewrite Hconcat, list_fmap_insert.
    apply list_insert_id. rewrite list_lookup_fmap, Hpos.
    change (Some (entry_key e0) = Some k). by rewrite Heq0. }
  assert (Hbucket : forall ix, 0 <= ix < capacity d ->
            bucket_at bs' ix = if decide (ix = j) then <[i := new]> b
                               else bucket_at (buckets d) ix).
  { intros ix Hix. unfold bs'. by rewrite bucket_at_insert by lia. }
  assert (Hidx' : forall key, _get_bucket_index d' key = _get_bucket_index d key).
  { intros key. apply get_bucket_index_ext; try done.
    intros ix Hix. simpl. rewrite Hbucket by done. case_decide as E; [|done].
    subst ix. fold b. apply stopb_keys. rewrite list_fmap_insert.
    apply list_insert_id. rewrite list_lookup_fmap, Hi0.
    change (Some (entry_key e0) = Some k). by rewrite Heq0. }
  assert (Hnew : __getitem__ d' k = Ok v).
  { rewrite (getitem_spec d' k j Hwf') by (by rewrite Hidx').
    simpl. rewrite Hbucket by done. case_decide; [|done].
    rewrite (find_insert_first k b i new Hi); [done|by apply eq_faithful]. }
  assert (Hold : forall e, e ∈ concat (buckets d) -> entry_key e <> k ->
            __getitem__ d' (entry_key e) = Ok (entry_value e)).
  { intros e He Hne.
    destruct (getitem_inv d _ _ Hwf (Hret e He)) as (j' & e' & Hidx1 & Hj' & Hfind' & Hv').
    rewrite (getitem_spec d' _ j' Hwf') by (by rewrite Hidx').
    simpl. rewrite Hbucket by done. case_decide as E.
    - subst j'. fold b in Hfind'.
      rewrite (find_insert_other _ b i e0 new Hi0), Hfind', Hv'; try done.
      + apply py_eq_false. congruence.
      + apply py_eq_false. change (k <> entry_key e). congruence.
    - by rewrite Hfind', Hv'. }
  exists d'. split.
  { rewrite (store_spec d k v j Hidx) by lia. fold b. unfold place. rewrite Hi.
    by rewrite bool_decide_eq_true_2. }
  assert (Helem : forall e, e ∈ concat bs' <->
            e = new \/ (e ∈ concat (buckets d) /\ entry_key e <> k)).
  { intros e. rewrite Hconcat. split.
    - intros (p & Hp)%list_elem_of_lookup_1.
      apply list_lookup_insert_Some in Hp as [(-> & -> & _)|[Hne Hp]]; [by left|].
      right. split; [by eapply list_elem_of_lookup_2|]. intros Hk.
      apply Hne. apply (NoDup_lookup _ pos p k Hnd); unfold keys_of.
      + by rewrite list_lookup_fmap, Hpos, <- Heq0.
      + by rewrite list_lookup_fmap, Hp, <- Hk.
    - intros [->|[(p & Hp)%list_elem_of_lookup_1 Hne]].
      + apply (list_elem_of_lookup_2 _ pos). apply list_lookup_insert_eq.
        by eapply lookup_lt_Some.
      + apply (list_elem_of_lookup_2 _ p). rewrite list_lookup_insert_ne; [done|].
        intros <-. congruence. }
  split; [split; [done|split]|].
  - intros e He. apply Helem in He as [->|[He Hne]]; [done|by apply Hold].
  - by rewrite Hkeys.
  - split; [done|]. split; [done|]. split; [done|].
    intros k' v'. unfold stored. simpl. split.
    + intros (e & He & Hk & Hv). apply Helem in He as [->|[He Hne]].
      * left. by subst.
      * right. split; [congruence|]. by exists e.
    + intros [[-> ->]|[Hne (e & He & Hk & Hv)]].
      * exists new. split; [apply Helem; by left|done].
      * exists e. split; [|done]. apply Helem. right. split; [done|congruence].
Qed.

Lemma stored_dec d k :
  (exists v : V, stored d k v) \/ (forall v : V, ~ stored d k v).
Proof.
  destruct (existsb (fun e => py_eq (entry_key e) k) (concat (buckets d))) eqn:E.
  - left. apply existsb_exists in E as (e & He & Hk).
    exists (entry_value e), e. split; [by apply list_elem_of_In|].
    split; [by apply eq_faithful|done].
  - right. intros v (e & He & Hk & _).
    assert (existsb (fun e => py_eq (entry_key e) k) (concat (buckets d)) = true);
      [|congruence].
    apply existsb_exists. exists e. split; [by apply list_elem_of_In|].
    by apply eq_faithful.
Qed.

(** [store] of a key that is not in the table, when it returns. *)
Lemma store_absent d k (v : V) (r : bool) d' :
  consistent d -> (forall v', ~ stored d k v') ->
  store k v d = (Ok r, d') ->
  consistent d' /\
  size d' = size d /\ capacity d' = capacity d /\ load_factor d' = load_factor d /\
  (forall k' v', stored d' k' v' <-> (k' = k /\ v' = v) \/ (k' <> k /\ stored d k' v')).
Proof.
  intros (Hwf & Hret & Hnd) Habs Hstore.
  pose proof (absent_not_stored d k Habs) as Habs'.
  destruct (_get_bucket_index d k) as [j| |] eqn:Hidx;
    [|unfold store, bindM, read in Hstore; rewrite Hidx in Hstore; done..].
  destruct (store_fresh_retrievable_at d k v j Hwf Hret Habs' (faithful_self_equal k) Hidx)
    as (d'' & Hstore' & Hwf' & Hret' & Hs & Hc & Hlf & Hperm).
  assert (d'' = d') as -> by congruence.
  assert (Hnotin : k ∉ keys_of d).
  { intros Hin. unfold keys_of in Hin. apply list_elem_of_fmap in Hin as (e & Hk & He).
    apply (Habs (entry_value e)). by exists e. }
  split; [split; [done|split; [done|]]|].
  - rewrite (keys_of_perm _ _ _ Hperm). simpl. apply NoDup_app.
    split; [done|]. split; [|apply NoDup_singleton].
    intros x Hx Hx'. apply list_elem_of_singleton in Hx' as ->. done.
  - split; [done|]. split; [done|]. split; [done|].
    intros k' v'. unfold stored. split.
    + intros (e & He & Hk & Hv). rewrite Hperm in He.
      apply elem_of_app in He as [He|He];
        [|apply list_elem_of_singleton in He as ->; left; by subst].
      right. split; [|by exists e]. intros ->. apply Hnotin.
      unfold keys_of. rewrite <- Hk. by apply list_elem_of_fmap_2.
    + intros [[-> ->]|[Hne (e & He & Hk & Hv)]].
      * exists (k, v, py_hash k). split; [|done]. rewrite Hperm.
        apply elem_of_app. right. by apply list_elem_of_singleton.
      * exists e. split; [|done]. rewrite Hperm. apply elem_of_app. by left.
Qed.

Lemma store_consistent d k (v : V) (r : bool) d' :
  consistent d -> store k v d = (Ok r, d') ->
  consistent d' /\
  size d' = size d /\ capacity d' = capacity d /\ load_factor d' = load_factor d /\
  (forall k' v', stored d' k' v' <-> (k' = k /\ v' = v) \/ (k' <> k /\ stored d k' v')).
Proof.
  intros Hcons Hstore. destruct (stored_dec d k) as [[v_old Hst]|Habs].
  - destruct (store_existing d k v v_old Hcons Hst) as (d'' & Hstore' & Hrest).
    by assert (d'' = d') as -> by congruence.
  - by eapply store_absent.
Qed.

Lemma capacity_recalculation_consistent fuel d d' :
  consistent d -> _capacity_recalculation fuel false d = (Ok tt, d') ->
  consistent d' /\ size d' = size d /\ load_factor d' = load_factor d /\
  (forall k (v : V), stored d' k v <-> stored d k v).
Proof.
  intros (Hwf & Hret & Hnd). unfold _capacity_recalculation, bindM, read.
  destruct (Py.int_truediv (size d) (capacity d)) as [ratio| |]; simpl; try done.
  destruct (Py.float_ge ratio (load_factor d)).
  - unfold _resize, bindM, read, set_buckets, set_capacity. simpl.
    destruct (define_potential_capacity_increase _ _ _ _) as [c| |] eqn:Hsearch;
      simpl; try done.
    destruct (rehash (buckets d) c) as [arr| |] eqn:Hr; simpl; try done.
    intros [= <-].
    destruct (increase_exit _ _ _ _ _ (proj1 Hwf) Hsearch) as [Hc _].
    destruct (rehash_consistent (buckets d) c arr (load_factor d) (size d)) as [Hcons Hst];
      [destruct Hwf; lia|done|done|].
    split; [done|]. split; [done|]. split; [done|]. done.
  - intros [= <-]. unfold ret. done.
Qed.

Lemma getitem_with_size d (n : Z) key :
  wf d -> __getitem__ (with_size d n) key = __getitem__ d key.
Proof.
  intros Hwf. unfold __getitem__.
  by rewrite (get_bucket_index_ext d (with_size d n) key Hwf Hwf).
Qed.

Lemma consistent_with_size d (n : Z) : consistent d -> consistent (with_size d n).
Proof.
  intros (Hwf & Hret & Hnd). split; [done|]. split; [|done].
  intros e He. rewrite getitem_with_size by done. by apply Hret.
Qed.

(** [d[k] = v] on a consistent table, when it returns. *)
Lemma setitem_consistent fuel d k (v : V) d' :
  consistent d -> __setitem__ fuel k v d = (Ok tt, d') ->
  consistent d' /\ load_factor d' = load_factor d /\
  (forall k' v', stored d' k' v' <-> (k' = k /\ v' = v) \/ (k' <> k /\ stored d k' v')).
Proof.
  intros Hcons. unfold __setitem__, bindM, read, set_size. simpl.
  change {| load_factor := load_factor d; size := size d + 1;
            capacity := capacity d; buckets := buckets d |}
    with (with_size d (size d + 1)).
  assert (Hcons1 : consistent (with_size d (size d + 1)))
    by (by apply consistent_with_size).
  destruct (_capacity_recalculation fuel false _) as [[[]| |] d1] eqn:Hre; try done.
  destruct (capacity_recalculation_consistent fuel _ d1 Hcons1 Hre)
    as (Hcons2 & _ & Hlf1 & Hst1).
  destruct (store k v d1) as [[r| |] d2] eqn:Hstore; try done.
  intros [= <-].
  destruct (store_consistent d1 k v r d2 Hcons2 Hstore) as (Hcons3 & _ & _ & Hlf2 & Hst2).
  split; [done|]. split; [by rewrite Hlf2, Hlf1|].
  intros k' v'. rewrite Hst2. by setoid_rewrite Hst1.
Qed.

Lemma getitem_determined d d' k :
  consistent d -> consistent d' ->
  (forall v : V, stored d' k v <-> stored d k v) ->
  __getitem__ d' k = __getitem__ d k.
Proof.
  intros Hcons Hcons' Hst.
  destruct (getitem_outcomes d k (proj1 Hcons)) as [[v Hv]|Hr].
  - rewrite Hv. apply getitem_stored; [done|]. apply Hst. by apply getitem_stored.
  - rewrite Hr. apply getitem_absent; [apply Hcons'|].
    intros v Hv%Hst. apply (getitem_stored d k v Hcons) in Hv. congruence.
Qed.

(** X12. On keys for which [==] is identity, a script without deletions that
    runs to its end leaves a table in which [d[k]] returns the value of the
    last assignment to [k], and what it returned before the script for a
    key the script never assigned. *)
Theorem set_get_faithful fuel (ops : list (op K V)) : forall d0 d,
  consistent d0 ->
  forallb no_delete ops = true ->
  script fuel ops d0 = Ok d ->
  consistent d /\
  forall k, __getitem__ d k =
            match last_set ops k with
            | Some v => Ok v
            | None => __getitem__ d0 k
            end.
Proof.
  induction ops as [|o ops IH]; intros d0 d Hcons Hnd Hrun.
  - simpl in Hrun. injection Hrun as <-. done.
  - simpl in Hnd. apply andb_true_iff in Hnd as [Ho Hnd]. simpl in Hrun.
    assert (Hstep : exists d1,
      script fuel ops d1 = Ok d /\ consistent d1 /\
      forall k, __getitem__ d1 k =
                match o with
                | SetItem k0 v0 => if py_eq k0 k then Ok v0 else __getitem__ d0 k
                | _ => __getitem__ d0 k
                end).
    { destruct o as [k0 v0|k0|k0|k0| |]; simpl in Hrun; try done.
      - destruct (__setitem__ fuel k0 v0 d0) as [[[]| |] d1] eqn:Hset; try done.
        destruct (setitem_consistent fuel d0 k0 v0 d1 Hcons Hset) as (Hcons1 & _ & Hst).
        exists d1. split; [done|]. split; [done|]. intros k.
        destruct (py_eq k0 k) eqn:E.
        + apply eq_faithful in E as <-. apply getitem_stored; [done|].
          apply Hst. by left.
        + apply getitem_determined; try done. intros v. rewrite Hst.
          split; [intros [[-> _]|[_ ?]]; [|done]|intros ?; right; split; [|done]].
          * by rewrite (proj2 (eq_faithful k0 k0) eq_refl) in E.
          * intros ->. by rewrite (proj2 (eq_faithful k0 k0) eq_refl) in E.
      - exists d0. split; [|done]. by destruct (__getitem__ d0 k0).
      - exists d0. split; [|done]. unfold __contains__ in Hrun.
        by destruct (__getitem__ d0 k0) as [v|[]|].
      - by exists d0.
      - by exists d0. }
    destruct Hstep as (d1 & Hrun1 & Hcons1 & Hget1).
    destruct (IH d1 d Hcons1 Hnd Hrun1) as [Hcons' Hget]. split; [done|].
    intros k. rewrite Hget. simpl. destruct (last_set ops k); [done|].
    rewrite Hget1. destruct o; try done. by destruct (py_eq key k).
Qed.

End Faithful.

Section Defects.

Variable str_hash : string -> Z.

Let keys : PyKey pykey := pykey_PyKey str_hash.
#[local] Existing Instance keys.

(** C1. [d[10] = "value1"; d[10.0] = "value2"], then four more
    assignments on [Dictionary()]: the table grows, the rehash puts the
    integer and the float in one bucket, and [d[10.0]] returns "value1",
    the value stored under the integer key, although the pair
    [(10.0, "value2")] is still stored. *)
Theorem float_key_reads_int_value :
  observe str_hash 64 mixed_keys_script
    (fun d => (__getitem__ d (KInt 10), __getitem__ d (KFloat ten_float), __iter__ d)) =
  Ok (Ok "value1", Ok "value1",
      [ (KInt 1, "a"); (KInt 4, "b"); (KInt 5, "c"); (KInt 6, "d");
        (KInt 10, "value1"); (KFloat ten_float, "value2") ])%string.
Proof. vm_compute. reflexivity. Qed.

(** C4. No deletion anywhere: after the script of C1, [d[10.0] = "value3"]
    overwrites the entry of the integer key, and [d[10]] raises
    [KeyError] although [d[10] = "value1"] was executed. *)
Theorem set_get_loses_key :
  observe str_hash 64 overwrite_script
    (fun d => (__getitem__ d (KInt 10), __getitem__ d (KFloat ten_float), __iter__ d)) =
  Ok (Raise KeyError, Ok "value3",
      [ (KInt 1, "a"); (KInt 4, "b"); (KInt 5, "c"); (KInt 6, "d");
        (KFloat ten_float, "value3"); (KFloat ten_float, "value2") ])%string.
Proof. vm_compute. reflexivity. Qed.

(** C2. [d[1] = "value1"; d[1] = "new_value1"] on [Dictionary()]: one
    entry is stored and [len(d)] is 2. *)
Theorem update_inflates_len :
  observe str_hash 64 update_script
    (fun d => (__iter__ d, entry_count d, __len__ d)) =
  Ok ([ (KInt 1, "new_value1"%string) ], 1, 2).
Proof. vm_compute. reflexivity. Qed.

(** C3. [d[1] = "value1"; del d[1]] on [Dictionary()]: both statements
    return; the shrinking search halves as long as half the capacity times
    the load factor exceeds the size, here 0, so it stops only when the
    product underflows, and the capacity it returns is 0. *)
Theorem delete_last_key_zero_capacity :
  observe str_hash 2048 insert_delete_script (fun d => (capacity d, d)) =
  Ok (0, drained).
Proof. vm_compute. reflexivity. Qed.

(** C6. On the table the script of C3 leaves, [d[2] = "x"] raises
    [ZeroDivisionError] (from [self.size / self.capacity]), the size
    counter already incremented. *)
Theorem setitem_raises_on_drained :
  observe str_hash 2048 insert_delete_script
    (fun d => __setitem__ 2048 (KInt 2) "x"%string d) =
  Ok (Raise ZeroDivisionError, with_size drained 1).
Proof. vm_compute. reflexivity. Qed.

(** C9. On the table the script of C3 leaves, [1 in d] raises
    [ZeroDivisionError] (from [hash_value % self.capacity]) instead of
    returning a boolean. *)
Theorem contains_raises_on_drained :
  observe str_hash 2048 insert_delete_script
    (fun d => __contains__ (KInt 1) d) =
  Ok (Raise ZeroDivisionError, drained).
Proof. vm_compute. reflexivity. Qed.

End Defects.

(** * Outcomes, effects and round trips of the methods *)

Section Outcomes.

Context {K V : Type} `{PyKey K}.

Implicit Types (d : Dictionary K V) (b : bucket K V) (bs : list (bucket K V)).
Implicit Types (key : K) (e : entry K V).

(** [l[i]] and [l[i] = y] mean the same position of [l]. *)
Lemma getitem_position {A : Type} (l : list A) (i : Z) (x : A) :
  Py.getitem l i = Ok x ->
  exists n, l !! n = Some x /\ (0 <= i -> n = Z.to_nat i) /\
            forall y, Py.setitem l i y = Ok (<[n := y]> l).
Proof.
  unfold Py.getitem, Py.setitem.
  destruct (_ && _); [|done].
  destruct (l !! _) eqn:E; [|done]. intros [= <-].
  eexists. split; [done|]. split; [|done].
  intros Hi. destruct (Z.ltb_spec i 0); [lia|done].
Qed.

(** [_resize] assigns nothing unless the search and the rehash return. *)
Lemma resize_outcomes fuel smaller d :
  (exists c arr,
     searched_capacity fuel smaller d = Ok c /\ rehash (buckets d) c = Ok arr /\
     _resize fuel smaller d =
       (Ok tt, {| load_factor := load_factor d; size := size d;
                  capacity := c; buckets := arr |})) \/
  (exists r, r <> Ok tt /\ _resize fuel smaller d = (r, d)).
Proof.
  unfold _resize, searched_capacity, bindM, read, set_buckets, set_capacity.
  destruct smaller.
  - destruct (define_potential_capacity_decrease _ _ _ _) as [c| |]; simpl;
      [|right; eexists; split; [|done]; done..].
    destruct (rehash (buckets d) c) as [arr| |] eqn:Harr; simpl;
      [|right; eexists; split; [|done]; done..].
    left. by exists c, arr.
  - destruct (define_potential_capacity_increase _ _ _ _) as [c| |]; simpl;
      [|right; eexists; split; [|done]; done..].
    destruct (rehash (buckets d) c) as [arr| |] eqn:Harr; simpl;
      [|right; eexists; split; [|done]; done..].
    left. by exists c, arr.
Qed.

Lemma capacity_recalculation_outcomes fuel d :
  (exists r, _capacity_recalculation fuel false d = (r, d)) \/
  (exists c arr,
     define_potential_capacity_increase fuel (load_factor d) (size d) (capacity d) = Ok c /\
     rehash (buckets d) c = Ok arr /\
     _capacity_recalculation fuel false d =
       (Ok tt, {| load_factor := load_factor d; size := size d;
                  capacity := c; buckets := arr |})).
Proof.
  unfold _capacity_recalculation, bindM, read.
  destruct (Py.int_truediv (size d) (capacity d)) as [ratio| |]; simpl;
    [|left; by eexists..].
  destruct (Py.float_ge ratio (load_factor d)); [|left; by eexists].
  destruct (resize_outcomes fuel false d) as [(c & arr & Hc & Harr & ->)|(r & _ & ->)].
  - right. by exists c, arr.
  - left. by exists r.
Qed.

(** [store] changes one bucket, or nothing when it raises. *)
Lemma store_outcomes key (value : V) d :
  (exists r, (forall x, r <> Ok x) /\ store key value d = (r, d)) \/
  (exists (j : Z) (n : nat) b,
     _get_bucket_index d key = Ok j /\ buckets d !! n = Some b /\
     (0 <= j -> n = Z.to_nat j) /\
     store key value d =
       (Ok (bool_decide (is_Some (find_key key b))),
        with_buckets d (<[n := place key value b]> (buckets d)))).
Proof.
  unfold store, bindM, read.
  destruct (_get_bucket_index d key) as [j| |] eqn:Hj; simpl;
    [|left; eexists; split; [|done]; done..].
  destruct (Py.getitem (buckets d) j) as [b| |] eqn:Hb; simpl;
    [|left; eexists; split; [|done]; done..].
  destruct (getitem_position _ _ _ Hb) as (n & Hn & Hnj & Hset).
  right. exists j, n, b. split; [done|]. split; [done|]. split; [done|].
  unfold place.
  destruct (find_key key b) as [i|]; simpl; rewrite Hset; done.
Qed.

(** The growing search returns the capacity it started from, doubled some
    number of times. *)
Lemma increase_doubles (fuel : nat) (lf : Py.float) (sz : Z) : forall prev c : Z,
  define_potential_capacity_increase fuel lf sz prev = Ok c ->
  exists k : nat, c = prev * 2 ^ Z.of_nat k.
Proof.
  induction fuel as [|fuel IH]; intros prev c; simpl; [done|].
  destruct (Py.float_of_int prev) as [cf| |]; simpl; try done.
  destruct (Py.float_lt_int _ _).
  - intros (k & ->)%IH. exists (S k).
    rewrite Nat2Z.inj_succ, Z.pow_succ_r by lia. lia.
  - intros [= <-]. exists O. simpl. lia.
Qed.

Lemma permutation_insert_delete {A : Type} (l : list A) (i : nat) (x y : A) :
  l !! i = Some x -> <[i := y]> l ≡ₚ y :: delete i l.
Proof.
  intros Hi. pose proof (lookup_lt_Some _ _ _ Hi).
  rewrite insert_take_drop, delete_take_drop by done.
  by rewrite Permutation_middle.
Qed.

Lemma concat_insert_perm bs (n : nat) b b' :
  bs !! n = Some b ->
  exists rest, concat bs ≡ₚ b ++ rest /\ concat (<[n := b']> bs) ≡ₚ b' ++ rest.
Proof.
  intros Hn. pose proof (lookup_lt_Some _ _ _ Hn).
  exists (concat (take n bs) ++ concat (drop (S n) bs)). split.
  - rewrite <- (take_drop_middle bs n b Hn) at 1.
    rewrite concat_app, concat_cons. apply Permutation_app_swap_app.
  - rewrite insert_take_drop by done. rewrite concat_app, concat_cons.
    apply Permutation_app_swap_app.
Qed.

End Outcomes.

Section Effects.

Context {K V : Type} `{PyKey K}.

Implicit Types (d : Dictionary K V) (b : bucket K V) (bs : list (bucket K V)).
Implicit Types (key : K) (e : entry K V).

(** [__setitem__], whatever its outcome: the counter is incremented, the
    table is perhaps rehashed into a larger array, and one bucket is
    changed if no statement raised. *)
Lemma setitem_state fuel key (value : V) d :
  exists d1,
    recalculated fuel d d1 /\
    ((exists r, r <> Ok tt /\ __setitem__ fuel key value d = (r, d1)) \/
     (exists (j : Z) (n : nat) b,
        _get_bucket_index d1 key = Ok j /\ buckets d1 !! n = Some b /\
        (0 <= j -> n = Z.to_nat j) /\
        __setitem__ fuel key value d =
          (Ok tt, with_buckets d1 (<[n := place key value b]> (buckets d1))))).
Proof.
  unfold __setitem__, bindM, read, set_size. simpl.
  change {| load_factor := load_factor d; size := size d + 1;
            capacity := capacity d; buckets := buckets d |}
    with (with_size d (size d + 1)).
  destruct (capacity_recalculation_outcomes fuel (with_size d (size d + 1)))
    as [(r & ->)|(c & arr & Hc & Harr & ->)].
  - exists (with_size d (size d + 1)). split; [by left|].
    destruct r as [[]| |]; [|left; eexists; split; [|done]; done..].
    destruct (store_outcomes key value (with_size d (size d + 1)))
      as [(r & Hr & ->)|(j & n & b & Hj & Hn & Hnj & ->)].
    + left. exists (match r with Ok _ => Ok tt | Raise e => Raise e | OutOfFuel => OutOfFuel end).
      destruct r as [x| |]; [by destruct (Hr x)|done..].
    + right. by exists j, n, b.
  - simpl in *. eexists. split; [right; by exists c, arr|].
    set (d1 := {| load_factor := load_factor d; size := size d + 1;
                  capacity := c; buckets := arr |}).
    destruct (store_outcomes key value d1)
      as [(r & Hr & ->)|(j & n & b & Hj & Hn & Hnj & ->)].
    + left. exists (match r with Ok _ => Ok tt | Raise e => Raise e | OutOfFuel => OutOfFuel end).
      destruct r as [x| |]; [by destruct (Hr x)|done..].
    + right. by exists j, n, b.
Qed.

(** A view of the entries that does not look at the cached hash is not
    changed by [refresh]. *)
Lemma map_refresh {A : Type} (f : entry K V -> A) (es : list (entry K V)) :
  (forall e, f (refresh e) = f e) -> map f (refresh <$> es) = map f es.
Proof.
  intros Hf. induction es as [|e es IH]; simpl; [done|].
  f_equal; [apply Hf|exact IH].
Qed.

Lemma recalculated_fields fuel d d1 :
  recalculated fuel d d1 ->
  size d1 = size d + 1 /\ load_factor d1 = load_factor d /\
  (forall (A : Type) (f : entry K V -> A), (forall e, f (refresh e) = f e) ->
     map f (concat (buckets d1)) ≡ₚ map f (concat (buckets d))) /\
  (wf d -> wf d1 /\ exists k : nat, capacity d1 = capacity d * 2 ^ Z.of_nat k).
Proof.
  intros [->|(c & arr & Hc & Harr & ->)]; simpl.
  - split; [done|]. split; [done|]. split; [done|].
    intros Hwf. split; [done|]. exists O. simpl. lia.
  - split; [done|]. split; [done|]. split.
    + intros A f Hf. rewrite <- (map_refresh f (concat (buckets d)) Hf).
      apply Permutation_map. by apply rehash_perm with c.
    + intros [Hcap Hlen].
      destruct (increase_doubles _ _ _ _ _ Hc) as [k Hk]. 
      assert (0 < c).
      { rewrite Hk. apply Z.mul_pos_pos; [done|]. apply Z.pow_pos_nonneg; lia. }
      split; [|by exists k].
      split; [done|]. simpl.
      destruct (rehash_spec (buckets d) c) as (arr' & Harr' & Hlen' & _); [done|].
      assert (arr' = arr) as -> by congruence. lia.
Qed.


(** The entries after an assignment that returned, seen through any view
    [f] that does not look at the cached hash: the new entry is added, or
    it has taken the place of an entry whose key is [==] to the new key. *)
Lemma setitem_entries fuel key (value : V) d d' :
  __setitem__ fuel key value d = (Ok tt, d') ->
  (forall (A : Type) (f : entry K V -> A), (forall e, f (refresh e) = f e) ->
     map f (concat (buckets d')) ≡ₚ
     f (key, value, py_hash key) :: map f (concat (buckets d))) \/
  (exists e,
     py_eq (entry_key e) key = true /\
     forall (A : Type) (f : entry K V -> A), (forall e, f (refresh e) = f e) ->
       exists rest,
         map f (concat (buckets d)) ≡ₚ f e :: rest /\
         map f (concat (buckets d')) ≡ₚ f (key, value, py_hash key) :: rest).
Proof.
  intros Hset.
  destruct (setitem_state fuel key value d) as (d1 & Hd1 & Hcases).
  destruct (recalculated_fields fuel d d1 Hd1) as (_ & _ & Hiter & _).
  destruct Hcases as [(r & Hr & Hset')|(j & n & b & _ & Hn & _ & Hset')];
    rewrite Hset' in Hset.
  { injection Hset as -> _. done. }
  injection Hset as <-. simpl.
  destruct (concat_insert_perm (buckets d1) n b (place key value b) Hn)
    as (rest & Hold & Hnew).
  unfold place in *. destruct (find_key key b) as [i|] eqn:Hfind.
  - destruct (find_key_Some key b i Hfind) as (e & Hi & Heq).
    right. exists e. split; [done|]. intros A f Hf.
    exists (map f (delete i b ++ rest)). split.
    + rewrite <- (Hiter A f Hf). rewrite <- map_cons. apply Permutation_map.
      rewrite Hold.
      exact (Permutation_app_tail rest (delete_Permutation b i e Hi)).
    + rewrite <- map_cons. apply Permutation_map. rewrite Hnew.
      exact (Permutation_app_tail rest (permutation_insert_delete b i e _ Hi)).
  - left. intros A f Hf. rewrite <- (Hiter A f Hf).
    rewrite <- map_cons. apply Permutation_map. rewrite Hnew, Hold.
    rewrite <- app_assoc. rewrite (Permutation_app_comm [_] rest).
    rewrite app_assoc. by rewrite <- Permutation_cons_append.
Qed.

Lemma pair_refresh (e : entry K V) :
  (entry_key (refresh e), entry_value (refresh e)) = (entry_key e, entry_value e).
Proof. done. Qed.

(** X1. Every call of [__setitem__] adds one to the [size] counter, whether
    it appends a pair, overwrites one or raises; the load factor is never
    touched. *)
Theorem setitem_counts_every_call fuel key (value : V) d :
  size (__setitem__ fuel key value d).2 = size d + 1 /\
  load_factor (__setitem__ fuel key value d).2 = load_factor d.
Proof.
  destruct (setitem_state fuel key value d) as (d1 & Hd1 & Hcases).
  destruct (recalculated_fields fuel d d1 Hd1) as (Hsz & Hlf & _).
  destruct Hcases as [(r & _ & ->)|(j & n & b & _ & _ & _ & ->)]; simpl; done.
Qed.

(** X2. On a table with a positive capacity and as many buckets,
    [__setitem__] leaves such a table, whatever its outcome, and the
    capacity it leaves is the old one doubled some number of times. *)
Theorem setitem_keeps_wf fuel key (value : V) d :
  wf d ->
  wf (__setitem__ fuel key value d).2 /\
  exists k : nat,
    capacity (__setitem__ fuel key value d).2 = capacity d * 2 ^ Z.of_nat k.
Proof.
  intros Hwf.
  destruct (setitem_state fuel key value d) as (d1 & Hd1 & Hcases).
  destruct (recalculated_fields fuel d d1 Hd1) as (_ & _ & _ & Hwf1).
  destruct (Hwf1 Hwf) as [[Hc1 Hlen1] Hk].
  destruct Hcases as [(r & _ & ->)|(j & n & b & _ & _ & _ & ->)]; simpl.
  - done.
  - split; [|done]. split; [done|]. simpl. by rewrite length_insert.
Qed.

(** X3. When [__setitem__] returns, the pairs of the table are the old ones
    with the new pair added, or with the new pair in the place of one old
    pair whose key is [==] to the new key. *)
Theorem setitem_changes_one_pair fuel key (value : V) d d' :
  __setitem__ fuel key value d = (Ok tt, d') ->
  __iter__ d' ≡ₚ (key, value) :: __iter__ d \/
  exists k v rest,
    py_eq k key = true /\
    __iter__ d ≡ₚ (k, v) :: rest /\ __iter__ d' ≡ₚ (key, value) :: rest.
Proof.
  intros Hset.
  destruct (setitem_entries fuel key value d d' Hset) as [Hadd|(e & Heq & Hrep)].
  - left. apply (Hadd _ (fun e => (entry_key e, entry_value e)) pair_refresh).
  - right.
    destruct (Hrep _ (fun e => (entry_key e, entry_value e)) pair_refresh)
      as (rest & Hold & Hnew).
    by exists (entry_key e), (entry_value e), rest.
Qed.

End Effects.

Section RoundTrips.

Context {K V : Type} `{PyKey K}.

Implicit Types (d : Dictionary K V) (b : bucket K V) (bs : list (bucket K V)).
Implicit Types (key : K) (e : entry K V).

Lemma find_key_None_app key b e :
  find_key key b = None -> py_eq (entry_key e) key = true ->
  find (fun e => py_eq (entry_key e) key) (b ++ [e]) = Some e.
Proof.
  intros Hnone He. induction b as [|e0 b IH]; simpl in *.
  - by rewrite He.
  - destruct (py_eq (entry_key e0) key); [done|].
    apply IH. by destruct (find_key key b).
Qed.

Lemma find_place key (value : V) b :
  py_eq key key = true ->
  find (fun e => py_eq (entry_key e) key) (place key value b) =
  Some (key, value, py_hash key).
Proof.
  intros Heq. unfold place. destruct (find_key key b) as [i|] eqn:Hfind.
  - by apply find_insert_first.
  - by apply find_key_None_app.
Qed.

Lemma stopb_place key (value : V) b :
  self_equal key -> stopb key (place key value b) = true.
Proof.
  intros [Heq Hty]. apply stopb_spec. right.
  exists (key, value, py_hash key). split; [|done].
  unfold place. destruct (find_key key b) as [i|] eqn:Hfind.
  - destruct (find_key_Some key b i Hfind) as (e & Hi & _).
    apply list_elem_of_lookup. exists i.
    apply list_lookup_insert_eq. by eapply lookup_lt_Some.
  - apply elem_of_app. right. by apply list_elem_of_singleton.
Qed.

(** X4. What [d[key] = value] stored is what [d[key]] returns next, for a
    key that is equal to itself. *)
Theorem setitem_then_getitem fuel key (value : V) d d' :
  wf d -> self_equal key ->
  __setitem__ fuel key value d = (Ok tt, d') ->
  __getitem__ d' key = Ok value /\ __contains__ key d' = (Ok true, d').
Proof.
  intros Hwf Hself Hset.
  assert (Hget : __getitem__ d' key = Ok value);
    [|split; [done|]; unfold __contains__; by rewrite Hget].
  destruct (setitem_state fuel key value d) as (d1 & Hd1 & Hcases).
  destruct (recalculated_fields fuel d d1 Hd1) as (_ & _ & _ & Hwf1).
  destruct (Hwf1 Hwf) as [Hwf1' _]. clear Hwf1.
  destruct Hcases as [(r & Hr & Hset')|(j & n & b & Hj & Hn & Hnj & Hset')];
    rewrite Hset' in Hset.
  { injection Hset as -> _. done. }
  injection Hset as <-.
  pose proof (get_bucket_index_range d1 key j Hwf1' Hj) as Hrange.
  rewrite Hnj in * by lia. clear Hnj.
  assert (Hlen : Z.of_nat (length (buckets d1)) = capacity d1) by apply Hwf1'.
  assert (Hb : bucket_at (buckets d1) j = b).
  { unfold bucket_at. by rewrite Hn. }
  set (d2 := with_buckets d1 (<[Z.to_nat j := place key value b]> (buckets d1))).
  assert (Hwf2 : wf d2).
  { split; [apply Hwf1'|]. simpl. rewrite length_insert. done. }
  assert (Hj2 : _get_bucket_index d2 key = Ok j).
  { rewrite <- Hj. apply get_bucket_index_ext; try done.
    intros i Hi. simpl. rewrite bucket_at_insert by lia.
    destruct (decide (i = j)) as [->|]; [|done].
    rewrite Hb, stopb_place by done.
    symmetry. by apply (get_bucket_index_stops d1 key j) in Hj as Hstop;
      [rewrite Hb in Hstop|]. }
  rewrite (getitem_spec d2 key j Hwf2 Hj2). simpl.
  rewrite bucket_at_insert by lia. rewrite decide_True by done.
  rewrite find_place by apply Hself. done.
Qed.

End RoundTrips.

Section MissingKeys.

Context {K V : Type} `{PyKey K}.

Implicit Types (d : Dictionary K V) (b : bucket K V) (bs : list (bucket K V)).
Implicit Types (key : K) (e : entry K V).

Lemma absent_find key d (j : Z) :
  absent key d ->
  find (fun e => py_eq (entry_key e) key) (bucket_at (buckets d) j) = None /\
  find_key key (bucket_at (buckets d) j) = None.
Proof.
  intros Habs.
  assert (Hno : forall e, e ∈ bucket_at (buckets d) j -> py_eq (entry_key e) key = false).
  { intros e He. apply Habs. unfold keys_of.
    apply list_elem_of_fmap. exists e. split; [done|].
    by apply elem_of_bucket_at_concat with j. }
  split.
  - destruct (find _ _) as [e|] eqn:Hf; [|done].
    apply find_some in Hf as [Hin Heq]. apply list_elem_of_In in Hin.
    by rewrite (Hno e Hin) in Heq.
  - destruct (find_key _ _) as [i|] eqn:Hf; [|done].
    destruct (find_key_Some _ _ _ Hf) as (e & Hi & Heq).
    apply list_elem_of_lookup_2 in Hi. by rewrite (Hno e Hi) in Heq.
Qed.

Lemma get_bucket_index_outcomes d key :
  wf d ->
  (exists j, 0 <= j < capacity d /\ _get_bucket_index d key = Ok j) \/
  _get_bucket_index d key = Raise KeyError.
Proof.
  intros Hwf.
  destruct (get_bucket_index_cases d key Hwf) as [[Hr _]|(k & Hk & Hr & _)].
  - by right.
  - left. eexists. split; [|done]. by apply at_offset_range.
Qed.

Lemma absent_getitem key d :
  wf d -> absent key d -> __getitem__ d key = Raise KeyError.
Proof.
  intros Hwf Habs.
  destruct (get_bucket_index_outcomes d key Hwf) as [(j & Hj & Hr)|Hr].
  - rewrite (getitem_spec d key j Hwf Hr).
    by rewrite (proj1 (absent_find key d j Habs)).
  - unfold __getitem__. by rewrite Hr.
Qed.

(** X5. A key that no stored key is [==] to: [d[key]] and [del d[key]] raise
    [KeyError], [key in d] is [False], and none of them changes the
    table. *)
Theorem missing_key_raises fuel key d :
  wf d -> absent key d ->
  __getitem__ d key = Raise KeyError /\
  __contains__ key d = (Ok false, d) /\
  __delitem__ fuel key d = (Raise KeyError, d).
Proof.
  intros Hwf Habs.
  pose proof (absent_getitem key d Hwf Habs) as Hget.
  split; [done|]. split; [unfold __contains__; by rewrite Hget|].
  unfold __delitem__, bindM, read, raise.
  destruct (get_bucket_index_outcomes d key Hwf) as [(j & Hj & Hr)|Hr];
    rewrite Hr; simpl; [|done].
  destruct Hwf as [Hc Hlen].
  rewrite getitem_bucket_at by lia. simpl.
  by rewrite (proj2 (absent_find key d j Habs)).
Qed.

(** X6. On a table with a positive capacity and as many buckets, [key in d]
    returns a boolean, [True] exactly when [d[key]] returns a value, and
    leaves the table as it is. *)
Theorem contains_agrees_with_getitem key d :
  wf d ->
  exists b : bool,
    __contains__ key d = (Ok b, d) /\
    (b = true <-> exists v, __getitem__ d key = Ok v).
Proof.
  intros Hwf. unfold __contains__.
  destruct (getitem_outcomes d key Hwf) as [[v ->]| ->].
  - exists true. split; [done|]. split; [by exists v|done].
  - exists false. split; [done|]. split; [done|]. by intros [v ?].
Qed.

(** X7. On a table whose capacity is 0 every access raises
    [ZeroDivisionError]; the assignment has incremented [size] before. *)
Theorem zero_capacity_raises fuel key (value : V) d :
  capacity d = 0 ->
  __getitem__ d key = Raise ZeroDivisionError /\
  __contains__ key d = (Raise ZeroDivisionError, d) /\
  __delitem__ fuel key d = (Raise ZeroDivisionError, d) /\
  __setitem__ fuel key value d = (Raise ZeroDivisionError, with_size d (size d + 1)).
Proof.
  intros Hc.
  assert (Hj : _get_bucket_index d key = Raise ZeroDivisionError).
  { unfold _get_bucket_index, Py.mod_. by rewrite Hc. }
  assert (Hget : __getitem__ d key = Raise ZeroDivisionError).
  { unfold __getitem__. by rewrite Hj. }
  split; [done|]. split; [unfold __contains__; by rewrite Hget|].
  split.
  - unfold __delitem__, bindM, read. by rewrite Hj.
  - unfold __setitem__, _capacity_recalculation, bindM, read, set_size,
      Py.int_truediv, with_size. simpl. by rewrite Hc.
Qed.

End MissingKeys.

Section Deletion.

Context {K V : Type} `{PyKey K}.

Implicit Types (d : Dictionary K V) (b : bucket K V) (bs : list (bucket K V)).
Implicit Types (key : K) (e : entry K V).

(** [del d[key]] that returned: one entry left its bucket, the counter
    went down by one, and the table was perhaps rehashed into the array
    the shrinking search asked for. *)
Lemma delitem_ok_inv fuel key d d' :
  __delitem__ fuel key d = (Ok tt, d') ->
  exists (n i : nat) b e,
    buckets d !! n = Some b /\ b !! i = Some e /\
    py_eq (entry_key e) key = true /\
    let bs1 := <[n := delete i b]> (buckets d) in
    (d' = {| load_factor := load_factor d; size := size d - 1;
             capacity := capacity d; buckets := bs1 |} \/
     exists c arr,
       define_potential_capacity_decrease fuel (load_factor d) (size d - 1)
         (Py.Int (capacity d)) = Ok c /\
       rehash bs1 c = Ok arr /\
       d' = {| load_factor := load_factor d; size := size d - 1;
               capacity := c; buckets := arr |}).
Proof.
  unfold __delitem__, bindM, read, raise.
  destruct (_get_bucket_index d key) as [j| |]; simpl; try done.
  destruct (Py.getitem (buckets d) j) as [b| |] eqn:Hb; simpl; try done.
  destruct (getitem_position _ _ _ Hb) as (n & Hn & _ & Hset).
  destruct (find_key key b) as [i|] eqn:Hfind; [|done].
  destruct (find_key_Some key b i Hfind) as (e & Hi & Heq).
  rewrite Hset. unfold set_buckets, set_size. simpl.
  intros Hres. exists n, i, b, e. split; [done|]. split; [done|]. split; [done|].
  simpl. destruct (size d - 1 <? capacity d / 4).
  - set (d1 := {| load_factor := load_factor d; size := size d - 1;
                  capacity := capacity d;
                  buckets := <[n := delete i b]> (buckets d) |}) in *.
    destruct (resize_outcomes fuel true d1)
      as [(c & arr & Hc & Harr & Hr)|(r & Hr & Hr')]; rewrite ?Hr, ?Hr' in Hres.
    + injection Hres as <-. right. by exists c, arr.
    + injection Hres as -> _. done.
  - injection Hres as <-. by left.
Qed.

(** The entries after a deletion that returned, seen through any view
    that does not look at the cached hash. *)
Lemma delitem_entries fuel key d d' {A : Type} (f : entry K V -> A) :
  (forall e, f (refresh e) = f e) ->
  __delitem__ fuel key d = (Ok tt, d') ->
  size d' = size d - 1 /\ load_factor d' = load_factor d /\
  exists e,
    py_eq (entry_key e) key = true /\
    map f (concat (buckets d)) ≡ₚ f e :: map f (concat (buckets d')).
Proof.
  intros Hf Hdel.
  destruct (delitem_ok_inv fuel key d d' Hdel)
    as (n & i & b & e & Hn & Hi & Heq & Hcases). simpl in Hcases.
  destruct (concat_insert_perm (buckets d) n b (delete i b) Hn)
    as (rest & Hold & Hnew).
  assert (Hone : map f (concat (buckets d)) ≡ₚ
                 f e :: map f (concat (<[n := delete i b]> (buckets d)))).
  { rewrite <- map_cons. apply Permutation_map. rewrite Hold, Hnew.
    exact (Permutation_app_tail rest (delete_Permutation b i e Hi)). }
  destruct Hcases as [->|(c & arr & _ & Harr & ->)]; simpl.
  - split; [done|]. split; [done|]. by exists e.
  - split; [done|]. split; [done|]. exists e. split; [done|].
    rewrite Hone. apply Permutation_cons; [done|].
    rewrite <- (map_refresh f _ Hf). apply Permutation_map.
    symmetry. by apply rehash_perm with c.
Qed.

(** X8. When [del d[key]] returns, exactly one pair has left the table, its
    key is [==] to [key], and [size] is one less. *)
Theorem delitem_removes_one_pair fuel key d d' :
  __delitem__ fuel key d = (Ok tt, d') ->
  size d' = size d - 1 /\
  exists k v, py_eq k key = true /\ __iter__ d ≡ₚ (k, v) :: __iter__ d'.
Proof.
  intros Hdel.
  destruct (delitem_entries fuel key d d'
              (fun e => (entry_key e, entry_value e)) pair_refresh Hdel)
    as (Hsz & _ & e & Heq & Hperm).
  split; [done|]. by exists (entry_key e), (entry_value e).
Qed.

Lemma setitem_entry_count fuel key (value : V) d d' :
  __setitem__ fuel key value d = (Ok tt, d') ->
  size d' = size d + 1 /\
  entry_count d <= entry_count d' <= entry_count d + 1.
Proof.
  intros Hset. split.
  - pose proof (setitem_state fuel key value d) as (d1 & Hd1 & Hcases).
    destruct (recalculated_fields fuel d d1 Hd1) as (Hsz & _).
    destruct Hcases as [(r & Hr & Hset')|(j & n & b & _ & _ & _ & Hset')];
      rewrite Hset' in Hset.
    + injection Hset as -> _. done.
    + by injection Hset as <-.
  - unfold entry_count.
    destruct (setitem_entries fuel key value d d' Hset) as [Hadd|(e & _ & Hrep)].
    + specialize (Hadd _ (fun _ => tt) (fun _ => eq_refl)).
      apply Permutation_length in Hadd. simpl in Hadd.
      rewrite !length_map in Hadd. lia.
    + destruct (Hrep _ (fun _ => tt) (fun _ => eq_refl)) as (rest & Hold & Hnew).
      apply Permutation_length in Hold, Hnew. simpl in *.
      rewrite !length_map in *. lia.
Qed.

Lemma delitem_entry_count fuel key d d' :
  __delitem__ fuel key d = (Ok tt, d') ->
  size d' = size d - 1 /\ entry_count d' = entry_count d - 1.
Proof.
  intros Hdel.
  destruct (delitem_entries fuel key d d' (fun _ => tt) (fun _ => eq_refl) Hdel)
    as (Hsz & _ & e & _ & Hperm).
  split; [done|]. unfold entry_count.
  apply Permutation_length in Hperm. simpl in Hperm.
  rewrite !length_map in Hperm. lia.
Qed.

(** X9. Along a script that runs to its end, [len(d)] minus the number of
    stored pairs never goes down: deletions, lookups and appending
    assignments keep it, an overwriting assignment adds one to it. *)
Theorem len_gap_never_shrinks fuel (ops : list (op K V)) : forall d0 d,
  script fuel ops d0 = Ok d ->
  __len__ d0 - entry_count d0 <= __len__ d - entry_count d.
Proof.
  unfold __len__.
  induction ops as [|o ops IH]; intros d0 d Hrun; simpl in Hrun.
  - injection Hrun as <-. lia.
  - destruct (step fuel o d0) as [[[]| |] d1] eqn:Hstep; try done.
    specialize (IH d1 d Hrun).
    assert (size d0 - entry_count d0 <= size d1 - entry_count d1); [|lia].
    destruct o as [k v|k|k|k| |]; simpl in Hstep.
    + destruct (setitem_entry_count fuel k v d0 d1 Hstep). lia.
    + injection Hstep as _ <-. lia.
    + destruct (delitem_entry_count fuel k d0 d1 Hstep). lia.
    + unfold __contains__ in Hstep.
      destruct (__getitem__ d0 k) as [?|[]|]; simpl in Hstep; try done;
        injection Hstep as <-; lia.
    + injection Hstep as <-. lia.
    + injection Hstep as <-. lia.
Qed.

End Deletion.

Section SelfUnequal.

Context {K V : Type} `{PyKey K}.

Implicit Types (d : Dictionary K V) (b : bucket K V) (bs : list (bucket K V)).
Implicit Types (key : K) (e : entry K V).

Lemma setitem_ok_wf fuel key (value : V) d d' :
  wf d -> __setitem__ fuel key value d = (Ok tt, d') -> wf d'.
Proof.
  intros Hwf Hset.
  destruct (setitem_state fuel key value d) as (d1 & Hd1 & Hcases).
  destruct (recalculated_fields fuel d d1 Hd1) as (_ & _ & _ & Hwf1).
  destruct (Hwf1 Hwf) as [[Hc1 Hlen1] _].
  destruct Hcases as [(r & Hr & Hset')|(j & n & b & _ & _ & _ & Hset')];
    rewrite Hset' in Hset.
  - injection Hset as -> _. done.
  - injection Hset as <-. split; [done|]. simpl. by rewrite length_insert.
Qed.

Lemma keys_of_map d : keys_of d = map entry_key (concat (buckets d)).
Proof. done. Qed.

(** An assignment to a key that no stored key is [==] to adds its pair:
    no pair is replaced. *)
Lemma setitem_absent_entries fuel key (value : V) d d' {A : Type} (f : entry K V -> A) :
  (forall e, f (refresh e) = f e) ->
  absent key d ->
  __setitem__ fuel key value d = (Ok tt, d') ->
  map f (concat (buckets d')) ≡ₚ f (key, value, py_hash key) :: map f (concat (buckets d)).
Proof.
  intros Hf Habs Hset.
  destruct (setitem_entries fuel key value d d' Hset) as [Hadd|(e & Heq & Hrep)].
  - by apply Hadd.
  - destruct (Hrep _ entry_key (fun _ => eq_refl)) as (rest & Hold & _).
    rewrite Habs in Heq; [done|]. rewrite keys_of_map, Hold. left.
Qed.

(** X10. A key that is not [==] to itself nor to any stored key (such as
    [float("nan")]): an assignment that returns has stored the pair, and
    [d[key]] raises [KeyError] all the same. *)
Theorem self_unequal_key_is_lost fuel key (value : V) d d' :
  wf d -> absent key d -> py_eq key key = false ->
  __setitem__ fuel key value d = (Ok tt, d') ->
  __iter__ d' ≡ₚ (key, value) :: __iter__ d /\
  __getitem__ d' key = Raise KeyError /\
  __contains__ key d' = (Ok false, d').
Proof.
  intros Hwf Habs Hne Hset.
  pose proof (setitem_absent_entries fuel key value d d' entry_key
                (fun _ => eq_refl) Habs Hset) as Hkeys.
  split.
  - exact (setitem_absent_entries fuel key value d d'
             (fun e => (entry_key e, entry_value e)) pair_refresh Habs Hset).
  - assert (Hget : __getitem__ d' key = Raise KeyError);
      [|split; [done|]; unfold __contains__; by rewrite Hget].
    apply absent_getitem; [by eapply setitem_ok_wf|].
    intros k Hk. rewrite keys_of_map, Hkeys in Hk.
    apply elem_of_cons in Hk as [->|Hk]; [done|]. by apply Habs.
Qed.

End SelfUnequal.

Section FaithfulDeletion.

Context {K V : Type} `{PyKey K}.

Implicit Types (d : Dictionary K V) (b : bucket K V) (bs : list (bucket K V)).
Implicit Types (key : K) (e : entry K V).

Hypothesis eq_faithful : forall a b : K, py_eq a b = true <-> a = b.

Lemma delitem_ok_wf fuel key d d' :
  wf d -> __delitem__ fuel key d = (Ok tt, d') -> 0 < capacity d' -> wf d'.
Proof.
  intros [Hc Hlen] Hdel Hc'.
  destruct (delitem_ok_inv fuel key d d' Hdel)
    as (n & i & b & e & Hn & Hi & Heq & Hcases). simpl in Hcases.
  destruct Hcases as [->|(c & arr & _ & Harr & ->)]; simpl in *.
  - split; [done|]. simpl. by rewrite length_insert.
  - split; [done|]. simpl.
    destruct (rehash_spec (<[n := delete i b]> (buckets d)) c Hc')
      as (arr' & Harr' & Hlen' & _).
    assert (arr' = arr) as -> by congruence. lia.
Qed.

(** X11. On keys for which [==] is identity and a table that holds no key
    twice: once [del d[key]] has returned and left a positive capacity,
    the key is gone, [d[key]] raises [KeyError] and [key in d] is
    [False]; the other keys are all still stored. *)
Theorem delitem_then_getitem fuel key d d' :
  wf d -> NoDup (keys_of d) ->
  __delitem__ fuel key d = (Ok tt, d') ->
  0 < capacity d' ->
  keys_of d ≡ₚ key :: keys_of d' /\
  __getitem__ d' key = Raise KeyError /\
  __contains__ key d' = (Ok false, d').
Proof.
  intros Hwf Hnd Hdel Hc'.
  destruct (delitem_entries fuel key d d' entry_key (fun _ => eq_refl) Hdel)
    as (_ & _ & e & Heq & Hperm).
  apply eq_faithful in Heq. rewrite Heq in Hperm.
  split; [by rewrite !keys_of_map|].
  assert (Hget : __getitem__ d' key = Raise KeyError);
    [|split; [done|]; unfold __contains__; by rewrite Hget].
  apply absent_getitem; [by eapply delitem_ok_wf|].
  rewrite keys_of_map, Hperm in Hnd. apply NoDup_cons in Hnd as [Hnotin _].
  intros k Hk. destruct (py_eq k key) eqn:E; [|done].
  apply eq_faithful in E as ->. by rewrite keys_of_map in Hk.
Qed.

End FaithfulDeletion.

Section GrowingSearchResult.

Lemma increase_raises (fuel : nat) (lf : Py.float) (sz : Z) : forall (prev : Z) (e : exn),
  define_potential_capacity_increase fuel lf sz prev = Raise e -> e = OverflowError.
Proof.
  induction fuel as [|fuel IH]; intros prev e; simpl; [done|].
  destruct (Py.float_of_int prev) as [cf|e'|] eqn:Hcf; simpl; try done.
  - destruct (Py.float_lt_int _ _); [apply IH|done].
  - intros [= <-]. unfold Py.float_of_int, Py.overflow_check in Hcf.
    destruct (binary_normalize _ _ _ _ _); congruence.
Qed.

Lemma increase_first (fuel : nat) (lf : Py.float) (sz : Z) : forall prev c : Z,
  define_potential_capacity_increase fuel lf sz prev = Ok c ->
  exists k : nat,
    c = prev * 2 ^ Z.of_nat k /\
    too_small lf sz c = Ok false /\
    forall j : nat, (j < k)%nat -> too_small lf sz (prev * 2 ^ Z.of_nat j) = Ok true.
Proof.
  unfold too_small.
  induction fuel as [|fuel IH]; intros prev c; simpl; [done|].
  destruct (Py.float_of_int prev) as [cf| |] eqn:Hcf; simpl; try done.
  destruct (Py.float_lt_int _ _) eqn:Hlt.
  - intros (k & -> & Hexit & Hbefore)%IH. exists (S k).
    rewrite Nat2Z.inj_succ, Z.pow_succ_r by lia.
    split; [lia|]. split.
    { by replace (prev * (2 * 2 ^ Z.of_nat k)) with (prev * 2 * 2 ^ Z.of_nat k) by lia. }
    intros [|j] Hj.
    + simpl. rewrite Z.mul_1_r, Hcf. simpl. by rewrite Hlt.
    + rewrite Nat2Z.inj_succ, Z.pow_succ_r by lia.
      replace (prev * (2 * 2 ^ Z.of_nat j)) with (prev * 2 * 2 ^ Z.of_nat j) by lia.
      apply Hbefore. lia.
  - intros [= <-]. exists O. simpl. rewrite Z.mul_1_r, Hcf. simpl. rewrite Hlt.
    split; [done|]. split; [done|]. intros j Hj. lia.
Qed.

(** X13. The growing search from a positive capacity always ends, within 1025
    tests of its condition: it returns the capacity doubled some number
    of times, or raises [OverflowError] once the capacity no longer
    converts to a float. *)
Theorem increase_search_ends (lf : Py.float) (sz prev : Z) :
  0 < prev ->
  exists r,
    (forall fuel, (1025 <= fuel)%nat ->
       define_potential_capacity_increase fuel lf sz prev = r) /\
    ((exists k : nat, r = Ok (prev * 2 ^ Z.of_nat k)) \/ r = Raise OverflowError).
Proof.
  intros Hprev.
  pose proof (increase_terminates 1024 lf sz prev Hprev) as Hterm.
  set (r := define_potential_capacity_increase 1025 lf sz prev) in *.
  assert (Hr : r <> OutOfFuel).
  { apply Hterm. change (Z.of_nat 1024) with 1024.
    assert (0 < 2 ^ 1024) by (by apply Z.pow_pos_nonneg). nia. }
  exists r. split.
  - intros fuel Hfuel. by apply (increase_fuel_mono 1025 fuel).
  - destruct r as [c|e|] eqn:Er; [left|right|done].
    + destruct (increase_doubles 1025 lf sz prev c Er) as [k ->]. by exists k.
    + by rewrite (increase_raises 1025 lf sz prev e Er).
Qed.

(** X14. The capacity the growing search returns is the first one, in the
    sequence of doublings of the capacity it starts from, at which
    [capacity * load_factor < size] is false; with a load factor in
    (0, 1] and a result below 2^53 it is at least [size]. *)
Theorem increase_search_first (fuel : nat) (lf : Py.float) (sz prev c : Z) :
  define_potential_capacity_increase fuel lf sz prev = Ok c ->
  (exists k : nat,
     c = prev * 2 ^ Z.of_nat k /\
     too_small lf sz c = Ok false /\
     forall j : nat, (j < k)%nat -> too_small lf sz (prev * 2 ^ Z.of_nat j) = Ok true) /\
  (0 < prev -> Py.float_gt_int lf 0 = true -> Py.float_le_int lf 1 = true ->
   c < 2 ^ 53 -> sz <= c).
Proof.
  intros Hsearch. split; [by apply increase_first with fuel|].
  intros Hprev Hpos Hle Hc.
  by destruct (searched_capacity_room fuel lf sz prev c Hprev Hpos Hle Hsearch Hc).
Qed.

End GrowingSearchResult.

Section OnePerBucket.

Context {K V : Type} `{PyKey K}.

Implicit Types (d : Dictionary K V) (b : bucket K V) (bs : list (bucket K V)).
Implicit Types (key : K) (e : entry K V).

Lemma elem_of_insert_inv {A : Type} (l : list A) (i : nat) (x y : A) :
  y ∈ <[i := x]> l -> y = x \/ y ∈ l.
Proof.
  intros [j Hj]%list_elem_of_lookup.
  apply list_lookup_insert_Some in Hj as [(_ & -> & _)|[_ Hj]]; [by left|right].
  by apply list_elem_of_lookup_2 in Hj.
Qed.

(** The loop of the constructor on fresh keys, as long as there is room:
    every pair goes into a bucket that was empty. *)
Lemma init_loop_single (kvs : list (K * V)) : forall d,
  wf d -> retrievable d ->
  (forall k k', k ∈ keys_of d -> k' ∈ kvs.*1 -> py_eq k k' = false) ->
  pairwise_ne (kvs.*1) ->
  (forall k, k ∈ kvs.*1 -> self_equal k) ->
  entry_count d + Z.of_nat (length kvs) <= capacity d ->
  one_per_bucket d ->
  exists d', init_loop kvs d = (Ok tt, d') /\ one_per_bucket d'.
Proof.
  induction kvs as [|[k1 v1] kvs IH]; intros d Hwf Hret Hnew Hdist Hself Hroom Hone.
  - by exists d.
  - rewrite fmap_cons in Hdist, Hself, Hnew.
    apply pairwise_ne_cons in Hdist as [Hdist Hk1]. simpl in Hroom.
    assert (Habs : absent k1 d).
    { intros k Hk. apply Hnew; [done|left]. }
    destruct (store_fresh_retrievable d k1 v1 Hwf Hret Habs) as
      (d1 & Hstore & Hwf1 & Hret1 & Hs1 & Hc1 & Hlf1 & Hperm1).
    { apply Hself. left. }
    { lia. }
    destruct (store_fresh d k1 v1 Hwf Habs ltac:(lia)) as (j & _ & _ & _ & Hstore').
    rewrite Hstore in Hstore'. injection Hstore' as ->.
    pose proof (keys_of_perm _ _ _ Hperm1) as Hkeys1. simpl in Hkeys1.
    destruct (IH _ Hwf1 Hret1) as (d' & Hloop & Hone'); [|done| | | |].
    { intros k k' Hk Hk'. rewrite Hkeys1 in Hk. apply elem_of_app in Hk as [Hk|Hk].
      - apply Hnew; [done|by right].
      - apply list_elem_of_singleton in Hk as ->. by apply Hk1. }
    { intros k Hk. apply Hself. by right. }
    { unfold entry_count in *. rewrite Hperm1, length_app, Hc1. simpl. lia. }
    { intros b Hb. simpl in Hb. apply elem_of_insert_inv in Hb as [->|Hb]; [done|].
      by apply Hone. }
    exists d'. split; [|done]. simpl. unfold bindM. by rewrite Hstore.
Qed.

(** X15. Constructing a table from an initial mapping, under the conditions
    of [init_from_mapping]: every pair of the mapping is alone in a
    bucket of its own, and every bucket is empty or holds one pair of the
    mapping with the hash of its key. *)
Theorem init_one_pair_per_bucket fuel (initial_capacity : Z) (lf : Py.float)
    (kwargs : list (K * V)) (c : Z) :
  pairwise_ne (kwargs.*1) ->
  (forall k, k ∈ kwargs.*1 -> self_equal k) ->
  0 < initial_capacity ->
  Py.float_gt_int lf 0 = true -> Py.float_le_int lf 1 = true ->
  define_potential_capacity_increase fuel lf (Z.of_nat (length kwargs))
    initial_capacity = Ok c ->
  c < 2 ^ 53 ->
  exists d,
    __init__ fuel initial_capacity lf kwargs = Ok d /\
    (forall k v, (k, v) ∈ kwargs -> [(k, v, py_hash k)] ∈ buckets d) /\
    (forall b, b ∈ buckets d ->
       b = [] \/ exists k v, (k, v) ∈ kwargs /\ b = [(k, v, py_hash k)]).
Proof.
  intros Hdist Hself Hinit Hpos Hle Hcap Hc253.
  destruct (searched_capacity_room fuel lf _ _ c Hinit Hpos Hle Hcap Hc253)
    as [Hc Hroom].
  unfold __init__.
  assert (validate_keys (map fst kwargs) = true) as ->.
  { unfold validate_keys. by apply forallb_forall. }
  rewrite Hcap. simpl.
  set (d0 := {| load_factor := lf; size := Z.of_nat (length kwargs);
                capacity := c; buckets := Py.fresh [] c |}).
  assert (Hlen0 : Z.of_nat (length (buckets d0)) = c).
  { simpl. unfold Py.fresh. rewrite length_replicate. lia. }
  assert (Hnil : concat (buckets d0) = []).
  { simpl. unfold Py.fresh. induction (Z.to_nat c); simpl; auto. }
  assert (Hret0 : retrievable d0).
  { intros e He. rewrite Hnil in He. by apply elem_of_nil in He. }
  assert (Hnew0 : forall k k', k ∈ keys_of d0 -> k' ∈ kwargs.*1 -> py_eq k k' = false).
  { intros k k' Hk. unfold keys_of in Hk. rewrite Hnil in Hk. by apply elem_of_nil in Hk. }
  assert (Hroom0 : entry_count d0 + Z.of_nat (length kwargs) <= capacity d0).
  { unfold entry_count. rewrite Hnil. simpl. lia. }
  destruct (init_loop_fresh kwargs d0) as
    (d & Hloop & Hwf & Hret & Hs & Hc' & Hlf & Hperm); try done.
  destruct (init_loop_single kwargs d0) as (d' & Hloop' & Hone); try done.
  { intros b Hb. simpl in Hb. unfold Py.fresh in Hb.
    apply elem_of_replicate_inv in Hb as ->. simpl. lia. }
  rewrite Hloop in Hloop'. injection Hloop' as <-.
  rewrite Hloop. exists d. split; [done|].
  rewrite Hnil, app_nil_l in Hperm.
  assert (Hsingle : forall b e, b ∈ buckets d -> e ∈ b -> b = [e]).
  { intros b e Hb He. specialize (Hone b Hb).
    destruct b as [|e1 [|e2 b]]; simpl in Hone; [by apply elem_of_nil in He| |lia].
    by apply list_elem_of_singleton in He as ->. }
  split.
  - intros k v Hin.
    assert (He : entry_of (k, v) ∈ concat (buckets d)).
    { rewrite Hperm. by apply list_elem_of_fmap_2. }
    apply list_elem_of_In, in_concat in He as (b & Hb & He).
    apply list_elem_of_In in Hb, He.
    pose proof (Hsingle b _ Hb He) as Heq. rewrite Heq in Hb. exact Hb.
  - intros b Hb. destruct b as [|e b']; [by left|right].
    assert (He : e ∈ concat (buckets d)).
    { apply list_elem_of_In, in_concat. exists (e :: b').
      split; apply list_elem_of_In; [done|left]. }
    rewrite Hperm in He. apply list_elem_of_fmap in He as ([k v] & -> & Hin).
    exists k, v. split; [done|]. apply (Hsingle _ _ Hb). left.
Qed.

End OnePerBucket.

Section EmptyTable.

Context {K V : Type} `{PyKey K}.

Implicit Types (d : Dictionary K V) (key : K).

Lemma finite_not_negative (m : positive) (e : Z) :
  Py.float_lt_int (S754_finite false m e) 0 = false.
Proof.
  unfold Py.float_lt_int, Py.float_cmp_int.
  destruct (Z.leb_spec 0 e) as [He|He].
  - assert (0 < 2 ^ e) by (by apply Z.pow_pos_nonneg).
    destruct (Z.compare_spec (Zpos m * 2 ^ e) 0); try done; nia.
  - destruct (Z.compare_spec (Zpos m) (0 * 2 ^ (- e))); try done; lia.
Qed.

Lemma negative_lt_zero (m : positive) (e : Z) :
  Py.float_lt_int (S754_finite true m e) 0 = true.
Proof.
  unfold Py.float_lt_int, Py.float_cmp_int.
  destruct (Z.leb_spec 0 e) as [He|He].
  - assert (0 < 2 ^ e) by (by apply Z.pow_pos_nonneg).
    destruct (Z.compare_spec (Zneg m * 2 ^ e) 0); try done; nia.
  - destruct (Z.compare_spec (Zneg m) (0 * 2 ^ (- e))); try done; lia.
Qed.

(** Rounding a number given with a positive sign never gives a negative
    one. *)
Lemma round_not_negative (m e : Z) (l : location) :
  Py.float_lt_int (binary_round_aux Py.prec Py.emax false m e l) 0 = false.
Proof.
  unfold binary_round_aux.
  destruct (shr_fexp _ _ m e l) as [mrs e'].
  destruct (shr_fexp _ _ _ e' loc_Exact) as [mrs' e''].
  destruct (shr_m mrs') as [|p|p]; try done.
  destruct (e'' <=? _); [apply finite_not_negative|done].
Qed.

(** The product of a non-negative float and a load factor that is not
    below 0 is not below 0. *)
Lemma mul_not_negative (c : Z) (cf lf : Py.float) :
  bounded_float c cf -> Py.float_lt_int lf 0 = false ->
  Py.float_lt_int (Py.float_mul cf lf) 0 = false.
Proof.
  intros Hb Hlf.
  destruct cf as [s|s| |[|] m e]; try done;
    destruct lf as [[|]|[|]| |[|] ml el]; try done;
    try (by rewrite negative_lt_zero in Hlf).
  unfold Py.float_mul, SFmul. simpl xorb. apply round_not_negative.
Qed.

(** X16. [Dictionary(initial_capacity=c, load_factor=lf)] without pairs, for
    a positive capacity below 2^53 and a load factor that is not below
    0: the table has exactly [c] empty buckets and length 0; every lookup
    raises [KeyError] and every membership test is [False]. *)
Theorem init_empty (fuel : nat) (c : Z) (lf : Py.float) :
  0 < c < 2 ^ 53 -> Py.float_lt_int lf 0 = false ->
  exists d : Dictionary K V,
    __init__ (S fuel) c lf [] = Ok d /\
    capacity d = c /\ buckets d = replicate (Z.to_nat c) [] /\
    load_factor d = lf /\ __len__ d = 0 /\ __iter__ d = [] /\
    forall key,
      __getitem__ d key = Raise KeyError /\ __contains__ key d = (Ok false, d).
Proof.
  intros Hc Hlf.
  destruct (float_of_int_bounded c Hc) as (cf & Hcf & Hb).
  pose proof (mul_not_negative c cf lf Hb Hlf) as Hexit.
  set (d := {| load_factor := lf; size := 0; capacity := c;
               buckets := Py.fresh ([] : bucket K V) c |}).
  assert (Hnil : concat (buckets d) = []).
  { simpl. unfold Py.fresh. induction (Z.to_nat c); simpl; auto. }
  exists d. split.
  { unfold __init__, validate_keys. cbn [map forallb length Z.of_nat].
    cbv zeta. cbn [define_potential_capacity_increase]. rewrite Hcf.
    cbn [bind]. change (Z.of_nat 0) with 0. rewrite Hexit. done. }
  split; [done|]. split; [done|]. split; [done|]. split; [done|].
  split; [unfold __iter__; by rewrite Hnil|].
  intros key.
  assert (Hget : __getitem__ d key = Raise KeyError);
    [|split; [done|]; unfold __contains__; by rewrite Hget].
  apply absent_getitem.
  - split; [simpl; lia|]. simpl. unfold Py.fresh. rewrite length_replicate. lia.
  - intros k Hk. unfold keys_of in Hk. rewrite Hnil in Hk. by apply elem_of_nil in Hk.
Qed.

End EmptyTable.

Section ShrinkingSearch.

(** A float that an integer bounds is not above it. *)
Lemma gt_bounded (c : Z) (f : Py.float) :
  bounded_float c f -> 0 <= c -> Py.float_gt_int f c = false.
Proof.
  intros Hb Hc. unfold Py.float_gt_int, Py.float_cmp_int.
  destruct f as [s|s| |[|] m e]; try done.
  - destruct (Z.compare_spec 0 c); try done; lia.
  - simpl in Hb. unfold le_scaled in Hb.
    destruct (Z.leb_spec 0 e) as [He|He].
    + replace (Z.max e 0) with e in Hb by lia.
      replace (Z.max (- e) 0) with 0 in Hb by lia.
      destruct (Z.compare_spec (Zpos m * 2 ^ e) c); try done; lia.
    + replace (Z.max e 0) with 0 in Hb by lia.
      replace (Z.max (- e) 0) with (- e) in Hb by lia.
      destruct (Z.compare_spec (Zpos m) (c * 2 ^ (- e))); try done; lia.
Qed.

Lemma negative_not_gt (m : positive) (e sz : Z) :
  0 <= sz -> Py.float_gt_int (S754_finite true m e) sz = false.
Proof.
  intros Hsz. unfold Py.float_gt_int, Py.float_cmp_int.
  destruct (Z.leb_spec 0 e) as [He|He].
  - assert (0 < 2 ^ e) by (by apply Z.pow_pos_nonneg).
    destruct (Z.compare_spec (Zneg m * 2 ^ e) sz); try done; nia.
  - assert (0 < 2 ^ (- e)) by (apply Z.pow_pos_nonneg; lia).
    destruct (Z.compare_spec (Zneg m) (sz * 2 ^ (- e))); try done; nia.
Qed.

(** Rounding a number given with a negative sign never gives one above
    a positive integer. *)
Lemma round_negative_not_gt (m e : Z) (l : location) (sz : Z) :
  0 < sz -> Py.float_gt_int (binary_round_aux Py.prec Py.emax true m e l) sz = false.
Proof.
  intros Hsz. unfold binary_round_aux.
  destruct (shr_fexp _ _ m e l) as [mrs e'].
  destruct (shr_fexp _ _ _ e' loc_Exact) as [mrs' e''].
  destruct (shr_m mrs') as [|p|p]; try done.
  - unfold Py.float_gt_int, Py.float_cmp_int.
    destruct (Z.compare_spec 0 sz); try done; lia.
  - destruct (e'' <=? _); [apply negative_not_gt; lia|done].
Qed.

(** [int(f)] of a positive float that is not bounded by [sz] is at least
    [sz]. *)
Lemma int_of_float_room (m : positive) (e sz c : Z) :
  Py.int_of_float (S754_finite false m e) = Ok c ->
  ~ le_scaled (Zpos m) e sz -> sz <= c.
Proof.
  unfold Py.int_of_float, le_scaled. intros [= <-] Hnot.
  destruct (Z.leb_spec 0 e) as [He|He].
  - replace (Z.max e 0) with e in Hnot by lia.
    replace (Z.max (- e) 0) with 0 in Hnot by lia. lia.
  - replace (Z.max e 0) with 0 in Hnot by lia.
    replace (Z.max (- e) 0) with (- e) in Hnot by lia.
    assert (Hp : 0 < 2 ^ (- e)) by (apply Z.pow_pos_nonneg; lia).
    rewrite Z.pow_0_r, Z.mul_1_r in Hnot.
    apply Z.div_le_lower_bound; [done|]. lia.
Qed.

(** The condition of the shrinking search tells that there is room:
    if [half * load_factor > size] for a load factor in (0, 1] and a
    positive size below 2^53, then [int(half)] is at least [size]. *)
Lemma halving_room (half lf : Py.float) (sz c : Z) :
  1 <= sz < 2 ^ 53 ->
  Py.float_gt_int lf 0 = true -> Py.float_le_int lf 1 = true ->
  Py.float_gt_int (Py.float_mul half lf) sz = true ->
  Py.int_of_float half = Ok c ->
  sz <= c.
Proof.
  intros Hsz Hpos Hle Hgt Hint.
  destruct (load_factor_scaled lf Hpos Hle) as (ml & el & -> & Hlf).
  destruct half as [s|s| |[|] m e]; try done.
  - unfold Py.float_mul, SFmul, Py.float_gt_int, Py.float_cmp_int in Hgt.
    destruct (Z.compare_spec 0 sz); try done; lia.
  - unfold Py.float_mul, SFmul in Hgt. cbn [xorb] in Hgt.
    by rewrite round_negative_not_gt in Hgt by lia.
  - apply (int_of_float_room m e sz c Hint). intros Hb.
    assert (Hprod : bounded_float sz (Py.float_mul (S754_finite false m e)
                                        (S754_finite false ml el))).
    { unfold Py.float_mul, SFmul. simpl xorb.
      apply round_le; [lia|]. rewrite Pos2Z.inj_mul.
      apply le_scaled_mul; try done; lia. }
    by rewrite (gt_bounded sz _ Hprod) in Hgt by lia.
Qed.

Lemma decrease_room (fuel : nat) (lf : Py.float) (sz : Z) :
  1 <= sz < 2 ^ 53 ->
  Py.float_gt_int lf 0 = true -> Py.float_le_int lf 1 = true ->
  forall (prev : Py.num) (c : Z),
    passed lf sz prev ->
    define_potential_capacity_decrease fuel lf sz prev = Ok c ->
    prev = Py.Int c \/ sz <= c.
Proof.
  intros Hsz Hpos Hle.
  induction fuel as [|fuel IH]; intros prev c Hprev; simpl; [done|].
  destruct (Py.num_half prev) as [half| |]; simpl; try done.
  destruct (Py.float_gt_int (Py.float_mul half lf) sz) eqn:Hgt.
  - intros Hrec. destruct (IH (Py.Float half) c Hgt Hrec) as [?|?]; [done|by right].
  - destruct prev as [z|f]; simpl.
    + intros [= <-]. by left.
    + intros Hint. right. by apply (halving_room f lf sz c).
Qed.

(** X17. The shrinking search with a positive size below 2^53 and a load
    factor in (0, 1] returns the capacity it was given or one that is at
    least the size: it never goes below what the table holds. *)
Theorem decrease_search_keeps_room (fuel : nat) (lf : Py.float) (sz cap c : Z) :
  1 <= sz < 2 ^ 53 ->
  Py.float_gt_int lf 0 = true -> Py.float_le_int lf 1 = true ->
  define_potential_capacity_decrease fuel lf sz (Py.Int cap) = Ok c ->
  c = cap \/ sz <= c.
Proof.
  intros Hsz Hpos Hle Hsearch.
  destruct (decrease_room fuel lf sz Hsz Hpos Hle (Py.Int cap) c I Hsearch) as [[= ->]|?];
    [by left|by right].
Qed.

End ShrinkingSearch.

Section DeletionKeepsTable.

Context {K V : Type} `{PyKey K}.

Implicit Types (d : Dictionary K V) (b : bucket K V) (bs : list (bucket K V)).
Implicit Types (key : K) (e : entry K V).

(** [__delitem__], whatever its outcome: nothing is changed when the key
    is not found; else one entry is deleted and the counter decremented,
    and the table is rehashed if the shrinking search and the rehash
    return. *)
Lemma delitem_state fuel key d :
  (exists r, r <> Ok tt /\ __delitem__ fuel key d = (r, d)) \/
  (exists (n i : nat) b,
     buckets d !! n = Some b /\ (i < length b)%nat /\
     let d1 := {| load_factor := load_factor d; size := size d - 1;
                  capacity := capacity d;
                  buckets := <[n := delete i b]> (buckets d) |} in
     (exists r, __delitem__ fuel key d = (r, d1)) \/
     (exists c arr,
        size d - 1 < capacity d / 4 /\
        define_potential_capacity_decrease fuel (load_factor d) (size d - 1)
          (Py.Int (capacity d)) = Ok c /\
        rehash (buckets d1) c = Ok arr /\
        __delitem__ fuel key d =
          (Ok tt, {| load_factor := load_factor d; size := size d - 1;
                     capacity := c; buckets := arr |}))).
Proof.
  unfold __delitem__, bindM, read, raise.
  destruct (_get_bucket_index d key) as [j| |]; simpl;
    [|left; eexists; split; [|done]; done..].
  destruct (Py.getitem (buckets d) j) as [b| |] eqn:Hb; simpl;
    [|left; eexists; split; [|done]; done..].
  destruct (getitem_position _ _ _ Hb) as (n & Hn & _ & Hset).
  destruct (find_key key b) as [i|] eqn:Hfind;
    [|left; eexists; split; [|done]; done].
  destruct (find_key_Some key b i Hfind) as (e & Hi & Heq).
  rewrite Hset. unfold set_buckets, set_size. simpl.
  right. exists n, i, b. split; [done|]. split; [by eapply lookup_lt_Some|].
  simpl. destruct (Z.ltb_spec (size d - 1) (capacity d / 4)) as [Hsmall|Hbig].
  - set (d1 := {| load_factor := load_factor d; size := size d - 1;
                  capacity := capacity d;
                  buckets := <[n := delete i b]> (buckets d) |}).
    destruct (resize_outcomes fuel true d1)
      as [(c & arr & Hc & Harr & ->)|(r & Hr & ->)].
    + right. by exists c, arr.
    + left. by exists r.
  - left. by eexists.
Qed.

(** X18. On a table with a positive capacity and as many buckets, a load
    factor in (0, 1] and a size counter from 2 up to 2^53: [del d[key]]
    leaves such a table, whatever its outcome, and when it changes the
    capacity the new one is at least the new size. *)
Theorem delitem_keeps_wf fuel key d :
  wf d ->
  Py.float_gt_int (load_factor d) 0 = true ->
  Py.float_le_int (load_factor d) 1 = true ->
  2 <= size d <= 2 ^ 53 ->
  let d' := (__delitem__ fuel key d).2 in
  wf d' /\ (capacity d' = capacity d \/ size d' <= capacity d').
Proof.
  intros Hwf Hpos Hle Hsz. simpl.
  destruct (delitem_state fuel key d)
    as [(r & _ & ->)|(n & i & b & Hn & Hi & Hcases)]; [by split; [|left]|].
  simpl in Hcases.
  destruct Hcases as [(r & ->)|(c & arr & _ & Hc & Harr & ->)]; simpl.
  - split; [|by left]. destruct Hwf as [Hcap Hlen].
    split; [done|]. simpl. by rewrite length_insert.
  - destruct (decrease_room fuel (load_factor d) (size d - 1) ltac:(lia) Hpos Hle
                (Py.Int (capacity d)) c I Hc) as [[= <-]|Hroom].
    + split; [|by left]. destruct Hwf as [Hcap Hlen]. split; [done|]. simpl.
      destruct (rehash_spec (<[n := delete i b]> (buckets d)) (capacity d) Hcap)
        as (arr' & Harr' & Hlen' & _).
      simpl in Harr. assert (arr' = arr) as -> by congruence. lia.
    + split; [|by right]. assert (Hcpos : 0 < c) by lia.
      split; [done|]. simpl.
      destruct (rehash_spec (<[n := delete i b]> (buckets d)) c Hcpos)
        as (arr' & Harr' & Hlen' & _).
      simpl in Harr. assert (arr' = arr) as -> by congruence. lia.
Qed.

End DeletionKeepsTable.

Section Digits.

Lemma digits_size (m : positive) : digits2_pos m = Pos.size m.
Proof. induction m; simpl; congruence. Qed.

Lemma digits_upper (m : positive) : Zpos m < 2 ^ Zpos (digits2_pos m).
Proof.
  rewrite digits_size. pose proof (Pos.size_gt m) as Hs.
  apply Pos2Z.pos_lt_pos in Hs. by rewrite Pos2Z.inj_pow in Hs.
Qed.

Lemma digits_le (m : positive) (n : Z) :
  0 <= n -> Zpos m < 2 ^ n -> Zpos (digits2_pos m) <= n.
Proof.
  intros Hn Hlt. pose proof (digits_lower m) as Hlow.
  destruct (Z.le_gt_cases (Zpos (digits2_pos m)) n) as [|Hgt]; [done|exfalso].
  assert (2 ^ n <= 2 ^ (Zpos (digits2_pos m) - 1)) by (apply Z.pow_le_mono_r; lia).
  lia.
Qed.

End Digits.

Section ShiftingAny.

(** [n] right shifts, from any round and sticky bits. *)
Lemma shr_iter_gen (mrs0 : shr_record) (n : positive) :
  0 <= shr_m mrs0 ->
  let mrs := SpecFloat.iter_pos shr_1 n mrs0 in
  shr_m mrs = shr_m mrs0 / 2 ^ Zpos n /\
  (shr_r mrs || shr_s mrs = true ->
   shr_r mrs0 || shr_s mrs0 = true \/ shr_m mrs0 mod 2 ^ Zpos n <> 0).
Proof.
  intros Hm. simpl. rewrite iter_pos_iter.
  induction n as [|n IH] using Pos.peano_ind.
  - cbn [Pos.iter]. rewrite shr_1_spec by done. cbn [shr_m shr_r shr_s].
    rewrite Z.pow_1_r. split; [done|].
    intros Hflag. apply orb_true_iff in Hflag as [Hodd|Hflag]; [right|by left].
    rewrite Zmod_odd, Hodd. done.
  - rewrite Pos.iter_succ. destruct IH as [IHm IHf].
    set (mrs := Pos.iter shr_1 _ n) in *.
    assert (Hpos : 0 < 2 ^ Zpos n) by (apply Z.pow_pos_nonneg; lia).
    assert (0 <= shr_m mrs) by (rewrite IHm; apply Z.div_pos; lia).
    rewrite shr_1_spec by done. cbn [shr_m shr_r shr_s].
    rewrite Pos2Z.inj_succ, Z.pow_succ_r by lia.
    split.
    + rewrite IHm, Z.div_div by lia. f_equal. lia.
    + intros Hflag.
      destruct (shr_r mrs0 || shr_s mrs0) eqn:E0; [by left|right].
      intros Hmod.
      apply Z.mod_divide in Hmod; [|lia]. destruct Hmod as [k Hk].
      apply orb_true_iff in Hflag as [Hodd|Hflag].
      * rewrite IHm in Hodd.
        replace (shr_m mrs0) with (2 * k * 2 ^ Zpos n) in Hodd by lia.
        rewrite Z.div_mul in Hodd by lia.
        rewrite Z.odd_mul in Hodd. done.
      * destruct (IHf Hflag) as [?|Hne]; [done|]. apply Hne.
        replace (shr_m mrs0) with (2 * k * 2 ^ Zpos n) by lia.
        apply Z.mod_mul. lia.
Qed.

(** The first step of rounding, from any location: [k] bits are shifted
    out; the result is inexact only if the input was or a bit was lost. *)
Lemma shr_fexp_gen (m e : Z) (l : location) :
  0 <= m ->
  exists (k : Z) (mrs : shr_record),
    0 <= k /\
    shr_fexp Py.prec Py.emax m e l = (mrs, e + k) /\
    shr_m mrs = m / 2 ^ k /\
    (shr_r mrs || shr_s mrs = true -> l <> loc_Exact \/ m mod 2 ^ k <> 0) /\
    k = Z.max 0 (fexp Py.prec Py.emax (Zdigits2 m + e) - e).
Proof.
  intros Hm. unfold shr_fexp, shr.
  assert (Hloc : shr_m (shr_record_of_loc m l) = m) by (by destruct l as [|[]]).
  assert (Hfl : shr_r (shr_record_of_loc m l) || shr_s (shr_record_of_loc m l) = true ->
                l <> loc_Exact) by (by destruct l as [|[]]).
  destruct (fexp Py.prec Py.emax (Zdigits2 m + e) - e) as [|n|n] eqn:En.
  - exists 0, (shr_record_of_loc m l).
    rewrite Z.add_0_r, Z.pow_0_r, Z.div_1_r, Hloc.
    split; [lia|]. split; [done|]. split; [done|]. split; [auto|lia].
  - destruct (shr_iter_gen (shr_record_of_loc m l) n ltac:(by rewrite Hloc)) as [H1 H2].
    rewrite Hloc in H1, H2.
    eexists (Zpos n), _. split; [lia|]. split; [done|]. split; [done|].
    split; [|lia]. intros Hflag. destruct (H2 Hflag) as [?|?]; auto.
  - exists 0, (shr_record_of_loc m l).
    rewrite Z.add_0_r, Z.pow_0_r, Z.div_1_r, Hloc.
    split; [lia|]. split; [done|]. split; [done|]. split; [auto|lia].
Qed.

(** The steps of [binary_round_aux] on a non-negative mantissa: [k1]
    bits are shifted out, the mantissa is perhaps incremented, and [k2]
    more bits are shifted out. *)
Lemma round_aux_shape (m e : Z) (l : location) :
  0 <= m ->
  exists (k1 m2 k2 : Z),
    k1 = Z.max 0 (fexp Py.prec Py.emax (Zdigits2 m + e) - e) /\
    (m2 = m / 2 ^ k1 \/
     (m2 = m / 2 ^ k1 + 1 /\ (l <> loc_Exact \/ m mod 2 ^ k1 <> 0))) /\
    k2 = Z.max 0 (fexp Py.prec Py.emax (Zdigits2 m2 + (e + k1)) - (e + k1)) /\
    binary_round_aux Py.prec Py.emax false m e l =
      match m2 / 2 ^ k2 with
      | Z0 => S754_zero false
      | Zpos p =>
          if e + k1 + k2 <=? Py.emax - Py.prec
          then S754_finite false p (e + k1 + k2)
          else S754_infinity false
      | Zneg _ => S754_nan
      end.
Proof.
  intros Hm. unfold binary_round_aux.
  destruct (shr_fexp_gen m e l Hm) as (k1 & mrs & Hk1 & -> & Hq & Hflag & Hk1v).
  assert (Hpow : 0 < 2 ^ k1) by (apply Z.pow_pos_nonneg; lia).
  assert (Hm1 : 0 <= shr_m mrs) by (rewrite Hq; apply Z.div_pos; lia).
  set (m2 := round_nearest_even (shr_m mrs) (loc_of_shr_record mrs)).
  assert (Hm2 : m2 = m / 2 ^ k1 \/
                (m2 = m / 2 ^ k1 + 1 /\ (l <> loc_Exact \/ m mod 2 ^ k1 <> 0))).
  { unfold m2. rewrite <- Hq. destruct mrs as [m1 [|] [|]]; simpl in *; auto.
    destruct (Z.even m1); auto. }
  assert (Hm2pos : 0 <= m2) by (destruct Hm2 as [->|[-> _]]; rewrite <- Hq; lia).
  destruct (shr_fexp_gen m2 (e + k1) loc_Exact Hm2pos)
    as (k2 & mrs2 & Hk2 & -> & Hq2 & _ & Hk2v).
  exists k1, m2, k2. split; [done|]. split; [done|]. split; [done|].
  by rewrite Hq2.
Qed.

End ShiftingAny.

Section RoundingAny.

Lemma le_scaled_succ_div (m e c k : Z) :
  0 <= m -> 0 <= k -> e + k <= 0 ->
  le_scaled (m + 1) e c -> le_scaled (m / 2 ^ k + 1) (e + k) c.
Proof.
  intros Hm Hk Hek Hle. unfold le_scaled in *.
  replace (Z.max e 0) with 0 in Hle by lia.
  replace (Z.max (- e) 0) with (- (e + k) + k) in Hle by lia.
  replace (Z.max (e + k) 0) with 0 by lia.
  replace (Z.max (- (e + k)) 0) with (- (e + k)) by lia.
  rewrite Z.pow_add_r in Hle by lia. rewrite Z.pow_0_r in *.
  assert (Hp : 0 < 2 ^ k) by (apply Z.pow_pos_nonneg; lia).
  assert (Hlt : m / 2 ^ k < c * 2 ^ (- (e + k))).
  { apply Z.div_lt_upper_bound; [done|]. lia. }
  lia.
Qed.

(** Rounding to nearest, from any location, never takes a non-negative
    number above an integer below 2^53 that bounds it. *)
Lemma round_le_gen (m e c : Z) (l : location) :
  0 <= m -> c < 2 ^ 53 -> le_scaled m e c ->
  (l <> loc_Exact -> le_scaled (m + 1) e c) ->
  bounded_float c (binary_round_aux Py.prec Py.emax false m e l).
Proof.
  intros Hm Hc Hle Hup.
  destruct (round_aux_shape m e l Hm) as (k1 & m2 & k2 & Hk1 & Hm2 & Hk2 & ->).
  assert (Hpow : 0 < 2 ^ k1) by (apply Z.pow_pos_nonneg; lia).
  assert (Hm1 : 0 <= m / 2 ^ k1) by (apply Z.div_pos; lia).
  assert (Hle2 : le_scaled m2 (e + k1) c).
  { destruct Hm2 as [->|[-> Hwhy]]; [apply le_scaled_div; [lia|lia|done]|].
    destruct (decide (k1 = 0)) as [Hz|Hnz].
    - rewrite Hz in *. rewrite Z.pow_0_r, Z.div_1_r, Z.add_0_r.
      rewrite Z.mod_1_r in Hwhy. destruct Hwhy as [?|?]; [auto|done].
    - assert (Hneg : e + k1 <= 0).
      { destruct m as [|p|p]; [| |lia].
        - unfold fexp, emin, Py.prec, Py.emax in Hk1. simpl Zdigits2 in Hk1. lia.
        - pose proof (le_scaled_digits p e c Hc Hle).
          unfold fexp, emin, Py.prec, Py.emax in Hk1. simpl Zdigits2 in Hk1. lia. }
      destruct (decide (m mod 2 ^ k1 = 0)) as [Hmod|Hmod].
      + destruct Hwhy as [Hl|?]; [|done].
        apply le_scaled_succ_div; try done; try lia. auto.
      + apply le_scaled_div_up; try done; lia. }
  assert (Hm2pos : 0 <= m2) by (destruct Hm2 as [->|[-> _]]; lia).
  assert (Hpow2 : 0 < 2 ^ k2) by (apply Z.pow_pos_nonneg; lia).
  pose proof (le_scaled_div m2 (e + k1) c k2 Hm2pos ltac:(lia) Hle2) as Hle3.
  assert (0 <= m2 / 2 ^ k2) by (apply Z.div_pos; lia).
  destruct (m2 / 2 ^ k2) as [|m3|m3]; [done| |lia].
  pose proof (le_scaled_digits m3 (e + k1 + k2) c Hc Hle3).
  destruct (Z.leb_spec (e + k1 + k2) (Py.emax - Py.prec)) as [|Hbig]; [done|].
  unfold Py.emax, Py.prec in Hbig. lia.
Qed.

(** Rounding to nearest never takes a number that is at least 1 below
    1.0: the result has an exponent above -52, or the exponent -52 and
    a mantissa of at least 2^52. *)
Lemma round_ge_one (m e : Z) (l : location) :
  e <= 0 -> 2 ^ (- e) <= m ->
  at_least_one (binary_round_aux Py.prec Py.emax false m e l).
Proof.
  intros He Hone.
  assert (Hpe : 0 < 2 ^ (- e)) by (apply Z.pow_pos_nonneg; lia).
  destruct m as [|pm|pm]; [lia| |lia].
  destruct (round_aux_shape (Zpos pm) e l ltac:(lia))
    as (k1 & m2 & k2 & Hk1 & Hm2 & Hk2 & ->).
  pose proof (digits_ge pm (- e) ltac:(lia) Hone) as Hd.
  unfold fexp, emin, Py.prec, Py.emax in Hk1, Hk2. simpl Zdigits2 in Hk1.
  set (d := Zpos (digits2_pos pm)) in *.
  assert (Hk1' : k1 = Z.max 0 (d - 53)) by lia.
  assert (Hpow : 0 < 2 ^ k1) by (apply Z.pow_pos_nonneg; lia).
  assert (Hm1 : 0 < Zpos pm / 2 ^ k1).
  { destruct (decide (k1 = 0)) as [->|Hnz].
    - rewrite Z.pow_0_r, Z.div_1_r. lia.
    - apply shifted_mantissa_pos; fold d; lia. }
  assert (Hm1' : e + k1 <= 0 -> 2 ^ (- (e + k1)) <= Zpos pm / 2 ^ k1).
  { intros Hneg. apply Z.div_le_lower_bound; [done|].
    rewrite <- Z.pow_add_r by lia. by replace (k1 + - (e + k1)) with (- e) by lia. }
  assert (Hm2' : Zpos pm / 2 ^ k1 <= m2) by (destruct Hm2 as [->|[-> _]]; lia).
  destruct m2 as [|p2|p2]; [lia| |lia].
  simpl Zdigits2 in Hk2. set (d2 := Zpos (digits2_pos p2)) in *.
  assert (Hpow2 : 0 < 2 ^ k2) by (apply Z.pow_pos_nonneg; lia).
  assert (Hm3 : 0 < Zpos p2 / 2 ^ k2).
  { destruct (decide (k2 = 0)) as [->|Hnz].
    - rewrite Z.pow_0_r, Z.div_1_r. lia.
    - apply shifted_mantissa_pos; fold d2; lia. }
  destruct (Zpos p2 / 2 ^ k2) as [|p3|p3] eqn:E3; [lia| |lia].
  destruct (e + k1 + k2 <=? Py.emax - Py.prec); [|done].
  simpl. destruct (decide (-52 < e + k1 + k2)) as [|Hlow]; [by left|right].
  assert (Hk20 : k2 = 0) by lia. rewrite Hk20 in E3 |- *.
  rewrite Z.pow_0_r, Z.div_1_r in E3.
  split; [lia|].
  assert (Heq : e + k1 = -52) by lia.
  specialize (Hm1' ltac:(lia)). rewrite Heq in Hm1'.
  change (- -52) with 52 in Hm1'. lia.
Qed.

(** The quotient and the remainder [SFdiv] rounds. *)
Lemma div_core_spec (m1 m2 : positive) (e1 e2 : Z) :
  exists (q r e' : Z) (lz : location),
    SFdiv_core_binary Py.prec Py.emax (Zpos m1) e1 (Zpos m2) e2 = (q, e', lz) /\
    e' = Z.min (fexp Py.prec Py.emax
                  (Zpos (digits2_pos m1) + e1 - (Zpos (digits2_pos m2) + e2)))
               (e1 - e2) /\
    Zpos m1 * 2 ^ (e1 - e2 - e') = Zpos m2 * q + r /\
    0 <= r < Zpos m2 /\ 0 <= q /\
    (lz <> loc_Exact -> r <> 0).
Proof.
  unfold SFdiv_core_binary. simpl Zdigits2.
  set (e' := Z.min _ (e1 - e2)).
  set (s := e1 - e2 - e').
  assert (Hs : 0 <= s) by (unfold s, e'; lia).
  set (m' := match s with Zpos _ => Z.shiftl (Zpos m1) s | Z0 => Zpos m1 | Zneg _ => 0 end).
  assert (Hm' : m' = Zpos m1 * 2 ^ s).
  { unfold m'. destruct s as [|p|p] eqn:Es; [rewrite Z.pow_0_r; lia| |lia].
    by rewrite Z.shiftl_mul_pow2 by lia. }
  pose proof (Z_div_mod m' (Zpos m2) ltac:(lia)) as Hdiv.
  destruct (Z.div_eucl m' (Zpos m2)) as [q r]. destruct Hdiv as [Heq Hr].
  exists q, r, e', (new_location (Zpos m2) r).
  split; [done|]. split; [done|]. split; [rewrite <- Heq, Hm'; reflexivity|].
  split; [done|].
  split.
  - assert (0 <= m') by (rewrite Hm'; apply Z.mul_nonneg_nonneg; [lia|apply Z.pow_nonneg; lia]).
    nia.
  - intros Hl Hr0. apply Hl. rewrite Hr0.
    unfold new_location, new_location_even, new_location_odd.
    by destruct (Z.even (Zpos m2)).
Qed.

(** [a / b] on integers [1 <= a < 2^53] and [1 <= b]: the quotient is a
    float that [a] bounds, and one that is at least 1.0 when [b <= a]. *)
Lemma int_truediv_spec (a b : Z) :
  1 <= a < 2 ^ 53 -> 1 <= b ->
  exists ratio,
    Py.int_truediv a b = Ok ratio /\ bounded_float a ratio /\
    (b <= a -> at_least_one ratio).
Proof.
  intros Ha Hb. destruct a as [|pa|pa]; try lia. destruct b as [|pb|pb]; try lia.
  unfold Py.int_truediv, Py.exact, SFdiv. simpl Z.eqb. cbv iota.
  destruct (div_core_spec pa pb 0 0) as (q & r & e' & lz & -> & He' & Heq & Hr & Hq & Hlz).
  simpl xorb.
  assert (Hneg : e' <= 0) by lia.
  replace (0 - 0 - e') with (- e') in Heq by lia.
  assert (Hp : 0 < 2 ^ (- e')) by (apply Z.pow_pos_nonneg; lia).
  assert (Hle : le_scaled q e' (Zpos pa)).
  { unfold le_scaled. replace (Z.max e' 0) with 0 by lia.
    replace (Z.max (- e') 0) with (- e') by lia. rewrite Z.pow_0_r. nia. }
  assert (Hup : lz <> loc_Exact -> le_scaled (q + 1) e' (Zpos pa)).
  { intros Hl. specialize (Hlz Hl). unfold le_scaled.
    replace (Z.max e' 0) with 0 by lia.
    replace (Z.max (- e') 0) with (- e') by lia. rewrite Z.pow_0_r. nia. }
  pose proof (round_le_gen q e' (Zpos pa) lz Hq ltac:(lia) Hle Hup) as Hbound.
  exists (binary_round_aux Py.prec Py.emax false q e' lz).
  split; [|split; [done|]].
  - unfold Py.overflow_check.
    by destruct (binary_round_aux _ _ _ _ _ _) as [?|?| |[|] ? ?].
  - intros Hba. apply round_ge_one; [done|]. nia.
Qed.

(** A float that is at least 1.0 is [>=] every binary64 load factor in
    (0, 1]. *)
Lemma float_ge_one (ratio lf : Py.float) :
  at_least_one ratio ->
  valid_binary Py.prec Py.emax lf = true ->
  Py.float_gt_int lf 0 = true -> Py.float_le_int lf 1 = true ->
  Py.float_ge ratio lf = true.
Proof.
  intros Hone Hvalid Hpos Hle.
  destruct (load_factor_scaled lf Hpos Hle) as (ml & el & -> & Hlf).
  simpl in Hvalid. unfold bounded, canonical_mantissa in Hvalid.
  apply andb_true_iff in Hvalid as [Hcan _]. apply Z.eqb_eq in Hcan.
  unfold fexp, emin, Py.prec, Py.emax in Hcan.
  pose proof (digits_lower ml) as Hlow. set (dl := Zpos (digits2_pos ml)) in *.
  assert (Hsmall : el < -52 \/ (el = -52 /\ Zpos ml <= 2 ^ 52)).
  { unfold le_scaled in Hlf.
    destruct (Z.le_gt_cases (-52) el) as [Hel|Hel]; [right|by left].
    assert (dl = 53) as Hdl by lia. rewrite Hdl in Hlow. change (53 - 1) with 52 in Hlow.
    destruct (Z.le_gt_cases 0 el) as [Hnn|Hn].
    - replace (Z.max el 0) with el in Hlf by lia.
      replace (Z.max (- el) 0) with 0 in Hlf by lia.
      assert (0 < 2 ^ el) by (by apply Z.pow_pos_nonneg).
      assert (0 < 2 ^ 52) by done. nia.
    - replace (Z.max el 0) with 0 in Hlf by lia.
      replace (Z.max (- el) 0) with (- el) in Hlf by lia.
      rewrite Z.pow_0_r in Hlf.
      assert (Hpw : 2 ^ 52 <= 2 ^ (- el)) by lia.
      apply Z.pow_le_mono_r_iff in Hpw; [|lia..].
      assert (el = -52) as -> by lia. split; [done|].
      change (- -52) with 52 in Hlf. lia. }
  unfold Py.float_ge, SFleb, SFcompare.
  destruct ratio as [s|[|]| |[|] p e]; try done.
  simpl in Hone.
  destruct (Z.compare_spec el e) as [Heq|Hlt|Hgt]; [|done|lia].
  subst e. assert (Hcmp : (ml <= p)%positive) by lia.
  unfold Pos.le in Hcmp. unfold Pos.compare in Hcmp.
  by destruct (Pos.compare_cont Eq ml p).
Qed.

End RoundingAny.

Section AssignmentReturns.

Context {K V : Type} `{PyKey K}.

Implicit Types (d : Dictionary K V) (b : bucket K V) (bs : list (bucket K V)).
Implicit Types (key : K) (e : entry K V).

(** With fewer entries than buckets some bucket is empty, and [store]
    finds a bucket for every key. *)
Lemma store_returns d key (value : V) :
  wf d -> entry_count d < capacity d ->
  exists r d', store key value d = (Ok r, d').
Proof.
  intros Hwf Hroom. pose proof Hwf as [Hc Hlen].
  assert (Hinit : 0 <= home (capacity d) key < capacity d)
    by (apply Z.mod_pos_bound; lia).
  destruct (get_bucket_index_cases d key Hwf) as [[_ Hno]|(k & Hk & Hr & Hs & _)].
  - exfalso. unfold entry_count in Hroom.
    assert (length (buckets d) <= length (concat (buckets d)))%nat; [|lia].
    apply nonempty_buckets_length. intros b Hb ->.
    apply list_elem_of_lookup_1 in Hb as [i Hi].
    pose proof (lookup_lt_Some _ _ _ Hi) as Hlt.
    destruct (at_offset_surj d _ (Z.of_nat i) Hc Hinit ltac:(lia)) as (o & Ho & Hoi).
    specialize (Hno o Ho). unfold stops_at, bucket_at in Hno.
    rewrite Hoi, Nat2Z.id, Hi in Hno. done.
  - set (j := at_offset d (home (capacity d) key) (Z.of_nat k)) in *.
    assert (Hj : 0 <= j < capacity d) by (by apply at_offset_range).
    rewrite (store_spec d key value j Hr) by lia. eauto.
Qed.

(** The growing search stops at a capacity that holds a size below
    2^53, also when the capacity itself is larger than that. *)
Lemma growth_room_any (c sz : Z) (lf cf : Py.float) :
  0 < c -> sz < 2 ^ 53 ->
  Py.float_gt_int lf 0 = true -> Py.float_le_int lf 1 = true ->
  Py.float_of_int c = Ok cf ->
  Py.float_lt_int (Py.float_mul cf lf) sz = false ->
  sz <= c.
Proof.
  intros Hc Hsz Hpos Hle Hcf Hexit.
  destruct (Z.lt_ge_cases c (2 ^ 53)) as [Hsmall|Hbig]; [|lia].
  by apply (growth_room c sz lf cf).
Qed.

(** X19. On a table with a positive capacity and as many buckets, a binary64
    load factor in (0, 1], a size counter that does not undercount the
    entries and is below 2^53 - 1: if the growing search for the new
    size returns, [d[key] = value] returns, for every key, and leaves a
    table of the same kind. *)
Theorem setitem_returns fuel key (value : V) d (c : Z) :
  wf d ->
  valid_binary Py.prec Py.emax (load_factor d) = true ->
  Py.float_gt_int (load_factor d) 0 = true ->
  Py.float_le_int (load_factor d) 1 = true ->
  entry_count d <= size d -> size d + 1 < 2 ^ 53 ->
  define_potential_capacity_increase fuel (load_factor d) (size d + 1) (capacity d) = Ok c ->
  exists d',
    __setitem__ fuel key value d = (Ok tt, d') /\
    wf d' /\ load_factor d' = load_factor d /\
    entry_count d' <= size d' /\ size d' = size d + 1.
Proof.
  intros Hwf Hvalid Hpos Hle Hcount Hsz Hsearch.
  pose proof Hwf as [Hcap Hlen].
  assert (Hsize : 0 <= size d) by (unfold entry_count in Hcount; lia).
  destruct (int_truediv_spec (size d + 1) (capacity d) ltac:(lia) ltac:(lia))
    as (ratio & Hratio & _ & Hone).
  set (d0 := with_size d (size d + 1)).
  assert (Hre : exists d1,
            _capacity_recalculation fuel false d0 = (Ok tt, d1) /\
            wf d1 /\ entry_count d1 < capacity d1).
  { destruct (Py.float_ge ratio (load_factor d)) eqn:Hge.
    - destruct (increase_exit fuel _ _ _ _ Hcap Hsearch) as (Hge' & cf & Hcf & Hexit).
      pose proof (growth_room_any c (size d + 1) _ cf ltac:(lia) Hsz Hpos Hle Hcf Hexit)
        as Hroom.
      destruct (capacity_recalculation_some fuel d0 c) as (arr & Harr & ->); [|lia|].
      { unfold grow_check. simpl. rewrite Hratio. simpl. rewrite Hge.
        by rewrite Hsearch. }
      eexists. split; [done|].
      destruct (rehash_spec (buckets d) c ltac:(lia)) as (arr' & Harr' & Hlen' & _).
      simpl in Harr. assert (arr' = arr) as -> by congruence.
      split; [split; simpl; lia|].
      unfold entry_count in *. simpl.
      rewrite (Permutation_length (rehash_perm _ _ _ Harr)), length_fmap. lia.
    - exists d0. split.
      + apply capacity_recalculation_none. unfold grow_check. simpl.
        rewrite Hratio. simpl. by rewrite Hge.
      + split; [done|]. change (entry_count d0) with (entry_count d).
        change (capacity d0) with (capacity d).
        destruct (Z.lt_ge_cases (size d) (capacity d)) as [|Hfull]; [lia|].
        rewrite (float_ge_one ratio (load_factor d)) in Hge; [done| |done..].
        apply Hone. lia. }
  destruct Hre as (d1 & Hre & Hwf1 & Hroom1).
  destruct (store_returns d1 key value Hwf1 Hroom1) as (r & d2 & Hstore).
  assert (Hset : __setitem__ fuel key value d = (Ok tt, d2)).
  { unfold __setitem__, bindM, read, set_size. simpl. fold d0.
    change {| load_factor := load_factor d; size := size d + 1;
              capacity := capacity d; buckets := buckets d |} with d0.
    by rewrite Hre, Hstore. }
  exists d2. split; [done|]. split; [exact (setitem_ok_wf fuel key value d d2 Hwf Hset)|].
  destruct (setitem_entry_count fuel key value d d2 Hset) as [Hs2 Hcount2].
  destruct (setitem_state fuel key value d) as (d1' & Hd1' & Hcases).
  destruct (recalculated_fields fuel d d1' Hd1') as (_ & Hlf & _).
  split; [|lia].
  destruct Hcases as [(r' & Hr' & Hset')|(j & n & b & _ & _ & _ & Hset')];
    rewrite Hset' in Hset.
  - injection Hset as -> _. done.
  - by injection Hset as <-.
Qed.

End AssignmentReturns.

Section Halving.

Lemma bounded_float_mono (c c' : Z) (f : Py.float) :
  c <= c' -> bounded_float c f -> bounded_float c' f.
Proof.
  intros Hcc. destruct f as [s|s| |[|] m e]; try done.
  simpl. unfold le_scaled. intros Hle.
  assert (0 <= 2 ^ Z.max (- e) 0) by (apply Z.pow_nonneg; lia). nia.
Qed.

(** The product with a load factor in (0, 1] keeps an integer bound
    below 2^53. *)
Lemma mul_bounded (c : Z) (f lf : Py.float) :
  0 <= c < 2 ^ 53 ->
  Py.float_gt_int lf 0 = true -> Py.float_le_int lf 1 = true ->
  bounded_float c f -> bounded_float c (Py.float_mul f lf).
Proof.
  intros Hc Hpos Hle Hb.
  destruct (load_factor_scaled lf Hpos Hle) as (ml & el & -> & Hlf).
  destruct f as [s|s| |[|] m e]; try done.
  simpl in Hb. unfold Py.float_mul, SFmul. simpl xorb.
  apply round_le; [lia|]. rewrite Pos2Z.inj_mul.
  apply le_scaled_mul; try done; lia.
Qed.

(** [int(f)] of a float that an integer bounds. *)
Lemma int_of_float_bounded (c : Z) (f : Py.float) :
  0 <= c -> bounded_float c f ->
  exists z, Py.int_of_float f = Ok z /\ 0 <= z <= c.
Proof.
  intros Hc Hb. destruct f as [s|s| |[|] m e]; try done.
  - exists 0. split; [done|lia].
  - simpl in Hb. unfold le_scaled in Hb. unfold Py.int_of_float.
    eexists. split; [done|].
    destruct (Z.leb_spec 0 e) as [He|He].
    + replace (Z.max e 0) with e in Hb by lia.
      replace (Z.max (- e) 0) with 0 in Hb by lia.
      assert (0 < 2 ^ e) by (by apply Z.pow_pos_nonneg). lia.
    + replace (Z.max e 0) with 0 in Hb by lia.
      replace (Z.max (- e) 0) with (- e) in Hb by lia.
      assert (Hp : 0 < 2 ^ (- e)) by (apply Z.pow_pos_nonneg; lia).
      split; [apply Z.div_pos; lia|].
      apply Z.div_le_upper_bound; lia.
Qed.

(** Dividing by a float whose value is 2 halves an integer bound below
    2^53, rounded up. *)
Lemma halve_bounded (m md : positive) (e ed B : Z) :
  0 <= B < 2 ^ 53 -> le_scaled (Zpos m) e B ->
  ed <= 0 -> Zpos md = 2 ^ (1 - ed) -> Zpos (digits2_pos md) + ed = 2 ->
  bounded_float ((B + 1) / 2)
    (SFdiv Py.prec Py.emax (S754_finite false m e) (S754_finite false md ed)).
Proof.
  intros HB Hle Hed Hmd Hdd. unfold SFdiv.
  destruct (div_core_spec m md e ed) as (q & r & e' & lz & -> & He' & Heq & Hr & Hq & Hlz).
  simpl xorb.
  pose proof (le_scaled_digits m e B ltac:(lia) Hle) as Hdig.
  assert (Hneg : e' <= 0).
  { unfold fexp, emin, Py.prec, Py.emax in He'. lia. }
  set (C := (B + 1) / 2).
  assert (HC : B <= 2 * C < 2 ^ 53 + 2).
  { unfold C. pose proof (Z.div_mod (B + 1) 2 ltac:(lia)).
    pose proof (Z.mod_pos_bound (B + 1) 2 ltac:(lia)). lia. }
  assert (HC' : C < 2 ^ 53).
  { unfold C. apply Z.div_lt_upper_bound; lia. }
  set (s := e - ed - e') in *.
  assert (Hs : 0 <= s) by (unfold s; lia).
  assert (Hpe : 0 < 2 ^ (- e')) by (apply Z.pow_pos_nonneg; lia).
  assert (Hped : 0 < 2 ^ (- ed)) by (apply Z.pow_pos_nonneg; lia).
  assert (Hmd' : Zpos md = 2 * 2 ^ (- ed)).
  { rewrite Hmd. replace (1 - ed) with (1 + - ed) by lia.
    rewrite Z.pow_add_r by lia. done. }
  (* m * 2^s <= B * 2^(-ed) * 2^(-e') *)
  assert (Hms : Zpos m * 2 ^ s <= B * (2 ^ (- ed) * 2 ^ (- e'))).
  { unfold le_scaled in Hle. rewrite <- Z.pow_add_r by lia.
    destruct (Z.le_gt_cases 0 e) as [He|He].
    - replace (Z.max e 0) with e in Hle by lia.
      replace (Z.max (- e) 0) with 0 in Hle by lia. rewrite Z.pow_0_r in Hle.
      replace s with (e + (- ed + - e')) by (unfold s; lia).
      rewrite (Z.pow_add_r 2 e) by lia.
      assert (0 <= 2 ^ (- ed + - e')) by (apply Z.pow_nonneg; lia). nia.
    - replace (Z.max e 0) with 0 in Hle by lia.
      replace (Z.max (- e) 0) with (- e) in Hle by lia. rewrite Z.pow_0_r in Hle.
      replace (- ed + - e') with (- e + s) by (unfold s; lia).
      rewrite (Z.pow_add_r 2 (- e)) by lia.
      assert (0 <= 2 ^ s) by (apply Z.pow_nonneg; lia). nia. }
  rewrite Heq, Hmd' in Hms.
  assert (Hq2 : 2 * q + (if decide (r = 0) then 0 else 1) <= B * 2 ^ (- e')).
  { destruct (decide (r = 0)) as [->|Hr0].
    - assert (2 ^ (- ed) * (2 * q) <= 2 ^ (- ed) * (B * 2 ^ (- e'))) by lia.
      apply Z.mul_le_mono_pos_l in H; lia.
    - assert (2 ^ (- ed) * (2 * q) < 2 ^ (- ed) * (B * 2 ^ (- e'))) by lia.
      apply Z.mul_lt_mono_pos_l in H; lia. }
  apply round_le_gen; [done|done| |].
  - unfold le_scaled. replace (Z.max e' 0) with 0 by lia.
    replace (Z.max (- e') 0) with (- e') by lia. rewrite Z.pow_0_r.
    destruct (decide (r = 0)); nia.
  - intros Hl. specialize (Hlz Hl).
    unfold le_scaled. replace (Z.max e' 0) with 0 by lia.
    replace (Z.max (- e') 0) with (- e') by lia. rewrite Z.pow_0_r.
    destruct (decide (r = 0)); [done|]. nia.
Qed.

(** [previous_capacity / 2] halves an integer bound, rounded up. *)
Lemma num_half_bounded (B : Z) (prev : Py.num) :
  1 <= B < 2 ^ 53 -> bounded_num B prev ->
  exists half, Py.num_half prev = Ok half /\ bounded_float ((B + 1) / 2) half.
Proof.
  intros HB Hb. destruct prev as [z|f]; simpl in *.
  - unfold Py.int_truediv. simpl Z.eqb. cbv iota.
    destruct z as [|p|p]; try lia. unfold Py.exact.
    pose proof (halve_bounded p 2 0 0 B ltac:(lia)) as Hh.
    assert (Hle : le_scaled (Zpos p) 0 B).
    { unfold le_scaled. change (Z.max 0 0) with 0. change (Z.max (- 0) 0) with 0.
      rewrite Z.pow_0_r. lia. }
    specialize (Hh Hle ltac:(lia) eq_refl eq_refl).
    destruct (SFdiv _ _ _ _) as [?|?| |[|] ? ?]; try done; eauto.
  - unfold Py.float_truediv, Py.two.
    destruct f as [s|s| |[|] m e]; try done.
    + eexists. split; [done|]. by destruct s.
    + eexists. split; [done|].
      apply (halve_bounded m 4503599627370496 e (-51) B); try done; lia.
Qed.

(** The shrinking search from a capacity that [B <= 2^n] bounds ends
    within [n + 1] tests of its condition, and what it returns is at most
    [B]. *)
Lemma decrease_terminates (lf : Py.float) (sz : Z) :
  1 <= sz ->
  Py.float_gt_int lf 0 = true -> Py.float_le_int lf 1 = true ->
  forall (n fuel : nat) (prev : Py.num) (B : Z),
    (n < fuel)%nat -> 1 <= B < 2 ^ 53 -> B <= 2 ^ Z.of_nat n ->
    bounded_num B prev ->
    exists c, define_potential_capacity_decrease fuel lf sz prev = Ok c /\ c <= B.
Proof.
  intros Hsz Hpos Hle.
  induction n as [|n IH]; intros fuel prev B Hfuel HB Hpow Hb;
    (destruct fuel as [|fuel]; [lia|]); simpl.
  - destruct (num_half_bounded B prev HB Hb) as (half & -> & Hhalf). simpl.
    assert (B = 1) as -> by (simpl in Hpow; lia).
    change ((1 + 1) / 2) with 1 in Hhalf.
    pose proof (mul_bounded 1 half lf ltac:(lia) Hpos Hle Hhalf) as Hprod.
    apply (bounded_float_mono 1 sz) in Hprod; [|done].
    rewrite (gt_bounded sz _ Hprod) by lia.
    destruct prev as [z|f]; simpl in *; [exists z; split; [done|lia]|].
    destruct (int_of_float_bounded 1 f ltac:(lia) Hb) as (z & -> & Hz). exists z.
    split; [done|lia].
  - destruct (num_half_bounded B prev HB Hb) as (half & -> & Hhalf). simpl.
    assert (HB' : (B + 1) / 2 <= 2 ^ Z.of_nat n /\ 1 <= (B + 1) / 2 <= B).
    { rewrite Nat2Z.inj_succ, Z.pow_succ_r in Hpow by lia.
      pose proof (Z.div_mod (B + 1) 2 ltac:(lia)).
      pose proof (Z.mod_pos_bound (B + 1) 2 ltac:(lia)). lia. }
    destruct (Py.float_gt_int (Py.float_mul half lf) sz).
    + destruct (IH fuel (Py.Float half) ((B + 1) / 2)) as (c & -> & Hc);
        [lia|lia|lia|done|].
      exists c. split; [done|lia].
    + destruct prev as [z|f]; simpl in *; [exists z; split; [done|lia]|].
      destruct (int_of_float_bounded B f ltac:(lia) Hb) as (z & -> & Hz). exists z.
      split; [done|lia].
Qed.

(** X20. The shrinking search from a capacity from 1 up to 2^53, with a
    positive size below 2^53 and a load factor in (0, 1], returns within
    54 tests of its condition; the capacity it returns is positive, at
    most the one it was given, and either that one or at least the
    size. *)
Theorem decrease_search_returns (fuel : nat) (lf : Py.float) (sz cap : Z) :
  (54 <= fuel)%nat ->
  1 <= sz < 2 ^ 53 -> 1 <= cap < 2 ^ 53 ->
  Py.float_gt_int lf 0 = true -> Py.float_le_int lf 1 = true ->
  exists c,
    define_potential_capacity_decrease fuel lf sz (Py.Int cap) = Ok c /\
    1 <= c <= cap /\ (c = cap \/ sz <= c).
Proof.
  intros Hfuel Hsz Hcap Hpos Hle.
  destruct (decrease_terminates lf sz ltac:(lia) Hpos Hle 53 fuel (Py.Int cap) cap)
    as (c & Hc & Hub); [lia|lia| |simpl; lia|].
  { change (Z.of_nat 53) with 53. lia. }
  exists c. split; [done|].
  destruct (decrease_room fuel lf sz Hsz Hpos Hle (Py.Int cap) c I Hc) as [[= ->]|Hroom];
    [split; [lia|by left]|split; [lia|by right]].
Qed.

End Halving.

Section DeletionReturns.

Context {K V : Type} `{PyKey K}.

Implicit Types (d : Dictionary K V) (b : bucket K V) (bs : list (bucket K V)).
Implicit Types (key : K) (e : entry K V).

Lemma find_find_key key b e :
  find (fun e => py_eq (entry_key e) key) b = Some e ->
  exists i, find_key key b = Some i.
Proof.
  induction b as [|e0 b IH]; simpl; [done|].
  destruct (py_eq (entry_key e0) key); [eauto|].
  intros [i ->]%IH. simpl. eauto.
Qed.

(** X21. On a table with a positive capacity below 2^53 and as many buckets,
    a load factor in (0, 1] and a size counter from 2 up to 2^53:
    [del d[key]] returns for every key that [d[key]] finds, and leaves a
    table with a positive capacity, not above the old one, and as many
    buckets. *)
Theorem delitem_returns fuel key d (v : V) :
  (54 <= fuel)%nat ->
  wf d -> capacity d < 2 ^ 53 ->
  Py.float_gt_int (load_factor d) 0 = true ->
  Py.float_le_int (load_factor d) 1 = true ->
  2 <= size d <= 2 ^ 53 ->
  __getitem__ d key = Ok v ->
  exists d',
    __delitem__ fuel key d = (Ok tt, d') /\
    wf d' /\ size d' = size d - 1 /\ load_factor d' = load_factor d /\
    capacity d' <= capacity d /\
    (capacity d' = capacity d \/ size d' <= capacity d').
Proof.
  intros Hfuel Hwf Hcap253 Hpos Hle Hsz Hget.
  pose proof Hwf as [Hcap Hlen].
  destruct (getitem_inv d key v Hwf Hget) as (j & e & Hj & Hrange & Hfind & _).
  destruct (find_find_key key _ e Hfind) as [i Hi].
  destruct (find_key_Some key _ i Hi) as (e' & Hie & _).
  set (d1 := {| load_factor := load_factor d; size := size d - 1;
                capacity := capacity d;
                buckets := <[Z.to_nat j := delete i (bucket_at (buckets d) j)]> (buckets d) |}).
  assert (Hwf1 : wf d1).
  { split; [done|]. simpl. by rewrite length_insert. }
  assert (Hstep : __delitem__ fuel key d =
                  (if size d - 1 <? capacity d / 4 then _resize fuel true d1 else (Ok tt, d1))).
  { unfold __delitem__, bindM, read. rewrite Hj. simpl.
    rewrite getitem_bucket_at by lia. simpl. rewrite Hi.
    rewrite setitem_in_range by lia. unfold set_buckets, set_size. simpl.
    fold d1. by destruct (size d - 1 <? capacity d / 4). }
  rewrite Hstep. destruct (size d - 1 <? capacity d / 4).
  - destruct (decrease_terminates (load_factor d) (size d - 1) ltac:(lia) Hpos Hle
                53 fuel (Py.Int (capacity d)) (capacity d))
      as (c & Hc & Hub); [lia|lia| |simpl; lia|].
    { change (Z.of_nat 53) with 53. lia. }
    destruct (decrease_room fuel (load_factor d) (size d - 1) ltac:(lia) Hpos Hle
                (Py.Int (capacity d)) c I Hc) as [Hsame|Hroom].
    + injection Hsame as Hsame.
      destruct (resize_ok fuel true d1 c Hc ltac:(lia)) as (arr & Harr & ->).
      destruct (rehash_spec (buckets d1) c ltac:(lia)) as (arr' & Harr' & Hlen' & _).
      assert (arr' = arr) as -> by congruence.
      eexists. split; [done|]. simpl.
      split; [split; simpl; lia|]. split; [done|]. split; [done|].
      split; [lia|by left].
    + destruct (resize_ok fuel true d1 c Hc ltac:(lia)) as (arr & Harr & ->).
      destruct (rehash_spec (buckets d1) c ltac:(lia)) as (arr' & Harr' & Hlen' & _).
      assert (arr' = arr) as -> by congruence.
      eexists. split; [done|]. simpl.
      split; [split; simpl; lia|]. split; [done|]. split; [done|].
      split; [done|by right].
  - exists d1. split; [done|]. split; [done|]. split; [done|]. split; [done|].
    split; [simpl; lia|by left].
Qed.

End DeletionReturns.

Section DisplacedKeys.

Context {K V : Type} `{PyKey K}.

Implicit Types (d : Dictionary K V) (b : bucket K V) (bs : list (bucket K V)).
Implicit Types (key : K) (e : entry K V).

(** The probe stops at once on an empty home bucket: the lookup never
    looks past it. *)
Lemma empty_home_getitem d key :
  wf d -> bucket_at (buckets d) (home (capacity d) key) = [] ->
  __getitem__ d key = Raise KeyError.
Proof.
  intros Hwf Hempty. pose proof Hwf as [Hc Hlen].
  assert (Hinit : 0 <= home (capacity d) key < capacity d)
    by (apply Z.mod_pos_bound; lia).
  assert (H0 : at_offset d (home (capacity d) key) 0 = home (capacity d) key)
    by (by apply at_offset_0).
  assert (Hstop : stops_at d key (home (capacity d) key) 0 = true).
  { unfold stops_at. by rewrite H0, Hempty. }
  destruct (get_bucket_index_cases d key Hwf) as [[_ Hno]|(k & Hk & Hr & _ & Hbefore)].
  - rewrite Hno in Hstop by lia. done.
  - destruct k as [|k]; [|rewrite (Hbefore 0) in Hstop by lia; done].
    change (Z.of_nat 0) with 0 in Hr. rewrite H0 in Hr.
    rewrite (getitem_spec d key _ Hwf Hr). by rewrite Hempty.
Qed.

(** X22. Deleting the only entry of a bucket, when no shrinking follows,
    hides every key whose hash leads to that bucket: such a key may
    still be stored in a later bucket, where the probe had put it, and
    is still yielded by iteration, but [d[key2]] raises [KeyError]. *)
Theorem delitem_hides_displaced_key fuel key key2 d e (j : Z) :
  wf d ->
  _get_bucket_index d key = Ok j ->
  bucket_at (buckets d) j = [e] ->
  py_eq (entry_key e) key = true ->
  home (capacity d) key2 = j ->
  capacity d / 4 <= size d - 1 ->
  exists d',
    __delitem__ fuel key d = (Ok tt, d') /\
    __iter__ d ≡ₚ (entry_key e, entry_value e) :: __iter__ d' /\
    __getitem__ d' key2 = Raise KeyError /\
    __contains__ key2 d' = (Ok false, d').
Proof.
  intros Hwf Hj Hb Heq Hhome Hbig. pose proof Hwf as [Hc Hlen].
  pose proof (get_bucket_index_range d key j Hwf Hj) as Hrange.
  set (d' := {| load_factor := load_factor d; size := size d - 1;
                capacity := capacity d;
                buckets := <[Z.to_nat j := []]> (buckets d) |}).
  assert (Hdel : __delitem__ fuel key d = (Ok tt, d')).
  { unfold __delitem__, bindM, read. rewrite Hj. simpl.
    rewrite getitem_bucket_at by lia. simpl. rewrite Hb. simpl. rewrite Heq.
    rewrite setitem_in_range by lia. unfold set_buckets, set_size. simpl.
    destruct (Z.ltb_spec (size d - 1) (capacity d / 4)); [lia|done]. }
  assert (Hwf' : wf d').
  { split; [done|]. simpl. by rewrite length_insert. }
  assert (Hget : __getitem__ d' key2 = Raise KeyError).
  { apply empty_home_getitem; [done|]. simpl. rewrite Hhome.
    rewrite bucket_at_insert by lia. by rewrite decide_True. }
  exists d'. split; [done|]. split; [|split; [done|]].
  - destruct (delitem_entries fuel key d d'
                (fun e => (entry_key e, entry_value e)) pair_refresh Hdel)
      as (_ & _ & e' & _ & Hperm).
    destruct (concat_insert_perm (buckets d) (Z.to_nat j) [e] [])
      as (rest & Hold & Hnew).
    { rewrite <- Hb. apply bucket_at_lookup. lia. }
    unfold __iter__. simpl. rewrite Hold, Hnew. done.
  - unfold __contains__. by rewrite Hget.
Qed.

(** X23. A table all of whose buckets are occupied, none by a key that is
    [==] to [key] and of its type: when the load check asks for no
    resize, [d[key] = value] raises [KeyError], with [size] already
    incremented, and [d[key]] raises [KeyError] too. *)
Theorem full_table_setitem_raises fuel key (value : V) d (ratio : Py.float) :
  wf d ->
  (forall i, 0 <= i < capacity d -> ~ bucket_stops key (bucket_at (buckets d) i)) ->
  Py.int_truediv (size d + 1) (capacity d) = Ok ratio ->
  Py.float_ge ratio (load_factor d) = false ->
  __setitem__ fuel key value d = (Raise KeyError, with_size d (size d + 1)) /\
  __getitem__ d key = Raise KeyError.
Proof.
  intros Hwf Hfull Hratio Hge. pose proof Hwf as [Hc Hlen].
  assert (Hinit : 0 <= home (capacity d) key < capacity d)
    by (apply Z.mod_pos_bound; lia).
  assert (Hidx : forall d0, wf d0 -> capacity d0 = capacity d -> buckets d0 = buckets d ->
                 _get_bucket_index d0 key = Raise KeyError).
  { intros d0 Hwf0 Hc0 Hb0.
    destruct (get_bucket_index_cases d0 key Hwf0) as [[Hr _]|(k & Hk & _ & Hs & _)];
      [done|exfalso].
    unfold stops_at in Hs. rewrite Hb0 in Hs. apply stopb_spec in Hs.
    apply (Hfull (at_offset d0 (home (capacity d0) key) (Z.of_nat k))); [|done].
    rewrite <- Hc0. by apply at_offset_range. }
  split.
  - unfold __setitem__, bindM, read, set_size. simpl.
    change {| load_factor := load_factor d; size := size d + 1;
              capacity := capacity d; buckets := buckets d |}
      with (with_size d (size d + 1)).
    rewrite capacity_recalculation_none.
    + unfold store, bindM, read. by rewrite (Hidx (with_size d (size d + 1))).
    + unfold grow_check. simpl. rewrite Hratio. simpl. by rewrite Hge.
  - unfold __getitem__. by rewrite (Hidx d).
Qed.

End DisplacedKeys.

Section ResizeHeals.

Context {K V : Type} `{PyKey K}.

Implicit Types (d : Dictionary K V) (key : K).

Hypothesis eq_faithful : forall a b : K, py_eq a b = true <-> a = b.
Hypothesis type_refl : forall a : K, py_same_type a a = true.

(** X24. On keys for which [==] is identity, a resize to a positive capacity
    of a table that holds no key twice makes every stored pair
    retrievable, whatever deletions did to the probe sequences before. *)
Theorem resize_makes_retrievable fuel (smaller : bool) d (c : Z) :
  NoDup (keys_of d) ->
  searched_capacity fuel smaller d = Ok c -> 0 < c ->
  exists d',
    _resize fuel smaller d = (Ok tt, d') /\ capacity d' = c /\
    __iter__ d' ≡ₚ __iter__ d /\
    forall k v, (k, v) ∈ __iter__ d -> __getitem__ d' k = Ok v.
Proof.
  intros Hnd Hsearch Hc.
  destruct (resize_ok fuel smaller d c Hsearch Hc) as (arr & Harr & ->).
  eexists. split; [done|]. split; [done|].
  destruct (rehash_consistent eq_faithful type_refl (buckets d) c arr
              (load_factor d) (size d) Hc Hnd Harr) as [Hcons Hst].
  split.
  - unfold __iter__. simpl. rewrite <- (iter_refresh (concat (buckets d))).
    apply Permutation_map. by apply rehash_perm with c.
  - intros k v Hin. apply (getitem_stored eq_faithful); [done|].
    apply Hst. unfold __iter__ in Hin.
    apply list_elem_of_In, in_map_iff in Hin as (e & [= <- <-] & Hin).
    exists e. split; [by apply list_elem_of_In|done].
Qed.

End ResizeHeals.

Section LoadFactorTest.

Variable str_hash : string -> Z.

Let keys : PyKey pykey := pykey_PyKey str_hash.
#[local] Existing Instance keys.

Lemma seven_keys_distinct : pairwise_ne (test_keys 0 7).
Proof. apply pairwise_neb_spec. vm_compute. reflexivity. Qed.

(** X25. Whatever the hash of strings is: on
    [Dictionary(initial_capacity=8, load_factor=0.75)] the seven
    assignments of [test_load_factor_edge_changes] all return and leave
    length 7 and capacity 16; the four deletions that follow all return
    and leave length 3 and capacity 8. *)
Theorem seven_inserts_four_deletes :
  exists d0 d7 d11 : Dictionary pykey string,
    __init__ 64 8 three_quarters [] = Ok d0 /\
    script 64 (insert_range 0 7) d0 = Ok d7 /\
    __len__ d7 = 7 /\ capacity d7 = 16 /\
    script 64 (delete_range 0 4) d7 = Ok d11 /\
    __len__ d11 = 3 /\ capacity d11 = 8.
Proof.
  set (d0 := {| load_factor := three_quarters; size := 0; capacity := 8;
                buckets := replicate 8 [] |} : Dictionary pykey string).
  assert (Hwf0 : wf d0) by (split; [done|reflexivity]).
  pose proof seven_keys_distinct as Hdist.
  change (test_keys 0 7) with (test_keys 0 4 ++ test_keys 4 3) in Hdist.
  (* the first four assignments *)
  destruct (sets_fresh_run 64 (test_items 0 4) d0 4 8 false Hwf0) as
    (d4 & Hrun1 & Hs1 & Hc1 & Hlf1 & Hwf1 & Hn1 & Hkeys1 & _).
  { done. }
  { intros k k' Hk. by apply elem_of_nil in Hk. }
  { rewrite test_items_keys. intros i j ki kj Hi Hj Hij.
    apply (Hdist i j); [by apply lookup_app_l_Some|by apply lookup_app_l_Some|done]. }
  { vm_compute. reflexivity. }
  rewrite test_items_keys in Hkeys1.
  change (keys_of d0) with (@nil pykey) in Hkeys1. rewrite app_nil_l in Hkeys1.
  (* the other three: the table is rehashed on the way *)
  destruct (sets_fresh_run 64 (test_items 4 3) d4 7 16 true Hwf1 Hn1) as
    (d7 & Hrun2 & Hs2 & Hc2 & Hlf2 & Hwf2 & Hn2 & Hkeys2 & Hhome).
  { rewrite test_items_keys. intros k k' Hk Hk'. rewrite Hkeys1 in Hk.
    by apply (pairwise_ne_app _ _ _ _ _ Hdist). }
  { rewrite test_items_keys. intros i j ki kj Hi Hj Hij.
    assert (Hlen : length (test_keys 0 4) = 4%nat) by reflexivity.
    apply (Hdist (4 + i)%nat (4 + j)%nat); [| |lia].
    - rewrite lookup_app_r by (rewrite Hlen; lia).
      rewrite Hlen. by replace (4 + i - 4)%nat with i by lia.
    - rewrite lookup_app_r by (rewrite Hlen; lia).
      rewrite Hlen. by replace (4 + j - 4)%nat with j by lia. }
  { rewrite Hs1, Hc1, Hlf1. vm_compute. reflexivity. }
  (* the four deletions *)
  destruct (dels_home_run 64 (test_keys 0 4) d7 3 8 Hwf2) as
    (d11 & Hrun3 & Hs3 & Hc3 & _).
  { intros k Hk. split; [|by eapply test_keys_self_equal].
    apply Hhome. right. split; [done|]. by rewrite Hkeys1. }
  { intros i j ki kj Hi Hj Hij.
    apply (Hdist i j); [by apply lookup_app_l_Some|by apply lookup_app_l_Some|done]. }
  { rewrite Hs2, Hc2, Hlf2, Hlf1. vm_compute. reflexivity. }
  exists d0, d7, d11. split; [reflexivity|]. split.
  { change (insert_range 0 7) with (insert_range 0 4 ++ insert_range 4 3).
    rewrite script_app. unfold insert_range. rewrite Hrun1. simpl. exact Hrun2. }
  unfold __len__. done.
Qed.

End LoadFactorTest.

Section DeletionRuns.

Context {K V : Type} `{PyKey K}.

Implicit Types (d : Dictionary K V) (key : K) (ks : list K).



End DeletionRuns.

Section MemoryTest.

Variable str_hash : string -> Z.

Let keys : PyKey pykey := pykey_PyKey str_hash.
#[local] Existing Instance keys.



(** The second case is met: under a hash of strings by their length the
    85 keys stored before the last growth share the buckets 4 and 5 of
    256 and "key85" .. "key99" were put into the buckets that follow.
    The deletions of "key50" .. "key85" return, the last of them empties
    bucket 6, and [del d["key86"]] is led to that empty bucket and raises
    [KeyError] for a key that is stored. *)
Lemma displaced_deletions_raise :
  observe demo_hash 64 (insert_range 0 100 ++ delete_range 50 50) capacity
  = Raise KeyError /\
  observe demo_hash 64 (insert_range 0 100 ++ delete_range 50 36)
    (fun d => (capacity d, __len__ d)) = Ok (256, 64).
Proof. split; vm_compute; reflexivity. Qed.

End MemoryTest.

Section Checking.

Context {K V : Type} `{PyKey K}.

(** [absent] on a given table is checked by running over its keys. *)
Lemma absent_forallb (key : K) (d : Dictionary K V) :
  forallb (fun k => negb (py_eq k key)) (keys_of d) = true -> absent key d.
Proof.
  intros Hall k Hk. rewrite forallb_forall in Hall.
  apply list_elem_of_In in Hk. specialize (Hall k Hk). by destruct (py_eq k key).
Qed.

End Checking.

Section Witnesses.

#[local] Existing Instance demo_keys.

Lemma resize_rehashes_in_order_witness :
  exists new_buckets,
    rehash (buckets demo_table_grown) 16 = Ok new_buckets /\
    Z.of_nat (length new_buckets) = 16 /\
    (forall i, 0 <= i < 16 ->
       new_buckets !! Z.to_nat i =
       Some (map (fun e => (entry_key e, entry_value e, py_hash (entry_key e)))
               (filter (fun e => py_hash (entry_key e) mod 16 = i)
                  (concat (buckets demo_table_grown))))) /\
    map (fun e => (entry_key e, entry_value e)) (concat new_buckets)
      ≡ₚ __iter__ demo_table_grown /\
    forall fuel smaller,
      searched_capacity fuel smaller demo_table_grown = Ok 16 ->
      _resize fuel smaller demo_table_grown =
        (Ok tt, {| load_factor := load_factor demo_table_grown;
                   size := size demo_table_grown;
                   capacity := 16; buckets := new_buckets |}).
Proof. apply (resize_rehashes_in_order demo_table_grown 16). lia. Defined.

Lemma get_bucket_index_terminates_witness :
  let d := demo_table in
  let key := KFloat ten_float in
  let c := capacity d in
  let init := py_hash key mod c in
  exists (n : nat) (r : result Z),
    (1 <= n <= Z.to_nat c)%nat /\
    probe n d key init init (bucket_at (buckets d) init) = r /\
    _get_bucket_index d key = r /\
    ((r = Raise KeyError /\ n = Z.to_nat c /\
      forall i, 0 <= i < c -> ~ bucket_stops key (bucket_at (buckets d) i)) \/
     (exists o,
        0 <= o < c /\ Z.of_nat n = o + 1 /\
        r = Ok ((init + o) mod c) /\
        bucket_stops key (bucket_at (buckets d) ((init + o) mod c)) /\
        forall i, 0 <= i < o ->
          ~ bucket_stops key (bucket_at (buckets d) ((init + i) mod c)))).
Proof.
  apply (get_bucket_index_terminates demo_table (KFloat ten_float));
    [simpl; lia|reflexivity].
Defined.


Lemma setitem_keeps_wf_witness :
  wf (__setitem__ 64 (KInt 6) "d"%string demo_table).2 /\
  exists k : nat,
    capacity (__setitem__ 64 (KInt 6) "d"%string demo_table).2 =
    capacity demo_table * 2 ^ Z.of_nat k.
Proof.
  apply (setitem_keeps_wf 64 (KInt 6) "d"%string demo_table).
  split; [reflexivity|reflexivity].
Defined.

Lemma setitem_changes_one_pair_witness :
  let d' := (__setitem__ 64 (KFloat ten_float) "value3"%string demo_table).2 in
  __iter__ d' ≡ₚ (KFloat ten_float, "value3"%string) :: __iter__ demo_table \/
  exists k v rest,
    py_eq k (KFloat ten_float) = true /\
    __iter__ demo_table ≡ₚ (k, v) :: rest /\
    __iter__ d' ≡ₚ (KFloat ten_float, "value3"%string) :: rest.
Proof.
  apply (setitem_changes_one_pair 64 (KFloat ten_float) "value3"%string demo_table).
  vm_compute. reflexivity.
Defined.

Lemma setitem_then_getitem_witness :
  let d' := (__setitem__ 64 (KInt 6) "d"%string demo_table).2 in
  __getitem__ d' (KInt 6) = Ok "d"%string /\
  __contains__ (KInt 6) d' = (Ok true, d').
Proof.
  apply (setitem_then_getitem 64 (KInt 6) "d"%string demo_table).
  - split; reflexivity.
  - split; reflexivity.
  - vm_compute. reflexivity.
Defined.

Lemma missing_key_raises_witness :
  __getitem__ demo_table (KInt 7) = Raise KeyError /\
  __contains__ (KInt 7) demo_table = (Ok false, demo_table) /\
  __delitem__ 64 (KInt 7) demo_table = (Raise KeyError, demo_table).
Proof.
  apply (missing_key_raises 64 (KInt 7) demo_table).
  - split; reflexivity.
  - apply absent_forallb. reflexivity.
Defined.

Lemma contains_agrees_with_getitem_witness :
  exists b : bool,
    __contains__ (KFloat ten_float) demo_table = (Ok b, demo_table) /\
    (b = true <-> exists v, __getitem__ demo_table (KFloat ten_float) = Ok v).
Proof.
  apply (contains_agrees_with_getitem (KFloat ten_float) demo_table).
  split; reflexivity.
Defined.

Lemma zero_capacity_raises_witness :
  __getitem__ drained (KInt 2) = Raise ZeroDivisionError /\
  __contains__ (KInt 2) drained = (Raise ZeroDivisionError, drained) /\
  __delitem__ 64 (KInt 2) drained = (Raise ZeroDivisionError, drained) /\
  __setitem__ 64 (KInt 2) "x"%string drained =
    (Raise ZeroDivisionError, with_size drained (size drained + 1)).
Proof. apply (zero_capacity_raises 64 (KInt 2) "x"%string drained). reflexivity. Defined.

Lemma delitem_removes_one_pair_witness :
  let d' := (__delitem__ 64 (KInt 4) demo_table).2 in
  size d' = size demo_table - 1 /\
  exists k v, py_eq k (KInt 4) = true /\ __iter__ demo_table ≡ₚ (k, v) :: __iter__ d'.
Proof.
  apply (delitem_removes_one_pair 64 (KInt 4) demo_table).
  vm_compute. reflexivity.
Defined.

Lemma len_gap_never_shrinks_witness :
  __len__ demo_table - entry_count demo_table <=
  __len__ demo_table_updated - entry_count demo_table_updated.
Proof.
  apply (len_gap_never_shrinks 64 demo_mixed_script demo_table demo_table_updated).
  vm_compute. reflexivity.
Defined.

Lemma self_unequal_key_is_lost_witness :
  let d' := (__setitem__ 64 (KFloat S754_nan) "x"%string demo_table).2 in
  __iter__ d' ≡ₚ (KFloat S754_nan, "x"%string) :: __iter__ demo_table /\
  __getitem__ d' (KFloat S754_nan) = Raise KeyError /\
  __contains__ (KFloat S754_nan) d' = (Ok false, d').
Proof.
  apply (self_unequal_key_is_lost 64 (KFloat S754_nan) "x"%string demo_table).
  - split; reflexivity.
  - apply absent_forallb. reflexivity.
  - reflexivity.
  - vm_compute. reflexivity.
Defined.

Lemma increase_search_ends_witness :
  exists r,
    (forall fuel, (1025 <= fuel)%nat ->
       define_potential_capacity_increase fuel default_load_factor 100 8 = r) /\
    ((exists k : nat, r = Ok (8 * 2 ^ Z.of_nat k)) \/ r = Raise OverflowError).
Proof. apply (increase_search_ends default_load_factor 100 8). lia. Defined.

Lemma increase_search_first_witness :
  (exists k : nat,
     256 = 8 * 2 ^ Z.of_nat k /\
     too_small default_load_factor 100 256 = Ok false /\
     forall j : nat, (j < k)%nat ->
       too_small default_load_factor 100 (8 * 2 ^ Z.of_nat j) = Ok true) /\
  (0 < 8 -> Py.float_gt_int default_load_factor 0 = true ->
   Py.float_le_int default_load_factor 1 = true -> 256 < 2 ^ 53 -> 100 <= 256).
Proof.
  apply (increase_search_first 64 default_load_factor 100 8 256).
  vm_compute. reflexivity.
Defined.

Lemma init_one_pair_per_bucket_witness :
  exists d,
    __init__ 64 8 default_load_factor demo_kwargs = Ok d /\
    (forall k v, (k, v) ∈ demo_kwargs -> [(k, v, py_hash k)] ∈ buckets d) /\
    (forall b, b ∈ buckets d ->
       b = [] \/ exists k v, (k, v) ∈ demo_kwargs /\ b = [(k, v, py_hash k)]).
Proof.
  apply (init_one_pair_per_bucket 64 8 default_load_factor demo_kwargs 8).
  - apply pairwise_neb_spec. reflexivity.
  - intros k Hk. apply (test_keys_self_equal demo_hash 1 3). exact Hk.
  - lia.
  - reflexivity.
  - reflexivity.
  - reflexivity.
  - lia.
Defined.

Lemma init_empty_witness :
  exists d : Dictionary pykey string,
    __init__ 1 8 default_load_factor [] = Ok d /\
    capacity d = 8 /\ buckets d = replicate (Z.to_nat 8) [] /\
    load_factor d = default_load_factor /\ __len__ d = 0 /\ __iter__ d = [] /\
    forall key,
      __getitem__ d key = Raise KeyError /\ __contains__ key d = (Ok false, d).
Proof.
  apply (init_empty (K := pykey) (V := string) 0 8 default_load_factor).
  - lia.
  - reflexivity.
Defined.

Lemma set_get_faithful_witness :
  consistent (H := str_keys demo_hash) demo_str_updated /\
  forall k,
    __getitem__ (H := str_keys demo_hash) demo_str_updated k =
    match last_set (H := str_keys demo_hash) demo_update_script k with
    | Some v => Ok v
    | None => __getitem__ (H := str_keys demo_hash) demo_empty k
    end.
Proof.
  apply (set_get_faithful (H := str_keys demo_hash)
           (fun a b => String.eqb_eq a b) (fun _ => eq_refl)
           64 demo_update_script demo_empty demo_str_updated).
  - split; [split; reflexivity|]. split; [|apply NoDup_nil_2].
    intros e He. vm_compute in He. by apply elem_of_nil in He.
  - reflexivity.
  - vm_compute. reflexivity.
Defined.

(** The table [demo_str_updated] holds "key1" and "key2". *)
Lemma delitem_then_getitem_witness :
  let d' := (__delitem__ (H := str_keys demo_hash) 64 "key1"%string demo_str_updated).2 in
  keys_of demo_str_updated ≡ₚ "key1"%string :: keys_of d' /\
  __getitem__ (H := str_keys demo_hash) d' "key1"%string = Raise KeyError /\
  __contains__ (H := str_keys demo_hash) "key1"%string d' = (Ok false, d').
Proof.
  apply (delitem_then_getitem (H := str_keys demo_hash)
           (fun a b => String.eqb_eq a b) 64 "key1"%string demo_str_updated).
  - split; reflexivity.
  - vm_compute. apply NoDup_cons. split.
    + intros Hin. apply list_elem_of_singleton in Hin. discriminate.
    + apply NoDup_singleton.
  - vm_compute. reflexivity.
  - reflexivity.
Defined.

Lemma decrease_search_keeps_room_witness : 128 = 256 \/ 50 <= 128.
Proof.
  apply (decrease_search_keeps_room 64 default_load_factor 50 256 128).
  - lia.
  - reflexivity.
  - reflexivity.
  - vm_compute. reflexivity.
Defined.

Lemma delitem_keeps_wf_witness :
  let d' := (__delitem__ 64 (KInt 4) demo_table).2 in
  wf d' /\ (capacity d' = capacity demo_table \/ size d' <= capacity d').
Proof.
  apply (delitem_keeps_wf 64 (KInt 4) demo_table).
  - split; reflexivity.
  - reflexivity.
  - reflexivity.
  - simpl. lia.
Defined.

Lemma setitem_returns_witness :
  exists d',
    __setitem__ 64 (KInt 6) "d"%string demo_table = (Ok tt, d') /\
    wf d' /\ load_factor d' = load_factor demo_table /\
    entry_count d' <= size d' /\ size d' = size demo_table + 1.
Proof.
  apply (setitem_returns 64 (KInt 6) "d"%string demo_table 16).
  - split; reflexivity.
  - reflexivity.
  - reflexivity.
  - reflexivity.
  - unfold entry_count. simpl. lia.
  - simpl. lia.
  - vm_compute. reflexivity.
Defined.

Lemma decrease_search_returns_witness :
  exists c,
    define_potential_capacity_decrease 64 default_load_factor 50 (Py.Int 256) = Ok c /\
    1 <= c <= 256 /\ (c = 256 \/ 50 <= c).
Proof.
  apply (decrease_search_returns 64 default_load_factor 50 256).
  - lia.
  - lia.
  - lia.
  - reflexivity.
  - reflexivity.
Defined.

Lemma delitem_returns_witness :
  exists d',
    __delitem__ 64 (KInt 4) demo_table = (Ok tt, d') /\
    wf d' /\ size d' = size demo_table - 1 /\
    load_factor d' = load_factor demo_table /\
    capacity d' <= capacity demo_table /\
    (capacity d' = capacity demo_table \/ size d' <= capacity d').
Proof.
  apply (delitem_returns 64 (KInt 4) demo_table "b"%string).
  - lia.
  - split; reflexivity.
  - simpl. lia.
  - reflexivity.
  - reflexivity.
  - simpl. lia.
  - reflexivity.
Defined.

Lemma delitem_hides_displaced_key_witness :
  exists d',
    __delitem__ 64 (KInt 10) demo_table = (Ok tt, d') /\
    __iter__ demo_table ≡ₚ (KInt 10, "value1"%string) :: __iter__ d' /\
    __getitem__ d' (KFloat ten_float) = Raise KeyError /\
    __contains__ (KFloat ten_float) d' = (Ok false, d').
Proof.
  apply (delitem_hides_displaced_key 64 (KInt 10) (KFloat ten_float) demo_table
           (KInt 10, "value1"%string, 10) 2).
  - split; reflexivity.
  - reflexivity.
  - reflexivity.
  - reflexivity.
  - reflexivity.
  - apply Z.leb_le. reflexivity.
Defined.

Lemma full_table_setitem_raises_witness :
  __setitem__ 64 (KInt 3) "c"%string demo_full =
    (Raise KeyError, with_size demo_full (size demo_full + 1)) /\
  __getitem__ demo_full (KInt 3) = Raise KeyError.
Proof.
  apply (full_table_setitem_raises 64 (KInt 3) "c"%string demo_full
           (S754_finite false 6755399441055744 (-52))).
  - split; reflexivity.
  - intros i Hi. apply stopb_false.
    destruct (decide (i = 0)) as [->|]; [reflexivity|].
    assert (i = 1) as -> by (simpl in Hi; lia). reflexivity.
  - vm_compute. reflexivity.
  - reflexivity.
Defined.

Lemma resize_makes_retrievable_witness :
  exists d',
    _resize (H := str_keys demo_hash) 64 false demo_str_updated = (Ok tt, d') /\
    capacity d' = 8 /\
    __iter__ d' ≡ₚ __iter__ demo_str_updated /\
    forall k v, (k, v) ∈ __iter__ demo_str_updated ->
                __getitem__ (H := str_keys demo_hash) d' k = Ok v.
Proof.
  apply (resize_makes_retrievable (H := str_keys demo_hash)
           (fun a b => String.eqb_eq a b) (fun _ => eq_refl)
           64 false demo_str_updated 8).
  - vm_compute. apply NoDup_cons. split.
    + intros Hin. apply list_elem_of_singleton in Hin. discriminate.
    + apply NoDup_singleton.
  - vm_compute. reflexivity.
  - lia.
Defined.

End Witnesses.
